(** * Data-Integrity-Checker: the metrics calculator and the upload ingestion

    A shallow embedding of [calculate_metrics] and of the data path of
    [update_visualizations] (src/app.py; the second copy of both functions
    in the same file is identical in its data path).

    Numbers are modelled as the interpreter has them: Python [int] as [Z],
    [numpy.int64] as [Z] with its 64-bit wrap-around written out, Python
    [float] and [numpy.float64] as IEEE-754 binary64 through the executable
    specification [SpecFloat] (precision 53, emax 1024, round to nearest
    even).  A pandas [DataFrame] is a list of named, typed columns of equal
    length together with the length of its index. *)

From Stdlib Require Import ZArith List String Ascii Bool Lia QArith Qpower Lqa Morphisms
  SpecFloat Permutation.
Import ListNotations.
Open Scope Z_scope.

(** ** Binary64 *)

Module F64.

Definition prec : Z := 53.
Definition emax : Z := 1024.

Definition float := spec_float.

(** Conversion of an integer ([float(n)], the C cast behind numpy's
    int64 to float64 promotion): nearest double, ties to even. *)
Definition of_Z (z : Z) : float := binary_normalize prec emax z 0 false.

Definition add : float -> float -> float := SFadd prec emax.
Definition sub : float -> float -> float := SFsub prec emax.
Definition mul : float -> float -> float := SFmul prec emax.
Definition div : float -> float -> float := SFdiv prec emax.
Definition eqb : float -> float -> bool := SFeqb.
Definition ltb : float -> float -> bool := SFltb.
Definition leb : float -> float -> bool := SFleb.
Definition valid : float -> bool := valid_binary prec emax.

Definition zero : float := S754_zero false.
Definition nan : float := S754_nan.

Definition is_nan (x : float) : bool :=
  match x with S754_nan => true | _ => false end.

(** A decimal literal [num/den] of the source text is the double nearest
    to that fraction; correctly rounded division of the two (exactly
    representable) integers yields it. *)
Definition lit (num den : Z) : float := div (of_Z num) (of_Z den).

Definition hundred : float := of_Z 100.
Definition lit_0_9 : float := lit 9 10.
Definition lit_0_6 : float := lit 6 10.
Definition lit_0_4 : float := lit 4 10.

(** Nearest integer to [m / p], ties to the even one ([0 <= m], [0 < p]). *)
Definition rne_quot (m p : Z) : Z :=
  let q := m / p in
  match (2 * (m mod p)) ?= p with
  | Lt => q
  | Eq => if Z.even q then q else q + 1
  | Gt => q + 1
  end.

(** Nearest integer to the value [m * 2^e] of a finite double. *)
Definition rne_int (m : positive) (e : Z) : Z :=
  if 0 <=? e then Zpos m * 2 ^ e else rne_quot (Zpos m) (2 ^ (- e)).

(** C's [rint] in the default rounding mode: the input rounded to an
    integral double, keeping the sign (also of a zero result). *)
Definition rint (x : float) : float :=
  match x with
  | S754_finite s m e =>
      binary_normalize prec emax (cond_Zopp s (rne_int m e)) 0 s
  | _ => x
  end.

(** Python's [int(x)]: truncation toward zero; [None] where Python raises
    (infinities and NaN). *)
Definition to_int (x : float) : option Z :=
  match x with
  | S754_zero _ => Some 0
  | S754_finite s m e =>
      Some (cond_Zopp s (if 0 <=? e then Zpos m * 2 ^ e
                         else Zpos m / 2 ^ (- e)))
  | _ => None
  end.

(** [round(x, 2)] on a [numpy.float64]: numpy's [around], which is
    [rint(x * 10**2) / 10**2]. *)
Definition round2 (x : float) : float := div (rint (mul x hundred)) hundred.

(** numpy's sum of a contiguous float64 array ([np.add.reduce], which
    pandas calls for [nansum] and [nanmean]): the pairwise summation of
    [DOUBLE_pairwise_sum], added to the initial value [0.0].

    One turn of its unrolled loop: each of the eight accumulators takes one
    element ([r[j] += a[i + j]]). *)
Fixpoint zip_add (r c : list float) : list float :=
  match r, c with
  | x :: r', y :: c' => add x y :: zip_add r' c'
  | _, _ => r
  end.

(** [k] turns of [for (i = 8; i < n - n % 8; i += 8)]: the accumulators and
    the elements not read yet. *)
Fixpoint lanes (k : nat) (r l : list float) : list float * list float :=
  match k with
  | O => (r, l)
  | S k' => lanes k' (zip_add r (firstn 8 l)) (skipn 8 l)
  end.

(** [((r[0] + r[1]) + (r[2] + r[3])) + ((r[4] + r[5]) + (r[6] + r[7]))] *)
Definition combine8 (r : list float) : float :=
  match r with
  | [r0; r1; r2; r3; r4; r5; r6; r7] =>
      add (add (add r0 r1) (add r2 r3)) (add (add r4 r5) (add r6 r7))
  | _ => nan
  end.

(** A block of 8 to 128 elements: eight accumulators started at the first
    eight elements, the unrolled loop, the accumulators combined, and the
    [n % 8] last elements added one by one. *)
Definition block_sum (l : list float) : float :=
  let '(r, rest) := lanes (List.length l / 8 - 1) (firstn 8 l) (skipn 8 l) in
  fold_left add rest (combine8 r).

(** Fewer than 8 elements are added one by one to [0.0]; up to 128 as a
    block; more are split at [n2 = n / 2 - (n / 2) % 8] and the sums of the
    two parts added.  The recursion is on a bound of its depth ([fuel]);
    a list no longer than [fuel] never exhausts it (the value is NaN if it
    were to). *)
Fixpoint pairwise_sum (fuel : nat) (l : list float) : float :=
  let n := List.length l in
  if (n <? 8)%nat then fold_left add l zero
  else if (n <=? 128)%nat then block_sum l
  else match fuel with
       | O => nan
       | S fuel' =>
           let n2 := (n / 2 - (n / 2) mod 8)%nat in
           add (pairwise_sum fuel' (firstn n2 l)) (pairwise_sum fuel' (skipn n2 l))
       end.

(** [a.sum()]: the reduction starts from the identity [0.0] and adds the
    pairwise sum of the whole array to it.  (Some numpy versions start from
    [-0.0] instead, which differs only in the sign of a sum that is zero.) *)
Definition np_sum (l : list float) : float :=
  add zero (pairwise_sum (List.length l) l).

(** pandas [nansum] / [nanmean] with [skipna=True]: missing values are
    replaced by [0.0] in the sum and left out of the count; the mean of no
    value is NaN, which is what [0.0 / 0.0] gives. *)
Definition nansum (l : list float) : float :=
  np_sum (map (fun x => if is_nan x then zero else x) l).

Definition nanmean (l : list float) : float :=
  div (nansum l)
      (of_Z (Z.of_nat (List.length (filter (fun x => negb (is_nan x)) l)))).

(** The rational value of a double (0 for infinities and NaN). *)
Definition to_Q (x : float) : Q :=
match x with
| S754_finite s m e => inject_Z (cond_Zopp s (Zpos m)) * Qpower 2 e
| _ => 0%Q
end.

End F64.

(** ** Python values and exceptions *)

Inductive pyerror := TypeError | ValueError | OverflowError.

Inductive pyresult (A : Type) :=
| Ok (a : A)
| Raised (e : pyerror).
Arguments Ok {A} a.
Arguments Raised {A} e.

Definition bind {A B : Type} (r : pyresult A) (k : A -> pyresult B) : pyresult B :=
  match r with
  | Ok a => k a
  | Raised e => Raised e
  end.

Notation "x <- r ;; k" := (bind r (fun x => k))
  (at level 61, r at next level, right associativity).

(** The values that reach the result dictionary. *)
Inductive pyval :=
| PyInt (z : Z)               (* Python int, unbounded *)
| NpInt64 (z : Z)             (* numpy.int64, kept in [-2^63, 2^63) *)
| Float64 (f : F64.float)     (* Python float / numpy.float64 *)
| PyStr (s : string).         (* str *)

Definition wrap64 (z : Z) : Z := (z + 2 ^ 63) mod 2 ^ 64 - 2 ^ 63.

(** [a - b] *)
Definition py_sub (a b : pyval) : pyresult pyval :=
  match a, b with
  | PyInt x, PyInt y => Ok (PyInt (x - y))
  | PyInt x, NpInt64 y | NpInt64 x, PyInt y | NpInt64 x, NpInt64 y =>
      Ok (NpInt64 (wrap64 (x - y)))
  | (PyInt x | NpInt64 x), Float64 g => Ok (Float64 (F64.sub (F64.of_Z x) g))
  | Float64 f, (PyInt y | NpInt64 y) => Ok (Float64 (F64.sub f (F64.of_Z y)))
  | Float64 f, Float64 g => Ok (Float64 (F64.sub f g))
  | PyStr _, _ | _, PyStr _ => Raised TypeError
  end.

(** [a + b] *)
Definition py_add (a b : pyval) : pyresult pyval :=
  match a, b with
  | PyInt x, PyInt y => Ok (PyInt (x + y))
  | PyInt x, NpInt64 y | NpInt64 x, PyInt y | NpInt64 x, NpInt64 y =>
      Ok (NpInt64 (wrap64 (x + y)))
  | (PyInt x | NpInt64 x), Float64 g => Ok (Float64 (F64.add (F64.of_Z x) g))
  | Float64 f, (PyInt y | NpInt64 y) => Ok (Float64 (F64.add f (F64.of_Z y)))
  | Float64 f, Float64 g => Ok (Float64 (F64.add f g))
  | PyStr s, PyStr t => Ok (PyStr (s ++ t))
  | PyStr _, _ | _, PyStr _ => Raised TypeError
  end.

(** [a == b] between numbers: integers by value, an integer against a
    double after conversion to double, doubles by IEEE equality. *)
Definition py_eqb (a b : pyval) : bool :=
  match a, b with
  | (PyInt x | NpInt64 x), (PyInt y | NpInt64 y) => x =? y
  | (PyInt x | NpInt64 x), Float64 g => F64.eqb (F64.of_Z x) g
  | Float64 f, (PyInt y | NpInt64 y) => F64.eqb f (F64.of_Z y)
  | Float64 f, Float64 g => F64.eqb f g
  | PyStr s, PyStr t => String.eqb s t
  | _, _ => false
  end.


(** ** Tables *)

(** A pandas column: one dtype for all its cells.  An int64 or bool column
    has no missing value; a float64 column marks a missing value by NaN; an
    object column holds text or a missing value. *)
Inductive Series :=
| Int64Col (v : list Z)
| BoolCol (v : list bool)
| Float64Col (v : list F64.float)
| ObjectCol (v : list (option string)).

Definition series_len (s : Series) : nat :=
  match s with
  | Int64Col v => List.length v
  | BoolCol v => List.length v
  | Float64Col v => List.length v
  | ObjectCol v => List.length v
  end.

Record DataFrame := {
  index_len : nat;                      (* len(df) *)
  columns : list (string * Series)      (* df.columns with their data *)
}.

(** [pd.DataFrame()] *)
Definition empty_frame : DataFrame := {| index_len := 0; columns := [] |}.

(** [df.empty]: some axis has length 0. *)
Definition df_empty (df : DataFrame) : bool :=
  (index_len df =? 0)%nat || match columns df with [] => true | _ => false end.

Definition in_int64 (z : Z) : bool := (- 2 ^ 63 <=? z) && (z <? 2 ^ 63).

Definition series_ok (s : Series) : bool :=
  match s with
  | Int64Col v => forallb in_int64 v
  | Float64Col v => forallb F64.valid v
  | _ => true
  end.

Fixpoint distinct (l : list string) : bool :=
  match l with
  | [] => true
  | x :: r => negb (existsb (String.eqb x) r) && distinct r
  end.

(** What pandas maintains of a frame: every column as long as the index,
    column labels distinct, int64 cells in range, float64 cells genuine
    doubles. *)
Definition well_formed (df : DataFrame) : bool :=
  forallb (fun c => (series_len (snd c) =? index_len df)%nat && series_ok (snd c))
          (columns df)
  && distinct (map fst (columns df)).

(** [name in df.columns] and [df[name]] *)
Definition has_column (name : string) (df : DataFrame) : bool :=
  existsb (fun c => String.eqb (fst c) name) (columns df).

Definition get_column (name : string) (df : DataFrame) : option Series :=
  option_map snd (find (fun c => String.eqb (fst c) name) (columns df)).

(** *** [df.notnull().mean().mean()] *)

Definition notnull (s : Series) : list bool :=
  match s with
  | Int64Col v => map (fun _ => true) v
  | BoolCol v => map (fun _ => true) v
  | Float64Col v => map (fun x => negb (F64.is_nan x)) v
  | ObjectCol v => map (fun o => match o with Some _ => true | None => false end) v
  end.

Definition count_true (l : list bool) : nat := List.length (filter (fun b => b) l).

(** Mean of a boolean column: its [True]s counted in float64 (exact below
    2^53) and divided by its length. *)
Definition bool_mean (l : list bool) : F64.float :=
  F64.div (F64.of_Z (Z.of_nat (count_true l))) (F64.of_Z (Z.of_nat (List.length l))).

Definition notnull_means (df : DataFrame) : list F64.float :=
  map (fun c => bool_mean (notnull (snd c))) (columns df).

(** *** [df.duplicated()] *)

(** A cell as row comparison sees it. *)
Inductive cell :=
| CNull
| CInt (z : Z)
| CBool (b : bool)
| CFloat (f : F64.float)
| CStr (s : string).

Definition cell_at (s : Series) (i : nat) : cell :=
  match s with
  | Int64Col v => CInt (nth i v 0)
  | BoolCol v => CBool (nth i v false)
  | Float64Col v =>
      let x := nth i v F64.nan in
      if F64.is_nan x then CNull else CFloat x
  | ObjectCol v =>
      match nth i v None with
      | Some s => CStr s
      | None => CNull
      end
  end.

(** Equality of keys in pandas' hash tables: missing values are equal to
    one another, doubles are compared with [==]. *)
Definition cell_eqb (a b : cell) : bool :=
  match a, b with
  | CNull, CNull => true
  | CInt x, CInt y => x =? y
  | CBool x, CBool y => Bool.eqb x y
  | CFloat x, CFloat y => F64.eqb x y
  | CStr x, CStr y => String.eqb x y
  | _, _ => false
  end.

Fixpoint row_eqb (r1 r2 : list cell) : bool :=
  match r1, r2 with
  | [], [] => true
  | a :: r1', b :: r2' => cell_eqb a b && row_eqb r1' r2'
  | _, _ => false
  end.

Definition row_at (df : DataFrame) (i : nat) : list cell :=
  map (fun c => cell_at (snd c) i) (columns df).

Definition rows (df : DataFrame) : list (list cell) :=
  map (row_at df) (seq 0 (index_len df)).

(** The pass of [duplicated(keep='first')]: a row is marked when its key is
    already in the table of keys seen, and entered into it otherwise. *)
Fixpoint mark_seen (seen : list (list cell)) (rs : list (list cell)) : list bool :=
  match rs with
  | [] => []
  | r :: rs' =>
      if existsb (row_eqb r) seen then true :: mark_seen seen rs'
      else false :: mark_seen (r :: seen) rs'
  end.

(** [DataFrame.duplicated] returns an empty boolean series for an empty
    frame, before looking at any row. *)
Definition duplicated (df : DataFrame) : list bool :=
  if df_empty df then [] else mark_seen [] (rows df).

(** *** [Series.sum] *)

Definition is_none {A : Type} (o : option A) : bool :=
  match o with None => true | Some _ => false end.

(** The sum of an object column, left to right over its cells with the
    missing ones replaced by the integer 0. *)
Fixpoint object_sum (acc : pyval) (v : list (option string)) : pyresult pyval :=
  match v with
  | [] => Ok acc
  | o :: r =>
      acc' <- py_add acc (match o with Some s => PyStr s | None => PyInt 0 end) ;;
      object_sum acc' r
  end.

Definition series_sum (s : Series) : pyresult pyval :=
  match s with
  | Int64Col v => Ok (NpInt64 (wrap64 (fold_left Z.add v 0)))
  | BoolCol v => Ok (NpInt64 (wrap64 (Z.of_nat (count_true v))))
  | Float64Col v => Ok (Float64 (F64.nansum v))
  | ObjectCol v =>
      match v with
      | [] => Ok (PyInt 0)
      | o :: r => object_sum (match o with Some s => PyStr s | None => PyInt 0 end) r
      end
  end.

(** ** [calculate_metrics] *)

Record Metrics := {
  completeness : pyval;
  consistency : pyval;
  overall_integrity : pyval;
  valid_records : pyval;
  invalid_records : pyval
}.

Definition zero_metrics : Metrics :=
  {| completeness := PyInt 0; consistency := PyInt 0; overall_integrity := PyInt 0;
     valid_records := PyInt 0; invalid_records := PyInt 0 |}.

(** [(df.notnull().mean().mean()) * 100] *)
Definition completeness_raw (df : DataFrame) : F64.float :=
  F64.mul (F64.nanmean (notnull_means df)) F64.hundred.

(** [df.duplicated().sum()] *)
Definition duplicate_count (df : DataFrame) : Z :=
  Z.of_nat (count_true (duplicated df)).

(** [100 - (df.duplicated().sum() / total_records * 100)] *)
Definition consistency_raw (df : DataFrame) : F64.float :=
  F64.sub F64.hundred
    (F64.mul (F64.div (F64.of_Z (duplicate_count df))
                      (F64.of_Z (Z.of_nat (index_len df))))
             F64.hundred).

(** [0.6 * completeness + 0.4 * consistency] *)
Definition overall_raw (df : DataFrame) : F64.float :=
  F64.add (F64.mul F64.lit_0_6 (completeness_raw df))
          (F64.mul F64.lit_0_4 (consistency_raw df)).

(** [int(0.9 * total_records)] *)
Definition fallback_valid (total_records : Z) : pyresult pyval :=
  match F64.to_int (F64.mul F64.lit_0_9 (F64.of_Z total_records)) with
  | Some k => Ok (PyInt k)
  | None => Raised OverflowError
  end.

(** [df["valid"].sum() if "valid" in df.columns else int(0.9 * total_records)] *)
Definition valid_of (df : DataFrame) : pyresult pyval :=
  match get_column "valid" df with
  | Some s => series_sum s
  | None => fallback_valid (Z.of_nat (index_len df))
  end.

Definition calculate_metrics (df : DataFrame) : pyresult Metrics :=
  let total_records := Z.of_nat (index_len df) in
  if total_records =? 0 then Ok zero_metrics
  else
    valid <- valid_of df ;;
    invalid <- py_sub (PyInt total_records) valid ;;
    Ok {| completeness := Float64 (F64.round2 (completeness_raw df));
          consistency := Float64 (F64.round2 (consistency_raw df));
          overall_integrity := Float64 (F64.round2 (overall_raw df));
          valid_records := valid;
          invalid_records := invalid |}.

(** *** Classes of frames the statements below speak of *)

(** A frame that a process can hold: fewer than 2^48 rows and columns (a
    48-bit address space gives every cell at least one byte). *)
Definition in_memory (df : DataFrame) : bool :=
  (Z.of_nat (index_len df) <? 2 ^ 48) && (Z.of_nat (List.length (columns df)) <? 2 ^ 48).

(** At least one row and one column: [not df.empty]. *)
Definition non_empty (df : DataFrame) : bool := negb (df_empty df).

(** The [valid] column, when there is one, holds no text: summing it and
    subtracting the sum from an integer raise nothing. *)
Definition valid_summable (df : DataFrame) : bool :=
  match get_column "valid" df with
  | Some (ObjectCol v) => forallb is_none v
  | _ => true
  end.


(** A percentage field as returned: the integer 0 of the empty case, or the
    double nearest to [k / 100] for an integer [k] between 0 and 10000. *)
Definition two_decimals (v : pyval) : Prop :=
  v = PyInt 0 \/ exists k, 0 <= k <= 10000 /\ v = Float64 (F64.lit k 100).

(** The sum of an integer or boolean column as a mathematical integer. *)
Definition series_total (s : Series) : Z :=
  match s with
  | Int64Col v => fold_left Z.add v 0
  | BoolCol v => Z.of_nat (count_true v)
  | _ => 0
  end.


(** Flags only: every cell is 0, 1, [False] or [True]. *)
Definition boolean_like (s : Series) : bool :=
  match s with
  | Int64Col v => forallb (fun z => (z =? 0) || (z =? 1)) v
  | BoolCol _ => true
  | _ => false
  end.







(** *** Sample frames *)

(** Four rows, the second and the fourth identical, flags 1, 1, 0, 1. *)
Definition sample_flags : DataFrame :=
  {| index_len := 4;
     columns := [("score"%string, Int64Col [1; 2; 3; 2]);
                 ("valid"%string, Int64Col [1; 1; 0; 1])] |}.

(** Ten distinct rows and no [valid] column. *)
Definition sample_ten : DataFrame :=
  {| index_len := 10;
     columns := [("score"%string, Int64Col [1; 2; 3; 4; 5; 6; 7; 8; 9; 10])] |}.

(** One row and no [valid] column. *)
Definition sample_one : DataFrame :=
  {| index_len := 1; columns := [("score"%string, Int64Col [7])] |}.

(** One row whose [valid] cell is 2. *)
Definition sample_two_valid : DataFrame :=
  {| index_len := 1; columns := [("valid"%string, Int64Col [2])] |}.



(** One row whose [valid] cell is the text "yes". *)
Definition sample_text_valid : DataFrame :=
  {| index_len := 1; columns := [("valid"%string, ObjectCol [Some "yes"%string])] |}.


(** A float64 column of 20 cells, the first [k] holding 1.0 and the others
    missing. *)
Definition gaps (k : nat) : Series :=
  Float64Col (repeat (F64.of_Z 1) k ++ repeat F64.nan (20 - k)).

(** Twenty rows and eight columns with 29 of the 160 cells filled.  The
    eight column means add up to 1.45 in the order numpy takes them, and to
    the next double above when they are added one by one; completeness is
    18.125 in the first case, returned as 18.12, and would be returned as
    18.13 in the second. *)
Definition sample_gaps : DataFrame :=
  {| index_len := 20;
     columns := [("a"%string, gaps 1); ("b"%string, gaps 6); ("c"%string, gaps 4);
                 ("d"%string, gaps 4); ("e"%string, gaps 6); ("f"%string, gaps 6);
                 ("g"%string, gaps 0); ("h"%string, gaps 2)] |}.

(** ** The upload path of [update_visualizations] *)

(** [s.endswith(suffix)] *)
Definition endswith (s suffix : string) : bool :=
  let ls := String.length s in
  let lx := String.length suffix in
  (lx <=? ls)%nat && String.eqb (substring (ls - lx) lx s) suffix.

(** [s.split(sep)] for a one-character separator. *)
Fixpoint split_on (sep : ascii) (s : string) : list string :=
  match s with
  | EmptyString => [EmptyString]
  | String c r =>
      if Ascii.eqb c sep then EmptyString :: split_on sep r
      else match split_on sep r with
           | h :: t => String c h :: t
           | [] => [String c EmptyString]
           end
  end.

Definition comma : ascii := Ascii.ascii_of_nat 44.

(** [pd.DataFrame({"content": text_data})] *)
Definition content_frame (text_data : list (option string)) : DataFrame :=
  {| index_len := List.length text_data;
     columns := [("content"%string, ObjectCol text_data)] |}.

Section Upload.

(** The libraries the handler delegates to.  Each may raise. *)
Variable b64decode : string -> pyresult string.
(** [pd.read_csv(io.StringIO(decoded.decode("utf-8")))] *)
Variable read_csv : string -> pyresult DataFrame.
(** [pd.read_excel(io.BytesIO(decoded), engine="openpyxl")] *)
Variable read_excel : string -> pyresult DataFrame.
(** [[page.extract_text() for page in PyPDF2.PdfReader(...).pages]] *)
Variable pdf_page_texts : string -> pyresult (list (option string)).
(** [pd.concat(frames, ignore_index=True)] on a non-empty list *)
Variable concat : list DataFrame -> DataFrame.

(** One turn of the loop body: [None] is [continue], [Some df] reaches
    [all_data.append(df)]. *)
Definition read_upload (content filename : string) : pyresult (option DataFrame) :=
  match split_on comma content with
  | [_; content_string] =>
      decoded <- b64decode content_string ;;
      if endswith filename ".csv" then
        df <- read_csv decoded ;; Ok (Some df)
      else if endswith filename ".xlsx" then
        df <- read_excel decoded ;; Ok (Some df)
      else if endswith filename ".pdf" then
        text_data <- pdf_page_texts decoded ;; Ok (Some (content_frame text_data))
      else Ok None
  | _ => Raised ValueError
  end.

(** The loop over [zip(contents, filenames)], threading [all_data]. *)
Fixpoint gather (uploads : list (string * string)) (all_data : list DataFrame)
  : pyresult (list DataFrame) :=
  match uploads with
  | [] => Ok all_data
  | (content, filename) :: rest =>
      r <- read_upload content filename ;;
      match r with
      | Some df => gather rest (all_data ++ [df])
      | None => gather rest all_data
      end
  end.

(** [pd.concat(all_data, ignore_index=True) if all_data else pd.DataFrame()] *)
Definition combine (all_data : list DataFrame) : DataFrame :=
  match all_data with
  | [] => empty_frame
  | _ => concat all_data
  end.

Definition combined_df (contents filenames : list string) : pyresult DataFrame :=
  all_data <- gather (List.combine contents filenames) [] ;;
  Ok (combine all_data).

(** The handler up to presentation: the metrics it goes on to plot and
    the status text. *)
Definition update_visualizations (contents : option (list string))
           (filenames : list string) : pyresult (option Metrics * string) :=
  match contents with
  | Some cs =>
      df <- combined_df cs filenames ;;
      metrics <- calculate_metrics df ;;
      Ok (Some metrics, "Metrics successfully calculated."%string)
  | None => Ok (None, "Upload your files to see results."%string)
  end.

End Upload.

Definition recognized (filename : string) : bool :=
  endswith filename ".csv" || endswith filename ".xlsx" || endswith filename ".pdf".

(** What the upload component hands over for a file: a data URL, one comma
    before a base64 payload that decodes. *)
Definition data_url (b64decode : string -> pyresult string) (content : string) : Prop :=
  exists header payload decoded,
    split_on comma content = [header; payload] /\ b64decode payload = Ok decoded.

(** Stand-ins for the libraries, to run the upload path on a sample. *)
Definition sample_decode (payload : string) : pyresult string := Ok payload.
Definition sample_reader (decoded : string) : pyresult DataFrame := Ok sample_one.
Definition sample_pages (decoded : string) : pyresult (list (option string)) := Ok [].
Definition sample_concat (frames : list DataFrame) : DataFrame := sample_one.

(** ** The specification's wording, for comparison with the code *)

Module Spec.

(** "round(0.9 x total_rows) using standard rounding to an integer": [k] is
    an integer nearest to the fraction [num / den], whichever way a half
    goes. *)
Definition nearest_integer (k num den : Z) : bool :=
Z.abs (2 * (k * den - num)) <=? den.

(** "complete field-tuple is identical": the fields of rows [i] and [j]
    agree in every column, the fields of a column being read off its values;
    two missing fields agree. *)
Definition same_field (s : Series) (i j : nat) : bool :=
  match s with
  | Int64Col v => nth i v 0 =? nth j v 0
  | BoolCol v => Bool.eqb (nth i v false) (nth j v false)
  | Float64Col v =>
      let x := nth i v F64.nan in
      let y := nth j v F64.nan in
      if F64.is_nan x then F64.is_nan y else F64.eqb x y
  | ObjectCol v =>
      match nth i v None, nth j v None with
      | Some a, Some b => String.eqb a b
      | None, None => true
      | _, _ => false
      end
  end.

Definition same_row (df : DataFrame) (i j : nat) : bool :=
  forallb (fun c => same_field (snd c) i j) (columns df).

(** "rows whose complete field-tuple is identical to at least one earlier
    row" *)
Definition repeats_earlier (df : DataFrame) (i : nat) : bool :=
  existsb (fun j => same_row df j i) (seq 0 i).

Definition duplicate_rows (df : DataFrame) : Z :=
  Z.of_nat (List.length (filter (repeats_earlier df) (seq 0 (index_len df)))).

(** "treating non-zero/true as 1, else 0" *)
Definition truthy (c : cell) : bool :=
  match c with
  | CInt z => negb (z =? 0)
  | CBool b => b
  | CFloat f => negb (F64.eqb f F64.zero)
  | CStr s => negb (String.eqb s "")
  | CNull => false
  end.

Definition truthy_count (s : Series) : Z :=
  Z.of_nat (List.length (filter (fun i => truthy (cell_at s i)) (seq 0 (series_len s)))).

(** "non-null cells" and "all cells of the table": the cells of a column
    that hold a value. *)
Definition present (s : Series) : nat :=
  match s with
  | Int64Col v => List.length v
  | BoolCol v => List.length v
  | Float64Col v => List.length (filter (fun x => negb (F64.is_nan x)) v)
  | ObjectCol v =>
      List.length (filter (fun o => match o with Some _ => true | None => false end) v)
  end.

Definition non_null_cells (df : DataFrame) : Z :=
  Z.of_nat (fold_right (fun c acc => (present (snd c) + acc)%nat) 0%nat (columns df)).

Definition all_cells (df : DataFrame) : Z :=
  Z.of_nat (index_len df * List.length (columns df)).

Definition no_null_cells (df : DataFrame) : bool :=
  forallb (fun c => (present (snd c) =? series_len (snd c))%nat) (columns df).

(** The pairs [(i, j)], [i < j], of positions of identical rows. *)
Definition identical_pairs (df : DataFrame) : list (nat * nat) :=
filter (fun p => same_row df (fst p) (snd p))
       (flat_map (fun j => map (fun i => (i, j)) (seq 0 j)) (seq 0 (index_len df))).

Definition no_duplicate_rows (df : DataFrame) : bool :=
  forallb (fun i => negb (repeats_earlier df i)) (seq 0 (index_len df)).

End Spec.

(** ** Rounding to nearest double: the notions the proofs use *)

Abbreviation fx := (fexp F64.prec F64.emax).
Abbreviation bounded64 := (bounded F64.prec F64.emax).

Definition pow2 (e : Z) : Q := Qpower 2 e.

(** The positive rational [x] lies in the interval of [m * 2^e] and
    [(m+1) * 2^e] as the location [l] says: on its lower end, below, at or
    above its middle. *)
Definition locates (m e : Z) (l : location) (x : Q) : Prop :=
  match l with
  | loc_Exact => (x == inject_Z m * pow2 e)%Q
  | loc_Inexact Lt =>
      (inject_Z m * pow2 e < x /\ x < inject_Z (2 * m + 1) * pow2 (e - 1))%Q
  | loc_Inexact Eq => (x == inject_Z (2 * m + 1) * pow2 (e - 1))%Q
  | loc_Inexact Gt =>
      (inject_Z (2 * m + 1) * pow2 (e - 1) < x /\ x < inject_Z (m + 1) * pow2 e)%Q
  end.

(** The double made of a rounded mantissa [m] on the grid of exponent [e]:
    a mantissa that reached [2^53] moves to the next exponent, an exponent
    above 971 overflows. *)
Definition pack (m e : Z) : F64.float :=
  let '(mf, ef) := if m =? 2 ^ 53 then (2 ^ 52, e + 1) else (m, e) in
  match mf with
  | Z0 => S754_zero false
  | Zpos p => if ef <=? 971 then S754_finite false p ef else S754_infinity false
  | Zneg _ => S754_nan
  end.

(** [r] is one of the two doubles around the positive rational [x], or [x]
    itself when [x] is a double: [F] is the binade of [x], [m] the mantissa
    chosen on the grid of that binade. *)
Definition rounds_to (x : Q) (r : F64.float) : Prop :=
  exists F m : Z,
    (pow2 (F - 1) <= x /\ x < pow2 F)%Q /\
    (inject_Z (m - 1) * pow2 (fx F) < x /\ x < inject_Z (m + 1) * pow2 (fx F))%Q /\
    0 <= m <= 2 ^ 53 /\
    (fx F = F - 53 -> 2 ^ 52 <= m) /\
    r = pack m (fx F).

(** Value of the positive double of mantissa [m] and exponent [e]. *)
Definition posval (m : positive) (e : Z) : Q := inject_Z (Zpos m) * pow2 e.

(** The double of a dyadic number [n * 2^k] with [0 < n < 2^53]. *)
Definition dyadic (n k : Z) : F64.float :=
  S754_finite false (Z.to_pos (n * 2 ^ (53 - Zdigits2 n))) (Zdigits2 n - 53 + k).

(** A positive double with value between [lo] and [hi]. *)
Definition between (f : F64.float) (lo hi : Q) : Prop :=
  exists m e, f = S754_finite false m e /\ bounded64 m e = true /\
              (lo <= posval m e /\ posval m e <= hi)%Q.

(** Zero, or a positive double between [lo] and [hi]. *)
Definition upto (f : F64.float) (lo hi : Q) : Prop :=
  f = S754_zero false \/ between f lo hi.

(** [1.0], [2^-48] and [2^-96]. *)
Definition one : F64.float := S754_finite false 4503599627370496 (-52).
Definition tiny : Q := posval 4503599627370496 (-100).
Definition tiny2 : Q := posval 4503599627370496 (-148).

(** The unit roundoff bound used below, [2^-52]. *)
Definition ulp52 : Q := pow2 (-52).

(** The value of [f] is within [err] of [x]. *)
Definition near (f : F64.float) (x err : Q) : Prop :=
  (x - err <= F64.to_Q f /\ F64.to_Q f <= x + err)%Q.

(** The exact sum of the values of a list of doubles. *)
Definition Qsum (l : list F64.float) : Q :=
  fold_right (fun f acc => (F64.to_Q f + acc)%Q) 0%Q l.

(** [r] is a result of adding up the doubles of [l], each once, in some
    order and bracketing. *)
Inductive sums_to : list F64.float -> F64.float -> Prop :=
| sums_one (x : F64.float) : sums_to [x] x
| sums_add (l1 l2 : list F64.float) (r1 r2 : F64.float) :
    sums_to l1 r1 -> sums_to l2 r2 -> sums_to (l1 ++ l2) (F64.add r1 r2)
| sums_perm (l l' : list F64.float) (r : F64.float) :
    Permutation l l' -> sums_to l r -> sums_to l' r.

(** ** The pass of [duplicated] *)

(** The table of keys seen stands for every row passed: each one is in it
    or equal to one in it. *)
Definition covers (seen prev : list (list cell)) : Prop :=
  (forall s, In s seen -> In s prev) /\
  (forall p, In p prev -> In p seen \/ exists s, In s seen /\ row_eqb p s = true).


(** ** Further notions for the upload loop and for frames *)

(** [s.count(c)] for a character [c]. *)
Fixpoint count_char (c : ascii) (s : string) : nat :=
  match s with
  | EmptyString => 0
  | String a r => (if Ascii.eqb a c then 1 else 0) + count_char c r
  end.

(** [sep.join(parts)] for a one-character separator. *)
Fixpoint join (sep : ascii) (parts : list string) : string :=
  match parts with
  | [] => EmptyString
  | [p] => p
  | p :: rest => p ++ String sep (join sep rest)
  end.


(** A missing cell, as [notnull] and row comparison both see it. *)
Definition is_null (c : cell) : bool :=
  match c with CNull => true | _ => false end.

(** Every cell of the table is missing. *)
Definition all_null (df : DataFrame) : bool :=
  forallb (fun c => forallb negb (notnull (snd c))) (columns df).

Section UploadCopy.

Variable b64decode : string -> pyresult string.
Variable read_csv : string -> pyresult DataFrame.
Variable read_excel : string -> pyresult DataFrame.
Variable pdf_page_texts : string -> pyresult (list (option string)).
Variable concat : list DataFrame -> DataFrame.

(** The second copy of the handler (the part of the file headed
    [import dash.py]): it returns early when nothing was uploaded and runs
    the same loop, combination and metrics otherwise. *)
Definition update_visualizations_dash (contents : option (list string))
           (filenames : list string) : pyresult (option Metrics * string) :=
  match contents with
  | None => Ok (None, "Upload your files to see results."%string)
  | Some cs =>
      all_data <- gather b64decode read_csv read_excel pdf_page_texts
                         (List.combine cs filenames) [] ;;
      let combined := match all_data with
                      | [] => empty_frame
                      | _ => concat all_data
                      end in
      metrics <- calculate_metrics combined ;;
      Ok (Some metrics, "Metrics successfully calculated."%string)
  end.

End UploadCopy.

(** More sample frames and stand-ins. *)

(** Three rows and no column, as [pd.DataFrame(index=range(3))]. *)
Definition sample_no_columns : DataFrame := {| index_len := 3; columns := [] |}.

(** Two rows of missing values only. *)
Definition sample_all_null : DataFrame :=
  {| index_len := 2;
     columns := [("score"%string, Float64Col [F64.nan; F64.nan]);
                 ("valid"%string, ObjectCol [None; None])] |}.

(** [sample_flags] with its first two rows exchanged. *)
Definition sample_flags_reordered : DataFrame :=
  {| index_len := 4;
     columns := [("score"%string, Int64Col [2; 1; 3; 2]);
                 ("valid"%string, Int64Col [1; 1; 0; 1])] |}.


(** A decoder that refuses every payload. *)
Definition failing_decode (payload : string) : pyresult string := Raised ValueError.



(** * Proofs *)

(** ** Powers of two and the shifts of [SpecFloat] *)

Lemma pow2_pos e : (0 < pow2 e)%Q.
Proof. apply Qpower_0_lt. reflexivity. Qed.

Lemma pow2_succ e : (pow2 (e + 1) == 2 * pow2 e)%Q.
Proof.
  unfold pow2. rewrite Qpower_plus by discriminate. simpl (2 ^ 1)%Q. ring.
Qed.

Lemma pow2_pred e : (pow2 e == 2 * pow2 (e - 1))%Q.
Proof.
  rewrite <- pow2_succ. replace (e - 1 + 1) with e by lia. reflexivity.
Qed.

Lemma pow2_add a b : (pow2 (a + b) == pow2 a * pow2 b)%Q.
Proof. unfold pow2. apply Qpower_plus. discriminate. Qed.

Lemma pow2_Z n : 0 <= n -> (pow2 n == inject_Z (2 ^ n))%Q.
Proof. intros. unfold pow2. rewrite Zpower_Qpower by assumption. reflexivity. Qed.

Lemma pow2_le a b : a <= b -> (pow2 a <= pow2 b)%Q.
Proof. intros. unfold pow2. apply Qpower_le_compat_l; [assumption | discriminate]. Qed.

Lemma pow2_lt a b : a < b -> (pow2 a < pow2 b)%Q.
Proof. intros. unfold pow2. apply Qpower_lt_compat_l; [assumption | reflexivity]. Qed.

Lemma inj_xO p : (inject_Z (Zpos p~0) == 2 * inject_Z (Zpos p))%Q.
Proof. rewrite Pos2Z.inj_xO, inject_Z_mult. reflexivity. Qed.

Lemma inj_xI p : (inject_Z (Zpos p~1) == 2 * inject_Z (Zpos p) + 1)%Q.
Proof. rewrite Pos2Z.inj_xI, inject_Z_plus, inject_Z_mult. reflexivity. Qed.

Ltac locq e :=
  unfold locates, shr_1, loc_of_shr_record, shr_m in *;
  simpl orb in *; cbv iota beta in *;
  replace (e + 1 - 1) with e in * by lia;
  rewrite ?inject_Z_plus, ?inject_Z_mult in *;
  change (inject_Z 1) with 1%Q in *; change (inject_Z 2) with 2%Q in *;
  change (inject_Z 0) with 0%Q in *.

Lemma shr_1_locates m r s e x :
  0 <= m ->
  locates m e (loc_of_shr_record (Build_shr_record m r s)) x ->
  let mrs := shr_1 (Build_shr_record m r s) in
  shr_m mrs = m / 2 /\ locates (shr_m mrs) (e + 1) (loc_of_shr_record mrs) x.
Proof.
  intros Hm H.
  assert (P := pow2_pos (e - 1)).
  assert (E1 := pow2_pred e). assert (E2 := pow2_succ e).
  destruct m as [|p|p]; [| |lia].
  - split; [reflexivity|].
    destruct r, s; locq e; rewrite ?E2, ?E1 in *; lra.
  - destruct p as [p|p|].
    + split; [simpl; rewrite (Pos2Z.inj_xI p); apply Z.div_unique with 1; lia|].
      assert (I := inj_xI p).
      destruct r, s; locq e; rewrite ?I, ?E2, ?E1 in *; lra.
    + split; [simpl; rewrite (Pos2Z.inj_xO p); apply Z.div_unique with 0; lia|].
      assert (I := inj_xO p).
      destruct r, s; locq e; rewrite ?I, ?E2, ?E1 in *; lra.
    + split; [reflexivity|].
      destruct r, s; locq e; rewrite ?E2, ?E1 in *; lra.
Qed.

Lemma iter_shr_locates p : forall mrs e x,
  0 <= shr_m mrs ->
  locates (shr_m mrs) e (loc_of_shr_record mrs) x ->
  let mrs' := iter_pos shr_1 p mrs in
  shr_m mrs' = shr_m mrs / 2 ^ Zpos p /\
  locates (shr_m mrs') (e + Zpos p) (loc_of_shr_record mrs') x.
Proof.
  assert (step : forall mrs e x, 0 <= shr_m mrs ->
            locates (shr_m mrs) e (loc_of_shr_record mrs) x ->
            shr_m (shr_1 mrs) = shr_m mrs / 2 /\
            locates (shr_m (shr_1 mrs)) (e + 1) (loc_of_shr_record (shr_1 mrs)) x).
  { intros [m r s] e x Hm H. apply (shr_1_locates m r s e x Hm H). }
  assert (twice : forall a n, 0 <= a -> a / 2 ^ Zpos n / 2 ^ Zpos n = a / 2 ^ Zpos n~0).
  { intros a n Ha.
    assert (P2 : 0 < 2 ^ Zpos n) by (apply Z.pow_pos_nonneg; lia).
    rewrite Z.div_div; [|lia|exact P2].
    rewrite <- Z.pow_add_r by lia. f_equal. f_equal. lia. }
  induction p as [p IH|p IH|]; intros mrs e x Hm H; cbn [iter_pos].
  - destruct (step mrs e x Hm H) as [M1 L1].
    assert (Hm1 : 0 <= shr_m (shr_1 mrs)) by (rewrite M1; apply Z.div_pos; lia).
    destruct (IH _ _ _ Hm1 L1) as [M2 L2].
    assert (Hm2 : 0 <= shr_m (iter_pos shr_1 p (shr_1 mrs)))
      by (rewrite M2; apply Z.div_pos; [lia | apply Z.pow_pos_nonneg; lia]).
    destruct (IH _ _ _ Hm2 L2) as [M3 L3].
    split.
    + rewrite M3, M2, M1.
      rewrite twice by (apply Z.div_pos; lia).
      assert (P2 : 0 < 2 ^ Zpos p~0) by (apply Z.pow_pos_nonneg; lia).
      rewrite Z.div_div; [|lia|exact P2].
      replace (2 * 2 ^ Zpos p~0) with (2 ^ Zpos p~1); [reflexivity|].
      rewrite (Pos2Z.inj_xI p), Z.pow_add_r by lia. lia.
    + replace (e + Zpos p~1) with (e + 1 + Zpos p + Zpos p) by lia. exact L3.
  - destruct (IH _ _ _ Hm H) as [M2 L2].
    assert (Hm2 : 0 <= shr_m (iter_pos shr_1 p mrs))
      by (rewrite M2; apply Z.div_pos; [lia | apply Z.pow_pos_nonneg; lia]).
    destruct (IH _ _ _ Hm2 L2) as [M3 L3].
    split.
    + rewrite M3, M2. apply twice. assumption.
    + replace (e + Zpos p~0) with (e + Zpos p + Zpos p) by lia. exact L3.
  - destruct (step mrs e x Hm H) as [M1 L1]. split; [|exact L1].
    rewrite M1. reflexivity.
Qed.

Lemma loc_of_record_of_loc m l :
  loc_of_shr_record (shr_record_of_loc m l) = l /\ shr_m (shr_record_of_loc m l) = m.
Proof. destruct l as [|[| |]]; split; reflexivity. Qed.

Lemma shr_fexp_locates m e l x :
  0 <= m -> locates m e l x ->
  let e' := Z.max e (fexp F64.prec F64.emax (Zdigits2 m + e)) in
  let mrs := fst (shr_fexp F64.prec F64.emax m e l) in
  snd (shr_fexp F64.prec F64.emax m e l) = e' /\
  shr_m mrs = m / 2 ^ (e' - e) /\
  locates (shr_m mrs) e' (loc_of_shr_record mrs) x.
Proof.
  intros Hm H. unfold shr_fexp, shr.
  destruct (loc_of_record_of_loc m l) as [L M].
  set (n := fexp F64.prec F64.emax (Zdigits2 m + e) - e).
  destruct n as [|p|p] eqn:En; cbn [fst snd].
  - replace (Z.max e _) with e by lia. replace (e - e) with 0 by lia.
    rewrite M, L, Z.pow_0_r, Z.div_1_r. auto.
  - replace (Z.max e _) with (e + Zpos p) by lia.
    replace (e + Zpos p - e) with (Zpos p) by lia.
    split; [reflexivity|].
    destruct (iter_shr_locates p (shr_record_of_loc m l) e x) as [A B];
      rewrite ?M, ?L; try assumption.
    rewrite M in A. auto.
  - replace (Z.max e _) with e by lia. replace (e - e) with 0 by lia.
    rewrite M, L, Z.pow_0_r, Z.div_1_r. auto.
Qed.

Lemma digits2_bounds p :
  2 ^ (Zpos (digits2_pos p) - 1) <= Zpos p < 2 ^ Zpos (digits2_pos p).
Proof.
  induction p as [p IH|p IH|]; cbn [digits2_pos].
  - rewrite Pos2Z.inj_succ, (Pos2Z.inj_xI p).
    replace (Z.succ (Zpos (digits2_pos p)) - 1) with (Z.succ (Zpos (digits2_pos p) - 1)) by lia.
    rewrite !Z.pow_succ_r by lia. lia.
  - rewrite Pos2Z.inj_succ, (Pos2Z.inj_xO p).
    replace (Z.succ (Zpos (digits2_pos p)) - 1) with (Z.succ (Zpos (digits2_pos p) - 1)) by lia.
    rewrite !Z.pow_succ_r by lia. lia.
  - simpl. lia.
Qed.

Lemma digits2_unique p d :
  2 ^ (d - 1) <= Zpos p < 2 ^ d -> Zpos (digits2_pos p) = d.
Proof.
  intros [H1 H2]. destruct (digits2_bounds p) as [B1 B2].
  destruct (Z.lt_trichotomy (Zpos (digits2_pos p)) d) as [L|[E|L]]; [|assumption|]; exfalso.
  - assert (2 ^ Zpos (digits2_pos p) <= 2 ^ (d - 1)) by (apply Z.pow_le_mono_r; lia). lia.
  - assert (0 <= d \/ d < 0) as [D|D] by lia.
    + assert (2 ^ d <= 2 ^ (Zpos (digits2_pos p) - 1)) by (apply Z.pow_le_mono_r; lia). lia.
    + rewrite (Z.pow_neg_r 2 d) in H2 by lia. lia.
Qed.

Lemma inject_Z_minus a b : (inject_Z (a - b) == inject_Z a - inject_Z b)%Q.
Proof. unfold Z.sub. rewrite inject_Z_plus, inject_Z_opp. reflexivity. Qed.

Ltac qinj :=
  repeat match goal with
    | |- context [inject_Z (_ + _)] => rewrite inject_Z_plus
    | |- context [inject_Z (_ - _)] => rewrite inject_Z_minus
    | |- context [inject_Z (_ * _)] => rewrite inject_Z_mult
    | H : context [inject_Z (_ + _)] |- _ => rewrite inject_Z_plus in H
    | H : context [inject_Z (_ - _)] |- _ => rewrite inject_Z_minus in H
    | H : context [inject_Z (_ * _)] |- _ => rewrite inject_Z_mult in H
    end;
  change (inject_Z 1) with 1%Q in *; change (inject_Z 2) with 2%Q in *;
  change (inject_Z 0) with 0%Q in *.

Lemma fx_eq e : fx e = Z.max (e - 53) (-1074).
Proof. reflexivity. Qed.

#[global] Instance rounds_to_proper : Proper (Qeq ==> eq ==> iff) rounds_to.
Proof.
  intros x y E r r' <-. unfold rounds_to.
  split; intros [F [m H]]; exists F, m; [rewrite <- E | rewrite E]; exact H.
Qed.

Lemma Zdigits2_pos_bounds m :
  0 < m -> 0 < Zdigits2 m /\ 2 ^ (Zdigits2 m - 1) <= m < 2 ^ Zdigits2 m.
Proof.
  destruct m as [|p|p]; try lia. intros _. cbn [Zdigits2].
  split; [lia | apply digits2_bounds].
Qed.

Lemma Zdigits2_unique m d :
  2 ^ (d - 1) <= m < 2 ^ d -> 0 < m -> Zdigits2 m = d.
Proof.
  destruct m as [|p|p]; try lia. intros H _. apply digits2_unique. exact H.
Qed.

Lemma Zdigits2_bound_le m d : 0 <= d -> 0 <= m < 2 ^ d -> Zdigits2 m <= d.
Proof.
  intros Hd [H0 H]. destruct m as [|p|p]; try lia. simpl; lia.
  destruct (Zdigits2_pos_bounds (Zpos p)) as [D [B1 B2]]; [lia|].
  destruct (Z.le_gt_cases (Zdigits2 (Zpos p)) d) as [L|L]; [assumption|exfalso].
  assert (2 ^ d <= 2 ^ (Zdigits2 (Zpos p) - 1)) by (apply Z.pow_le_mono_r; lia). lia.
Qed.

Lemma round_aux_rounds_to mx ex lx x :
  0 < mx -> ex <= fx (Zdigits2 mx + ex) -> locates mx ex lx x ->
  (inject_Z mx * pow2 ex <= x /\ x < inject_Z (mx + 1) * pow2 ex)%Q ->
  rounds_to x (binary_round_aux F64.prec F64.emax false mx ex lx).
Proof.
  intros Hmx Hex Hloc [Hlo Hhi].
  destruct (Zdigits2_pos_bounds mx Hmx) as [HD [HB1 HB2]].
  set (D := Zdigits2 mx) in *. set (E := D + ex) in *. set (e' := fx E) in *.
  assert (Hemin : -1074 <= e' /\ E - 53 <= e') by (unfold e'; rewrite fx_eq; lia).
  (* first shift *)
  destruct (shr_fexp_locates mx ex lx x (Z.lt_le_incl _ _ Hmx) Hloc) as [S1 [S2 S3]].
  fold D in S1, S2, S3. fold E in S1, S2, S3. fold e' in S1, S2, S3.
  replace (Z.max ex e') with e' in * by lia.
  set (k := e' - ex) in *.
  assert (Hk : 0 <= k) by lia.
  assert (P2k : 0 < 2 ^ k) by (apply Z.pow_pos_nonneg; lia).
  set (m0 := mx / 2 ^ k) in *.
  assert (Hm0 : 0 <= m0) by (apply Z.div_pos; lia).
  assert (Hm0u : m0 < 2 ^ 53).
  { assert (D - k <= 53) by (unfold k, e', E; rewrite fx_eq; lia).
    destruct (Z.le_gt_cases k D) as [L|L].
    - apply Z.lt_le_trans with (2 ^ (D - k)); [|apply Z.pow_le_mono_r; lia].
      apply Z.div_lt_upper_bound; [assumption|].
      rewrite <- Z.pow_add_r by lia. replace (k + (D - k)) with D by lia. lia.
    - unfold m0. rewrite Z.div_small; [lia|]. split; [lia|].
      apply Z.lt_le_trans with (2 ^ D); [lia|]. apply Z.pow_le_mono_r; lia. }
  assert (Hm0l : e' = E - 53 -> 2 ^ 52 <= m0).
  { intros He. apply Z.div_le_lower_bound; [assumption|].
    rewrite <- Z.pow_add_r by lia.
    replace (k + 52) with (D - 1) by (unfold k; lia). lia. }
  destruct (shr_fexp F64.prec F64.emax mx ex lx) as [mrs1 e1] eqn:Sh1.
  cbn [fst snd] in S1, S2, S3. subst e1.
  (* rounding *)
  set (l1 := loc_of_shr_record mrs1) in *.
  set (m' := round_nearest_even (shr_m mrs1) l1).
  rewrite S2 in S3. 
  assert (Hm' : (m' = m0 \/ m' = m0 + 1) /\
                (inject_Z (m' - 1) * pow2 e' < x /\ x < inject_Z (m' + 1) * pow2 e')%Q /\
                (inject_Z m0 * pow2 e' <= x)%Q).
  { unfold m'. rewrite S2. clearbody l1.
    assert (P := pow2_pos (e' - 1)). assert (E1 := pow2_pred e').
    destruct l1 as [|[| |]]; cbn [round_nearest_even]; unfold locates in S3;
      [|destruct (Z.even m0)| |];
      (split; [lia|]); qinj; rewrite E1 in *; (split; [split|]); lra. }
  destruct Hm' as [Hm'c [[HA HB] HC]].
  assert (Hm'0 : 0 <= m') by lia.
  (* second shift *)
  assert (Hx' : locates m' e' loc_Exact (inject_Z m' * pow2 e')) by reflexivity.
  destruct (shr_fexp_locates m' e' loc_Exact _ Hm'0 Hx') as [T1 [T2 _]].
  assert (magx : (pow2 (E - 1) <= x /\ x < pow2 E)%Q).
  { split.
    - apply Qle_trans with (inject_Z mx * pow2 ex)%Q; [|assumption].
      unfold E. replace (D + ex - 1) with ((D - 1) + ex) by lia.
      rewrite pow2_add, (pow2_Z (D - 1)) by lia.
      apply Qmult_le_compat_r; [|apply Qlt_le_weak, pow2_pos].
      rewrite <- Zle_Qle. lia.
    - apply Qlt_le_trans with (inject_Z (mx + 1) * pow2 ex)%Q; [assumption|].
      unfold E. rewrite pow2_add, (pow2_Z D) by lia.
      apply Qmult_le_compat_r; [|apply Qlt_le_weak, pow2_pos].
      rewrite <- Zle_Qle. lia. }
  exists E, m'. fold e'.
  split; [exact magx|]. split; [split; assumption|]. split; [lia|]. split; [lia|].
  unfold binary_round_aux. rewrite Sh1. fold l1. fold m'.
  destruct (shr_fexp F64.prec F64.emax m' e' loc_Exact) as [mrs2 e2] eqn:Sh2.
  cbn [fst snd] in T1, T2. subst e2. rewrite T2.
  unfold pack.
  destruct (Z.eqb_spec m' (2 ^ 53)) as [Eq|Ne].
  - assert (e' = E - 53).
    { unfold e'. rewrite fx_eq.
      destruct (Z.max_spec (E - 53) (-1074)) as [[A B]|[A B]]; [|lia].
      exfalso.
      (* subnormal grid: m0 has fewer than 53 digits *)
      assert (D - k <= 52) by (unfold k, e'; rewrite fx_eq; lia).
      assert (m0 < 2 ^ 52).
      { destruct (Z.le_gt_cases k D) as [L|L].
        - apply Z.lt_le_trans with (2 ^ (D - k)); [|apply Z.pow_le_mono_r; lia].
          apply Z.div_lt_upper_bound; [assumption|].
          rewrite <- Z.pow_add_r by lia. replace (k + (D - k)) with D by lia. lia.
        - unfold m0. rewrite Z.div_small; [lia|]. split; [lia|].
          apply Z.lt_le_trans with (2 ^ D); [lia|]. apply Z.pow_le_mono_r; lia. }
      lia. }
    rewrite Eq. change (Zdigits2 (2 ^ 53)) with 54.
    replace (Z.max e' (fx (54 + e'))) with (e' + 1) by (rewrite (fx_eq (54 + e')); lia).
    replace (e' + 1 - e') with 1 by lia.
    change (2 ^ 53 / 2 ^ 1) with (2 ^ 52). cbv iota. change (2 ^ 52) with (Zpos (2 ^ 52)).
    cbv iota. reflexivity.
  - assert (Z.max e' (fx (Zdigits2 m' + e')) = e') as ->.
    { assert (Zdigits2 m' <= 53) by (apply Zdigits2_bound_le; lia).
      rewrite (fx_eq (Zdigits2 m' + e')). lia. }
    replace (e' - e') with 0 by lia. rewrite Z.pow_0_r, Z.div_1_r.
    destruct m'; reflexivity.
Qed.

Lemma locates_bracket m e l x :
  locates m e l x ->
  (inject_Z m * pow2 e <= x /\ x < inject_Z (m + 1) * pow2 e)%Q.
Proof.
  assert (P := pow2_pos (e - 1)). assert (E1 := pow2_pred e).
  destruct l as [|[| |]]; unfold locates; intros H; qinj; rewrite E1 in *; split; lra.
Qed.

Lemma mag_unique x F G :
  (pow2 (F - 1) <= x /\ x < pow2 F)%Q -> (pow2 (G - 1) <= x /\ x < pow2 G)%Q -> F = G.
Proof.
  intros [A B] [C D].
  destruct (Z.lt_trichotomy F G) as [L|[L|L]]; [exfalso|assumption|exfalso].
  - assert (pow2 F <= pow2 (G - 1))%Q by (apply pow2_le; lia). lra.
  - assert (pow2 G <= pow2 (F - 1))%Q by (apply pow2_le; lia). lra.
Qed.

Lemma posval_mag m e :
  (pow2 (Zpos (digits2_pos m) + e - 1) <= posval m e /\
   posval m e < pow2 (Zpos (digits2_pos m) + e))%Q.
Proof.
  destruct (digits2_bounds m) as [B1 B2]. unfold posval.
  set (d := Zpos (digits2_pos m)) in *.
  assert (Hd : 0 < d) by (unfold d; lia).
  assert (P := pow2_pos e).
  split.
  - replace (d + e - 1) with ((d - 1) + e) by lia.
    rewrite pow2_add, (pow2_Z (d - 1)) by lia.
    apply Qmult_le_compat_r; [|lra]. rewrite <- Zle_Qle. lia.
  - rewrite pow2_add, (pow2_Z d) by lia.
    apply Qmult_lt_compat_r; [lra|]. rewrite <- Zlt_Qlt. lia.
Qed.

Lemma canonical_inv m e :
  canonical_mantissa F64.prec F64.emax m e = true ->
  fx (Zpos (digits2_pos m) + e) = e /\ Zpos (digits2_pos m) <= 53 /\ -1074 <= e.
Proof.
  unfold canonical_mantissa. intros H. apply Z.eqb_eq in H.
  split; [assumption|]. rewrite fx_eq in H. lia.
Qed.

Lemma bounded_inv m e :
  bounded64 m e = true ->
  canonical_mantissa F64.prec F64.emax m e = true /\ e <= 971.
Proof.
  unfold bounded. intros H. apply andb_true_iff in H. destruct H as [A B].
  split; [assumption|]. apply Z.leb_le in B. exact B.
Qed.

Lemma inject_Z_lt_mult a b P : (0 < P)%Q -> (inject_Z a * P < inject_Z b * P)%Q -> a < b.
Proof.
  intros HP H. rewrite Zlt_Qlt.
  apply Qmult_lt_r with P; assumption.
Qed.

Lemma pack_cases F m :
  0 <= m <= 2 ^ 53 -> (fx F = F - 53 -> 2 ^ 52 <= m) ->
  (m = 0 /\ pack m (fx F) = S754_zero false) \/
  (0 < m /\ exists p ef,
      (posval p ef == inject_Z m * pow2 (fx F))%Q /\
      canonical_mantissa F64.prec F64.emax p ef = true /\
      (fx F <= ef) /\
      pack m (fx F) = if ef <=? 971 then S754_finite false p ef else S754_infinity false).
Proof.
  intros Hm Hn. set (e := fx F) in *.
  assert (He : -1074 <= e /\ F - 53 <= e /\ (e = F - 53 \/ e = -1074))
    by (unfold e; rewrite fx_eq; lia).
  unfold pack. destruct (Z.eqb_spec m (2 ^ 53)) as [Eq|Ne].
  - right. split; [lia|]. exists (2 ^ 52)%positive, (e + 1). split; [|split; [|split]].
    + unfold posval. rewrite Eq, pow2_succ.
      change (inject_Z (2 ^ 53)) with (2 * inject_Z (Zpos (2 ^ 52)))%Q. ring.
    + unfold canonical_mantissa. apply Z.eqb_eq.
      change (Zpos (digits2_pos (2 ^ 52))) with 53. rewrite fx_eq. lia.
    + lia.
    + reflexivity.
  - destruct m as [|p|p]; [left; auto| |lia].
    right. split; [lia|]. exists p, e. split; [reflexivity|]. split; [|split; [lia|reflexivity]].
    unfold canonical_mantissa. apply Z.eqb_eq.
    assert (Zpos (digits2_pos p) <= 53).
    { apply (Zdigits2_bound_le (Zpos p) 53); lia. }
    rewrite fx_eq.
    destruct (Z.eq_dec e (F - 53)) as [A|A].
    + assert (2 ^ 52 <= Zpos p) by auto.
      assert (Zpos (digits2_pos p) = 53) by (apply digits2_unique; lia). lia.
    + lia.
Qed.

Lemma posval_pos m e : (0 < posval m e)%Q.
Proof.
  unfold posval. apply Qmult_lt_0_compat; [reflexivity | apply pow2_pos].
Qed.

Lemma posval_shift m e e' :
  e' <= e -> (posval m e == inject_Z (Zpos m * 2 ^ (e - e')) * pow2 e')%Q.
Proof.
  intros H. unfold posval. rewrite inject_Z_mult, <- (pow2_Z (e - e')) by lia.
  rewrite <- Qmult_assoc, <- pow2_add. replace (e - e' + e') with e by lia. reflexivity.
Qed.

(** Two canonical doubles in order have their exponents in order. *)
Lemma canonical_exp_le m1 e1 m2 e2 :
  canonical_mantissa F64.prec F64.emax m1 e1 = true ->
  canonical_mantissa F64.prec F64.emax m2 e2 = true ->
  (posval m1 e1 <= posval m2 e2)%Q -> e1 <= e2.
Proof.
  intros C1 C2 H.
  destruct (canonical_inv _ _ C1) as [A1 [B1 D1]].
  destruct (canonical_inv _ _ C2) as [A2 [B2 D2]].
  destruct (Z.le_gt_cases e1 e2) as [L|L]; [assumption|exfalso].
  rewrite fx_eq in A1, A2.
  assert (Zpos (digits2_pos m1) = 53) by lia.
  destruct (posval_mag m1 e1) as [M1 _]. destruct (posval_mag m2 e2) as [_ M2].
  assert (pow2 (Zpos (digits2_pos m2) + e2) <= pow2 (Zpos (digits2_pos m1) + e1 - 1))%Q
    by (apply pow2_le; lia).
  lra.
Qed.

Lemma canonical_unique m1 e1 m2 e2 :
  canonical_mantissa F64.prec F64.emax m1 e1 = true ->
  canonical_mantissa F64.prec F64.emax m2 e2 = true ->
  (posval m1 e1 == posval m2 e2)%Q -> m1 = m2 /\ e1 = e2.
Proof.
  intros C1 C2 H.
  assert (e1 <= e2) by (apply (canonical_exp_le m1 e1 m2 e2); auto; rewrite H; apply Qle_refl).
  assert (e2 <= e1) by (apply (canonical_exp_le m2 e2 m1 e1); auto; rewrite H; apply Qle_refl).
  assert (e1 = e2) by lia. subst e2. split; [|reflexivity].
  unfold posval in H. assert (P := pow2_pos e1).
  apply Qmult_inj_r in H; [|lra].
  unfold inject_Z, Qeq in H. simpl in H. lia.
Qed.

Section RoundsTo.
Variables (x : Q) (r : F64.float) (mg : positive) (eg : Z).
Hypothesis R : rounds_to x r.
Hypothesis G : bounded64 mg eg = true.

(** On the grid of [x], the double [g] and the rounded mantissa compare as
    [g] and [x] do. *)
Lemma rounds_to_above :
  (posval mg eg <= x)%Q ->
  r = S754_infinity false \/
  exists m e, r = S754_finite false m e /\ bounded64 m e = true /\
              (posval mg eg <= posval m e)%Q.
Proof.
  intros Hx. destruct R as [F [m' [[Ma Mb] [[A B] [Rg [Nm Pk]]]]]].
  destruct (bounded_inv _ _ G) as [Cg Eg].
  destruct (canonical_inv _ _ Cg) as [Cg1 [Cg2 Cg3]].
  set (e' := fx F) in *. assert (P := pow2_pos e').
  assert (He : -1074 <= e' /\ (e' = F - 53 \/ e' = -1074))
    by (unfold e'; rewrite fx_eq; lia).
  assert (V : (posval mg eg <= inject_Z m' * pow2 e')%Q).
  { destruct (Z.le_gt_cases e' eg) as [L|L].
    - rewrite (posval_shift mg eg e') in * by assumption.
      apply Qmult_le_compat_r; [|lra]. rewrite <- Zle_Qle.
      assert (Zpos mg * 2 ^ (eg - e') < m' + 1); [|lia].
      apply inject_Z_lt_mult with (pow2 e'); [assumption|]. lra.
    - assert (e' = F - 53) by lia. assert (2 ^ 52 <= m') by auto.
      destruct (posval_mag mg eg) as [_ M2].
      assert (pow2 (Zpos (digits2_pos mg) + eg) <= pow2 (52 + e'))%Q
        by (apply pow2_le; lia).
      assert (pow2 (52 + e') <= inject_Z m' * pow2 e')%Q.
      { rewrite pow2_add, (pow2_Z 52) by lia.
        apply Qmult_le_compat_r; [|lra]. rewrite <- Zle_Qle. assumption. }
      lra. }
  assert (G0 := posval_pos mg eg).
  destruct (pack_cases F m' Rg Nm) as [[Z0 _]|[Pm [p [ef [Vp [Cp [_ Pp]]]]]]].
  - exfalso. subst m'. change (inject_Z 0) with 0%Q in V. lra.
  - fold e' in Vp, Pp. rewrite Pk, Pp. destruct (Z.leb_spec ef 971) as [Le|Gt].
    + right. exists p, ef. split; [reflexivity|]. split.
      * unfold bounded. rewrite Cp. apply Z.leb_le in Le. exact Le.
      * rewrite Vp. exact V.
    + left. reflexivity.
Qed.

Lemma rounds_to_below :
  (x <= posval mg eg)%Q ->
  r = S754_zero false \/
  exists m e, r = S754_finite false m e /\ bounded64 m e = true /\
              (posval m e <= posval mg eg)%Q.
Proof.
  intros Hx. destruct R as [F [m' [[Ma Mb] [[A B] [Rg [Nm Pk]]]]]].
  destruct (bounded_inv _ _ G) as [Cg Eg].
  destruct (canonical_inv _ _ Cg) as [Cg1 [Cg2 Cg3]].
  set (e' := fx F) in *. assert (P := pow2_pos e').
  assert (He : -1074 <= e' /\ (e' = F - 53 \/ e' = -1074))
    by (unfold e'; rewrite fx_eq; lia).
  assert (V : (inject_Z m' * pow2 e' <= posval mg eg)%Q).
  { destruct (Z.le_gt_cases e' eg) as [L|L].
    - rewrite (posval_shift mg eg e') in * by assumption.
      apply Qmult_le_compat_r; [|lra]. rewrite <- Zle_Qle.
      assert (m' - 1 < Zpos mg * 2 ^ (eg - e')); [|lia].
      apply inject_Z_lt_mult with (pow2 e'); [assumption|]. lra.
    - exfalso. assert (e' = F - 53) by lia.
      destruct (posval_mag mg eg) as [_ M2].
      assert (pow2 (Zpos (digits2_pos mg) + eg) <= pow2 (F - 1))%Q
        by (apply pow2_le; lia).
      lra. }
  destruct (pack_cases F m' Rg Nm) as [[Z0 Pz]|[Pm [p [ef [Vp [Cp [_ Pp]]]]]]].
  - left. rewrite Pk. exact Pz.
  - fold e' in Vp, Pp. right. exists p, ef.
    assert (Vle : (posval p ef <= posval mg eg)%Q) by (rewrite Vp; exact V).
    assert (ef <= eg) by (apply (canonical_exp_le p ef mg eg); assumption).
    rewrite Pk, Pp. destruct (Z.leb_spec ef 971) as [Le|Gt]; [|lia].
    split; [reflexivity|]. split; [|exact Vle].
    unfold bounded. rewrite Cp. apply Z.leb_le in Le. exact Le.
Qed.

(** A rational that is a double is rounded to itself. *)
Lemma rounds_to_exact :
  (x == posval mg eg)%Q -> r = S754_finite false mg eg.
Proof.
  intros Hx.
  destruct rounds_to_above as [I|[m1 [e1 [R1 [B1 V1]]]]]; [rewrite Hx; apply Qle_refl| |];
  destruct rounds_to_below as [Z|[m2 [e2 [R2 [B2 V2]]]]]; try (rewrite Hx; apply Qle_refl);
  try congruence.
  rewrite R1 in R2. injection R2 as <- <-.
  destruct (bounded_inv _ _ G) as [Cg _]. destruct (bounded_inv _ _ B1) as [C1 _].
  destruct (canonical_unique m1 e1 mg eg C1 Cg) as [-> ->]; [|assumption].
  apply Qle_antisym; assumption.
Qed.
End RoundsTo.

Lemma iter_xO m d : Zpos (Pos.iter xO m d) = Zpos m * 2 ^ Zpos d.
Proof.
  induction d as [|d IH] using Pos.peano_ind.
  - simpl. lia.
  - rewrite Pos.iter_succ, Pos2Z.inj_xO, IH, Pos2Z.inj_succ, Z.pow_succ_r by lia. lia.
Qed.

Lemma shl_align_spec mx ex ex' :
  let mz := fst (shl_align mx ex ex') in
  let ez := snd (shl_align mx ex ex') in
  ez = Z.min ex ex' /\ Zpos mz = Zpos mx * 2 ^ (ex - ez).
Proof.
  unfold shl_align. destruct (ex' - ex) as [|d|d] eqn:E; cbn [fst snd].
  - split; [lia|]. replace (ex - ex) with 0 by lia. lia.
  - split; [lia|]. replace (ex - ex) with 0 by lia. lia.
  - split; [lia|]. rewrite iter_xO. f_equal. f_equal. lia.
Qed.

Lemma digits2_shift m k :
  0 <= k -> Zdigits2 (Zpos m * 2 ^ k) = Zpos (digits2_pos m) + k.
Proof.
  intros Hk. destruct (digits2_bounds m) as [B1 B2].
  assert (0 < 2 ^ k) by (apply Z.pow_pos_nonneg; lia).
  apply Zdigits2_unique; [|lia].
  replace (Zpos (digits2_pos m) + k - 1) with (Zpos (digits2_pos m) - 1 + k) by lia.
  rewrite !Z.pow_add_r by lia. split; nia.
Qed.

Lemma posval_scaled m e k :
  0 <= k -> (inject_Z (Zpos m * 2 ^ k) * pow2 (e - k) == posval m e)%Q.
Proof.
  intros Hk. unfold posval. rewrite inject_Z_mult, <- (pow2_Z k) by lia.
  rewrite <- Qmult_assoc, <- pow2_add. replace (k + (e - k)) with e by lia. reflexivity.
Qed.

Lemma binary_round_rounds_to mx ex :
  rounds_to (posval mx ex) (binary_round F64.prec F64.emax false mx ex).
Proof.
  unfold binary_round.
  set (ex' := fx (Zpos (digits2_pos mx) + ex)).
  destruct (shl_align_spec mx ex ex') as [Ez Mz].
  destruct (shl_align mx ex ex') as [mz ez]. cbn [fst snd] in Ez, Mz.
  assert (Hk : 0 <= ex - ez) by lia.
  assert (V : (inject_Z (Zpos mz) * pow2 ez == posval mx ex)%Q).
  { rewrite Mz. replace ez with (ex - (ex - ez)) at 2 by lia. apply posval_scaled. lia. }
  assert (L : locates (Zpos mz) ez loc_Exact (posval mx ex)).
  { unfold locates. symmetry. exact V. }
  apply round_aux_rounds_to; try assumption; [lia| |].
  - rewrite Mz, digits2_shift by assumption.
    replace (Zpos (digits2_pos mx) + (ex - ez) + ez) with (Zpos (digits2_pos mx) + ex) by lia.
    fold ex'. lia.
  - apply (locates_bracket _ _ _ _ L).
Qed.

Lemma of_Z_rounds_to n : 0 < n -> rounds_to (inject_Z n) (F64.of_Z n).
Proof.
  intros Hn. destruct n as [|p|p]; try lia.
  unfold F64.of_Z, binary_normalize.
  assert (E : (inject_Z (Zpos p) == posval p 0)%Q).
  { unfold posval, pow2. simpl (2 ^ 0)%Q. ring. }
  rewrite E. apply binary_round_rounds_to.
Qed.

Lemma mul_rounds_to mx ex my ey :
  canonical_mantissa F64.prec F64.emax mx ex = true ->
  canonical_mantissa F64.prec F64.emax my ey = true ->
  rounds_to (posval mx ex * posval my ey)
            (F64.mul (S754_finite false mx ex) (S754_finite false my ey)).
Proof.
  intros Cx Cy. unfold F64.mul, SFmul. cbn [xorb].
  destruct (canonical_inv _ _ Cx) as [X1 [X2 X3]].
  destruct (canonical_inv _ _ Cy) as [Y1 [Y2 Y3]].
  assert (V : (posval mx ex * posval my ey ==
               inject_Z (Zpos (mx * my)) * pow2 (ex + ey))%Q).
  { unfold posval. rewrite Pos2Z.inj_mul, inject_Z_mult, pow2_add. ring. }
  assert (L : locates (Zpos (mx * my)) (ex + ey) loc_Exact (posval mx ex * posval my ey)).
  { exact V. }
  apply round_aux_rounds_to; try assumption; [lia| |apply (locates_bracket _ _ _ _ L)].
  destruct (digits2_bounds mx) as [Bx _]. destruct (digits2_bounds my) as [By _].
  set (dx := Zpos (digits2_pos mx)) in *. set (dy := Zpos (digits2_pos my)) in *.
  assert (Hd : dx + dy - 1 <= Zdigits2 (Zpos (mx * my))).
  { destruct (Zdigits2_pos_bounds (Zpos (mx * my))) as [D0 [_ D2]]; [lia|].
    destruct (Z.le_gt_cases (dx + dy - 1) (Zdigits2 (Zpos (mx * my)))) as [A|A]; [assumption|exfalso].
    assert (2 ^ Zdigits2 (Zpos (mx * my)) <= 2 ^ (dx + dy - 2)) by (apply Z.pow_le_mono_r; lia).
    assert (2 ^ (dx + dy - 2) = 2 ^ (dx - 1) * 2 ^ (dy - 1)).
    { rewrite <- Z.pow_add_r by (unfold dx, dy; lia). f_equal. lia. }
    assert (0 < 2 ^ (dx - 1)) by (apply Z.pow_pos_nonneg; unfold dx; lia).
    assert (0 < 2 ^ (dy - 1)) by (apply Z.pow_pos_nonneg; unfold dy; lia).
    assert (2 ^ (dx - 1) * 2 ^ (dy - 1) <= Zpos mx * Zpos my)
      by (apply Z.mul_le_mono_nonneg; lia).
    rewrite Pos2Z.inj_mul in D2, H. lia. }
  rewrite fx_eq in *. lia.
Qed.

Lemma sub_rounds_to mx ex my ey :
  (posval my ey < posval mx ex)%Q ->
  rounds_to (posval mx ex - posval my ey)
            (F64.sub (S754_finite false mx ex) (S754_finite false my ey)).
Proof.
  intros H. unfold F64.sub, SFsub. cbn [cond_Zopp].
  set (ez := Z.min ex ey).
  destruct (shl_align_spec mx ex ez) as [Ex Mx].
  destruct (shl_align_spec my ey ez) as [Ey My].
  set (ax := fst (shl_align mx ex ez)) in *. set (ay := fst (shl_align my ey ez)) in *.
  replace (snd (shl_align mx ex ez)) with ez in * by lia.
  replace (snd (shl_align my ey ez)) with ez in * by lia.
  assert (Vx : (inject_Z (Zpos ax) * pow2 ez == posval mx ex)%Q).
  { rewrite Mx. replace ez with (ex - (ex - ez)) at 2 by lia. apply posval_scaled. lia. }
  assert (Vy : (inject_Z (Zpos ay) * pow2 ez == posval my ey)%Q).
  { rewrite My. replace ez with (ey - (ey - ez)) at 2 by lia. apply posval_scaled. lia. }
  assert (P := pow2_pos ez).
  assert (Zpos ay < Zpos ax).
  { apply inject_Z_lt_mult with (pow2 ez); [assumption|]. rewrite Vx, Vy. exact H. }
  destruct (Zpos ax - Zpos ay) as [|d|d] eqn:D; try lia.
  unfold binary_normalize.
  assert (E : (posval mx ex - posval my ey == posval d ez)%Q).
  { rewrite <- Vx, <- Vy. unfold posval. rewrite <- D. rewrite inject_Z_minus. ring. }
  rewrite E. apply binary_round_rounds_to.
Qed.

Lemma add_rounds_to mx ex my ey :
  rounds_to (posval mx ex + posval my ey)
            (F64.add (S754_finite false mx ex) (S754_finite false my ey)).
Proof.
  unfold F64.add, SFadd. cbn [cond_Zopp].
  set (ez := Z.min ex ey).
  destruct (shl_align_spec mx ex ez) as [Ex Mx].
  destruct (shl_align_spec my ey ez) as [Ey My].
  set (ax := fst (shl_align mx ex ez)) in *. set (ay := fst (shl_align my ey ez)) in *.
  replace (snd (shl_align mx ex ez)) with ez in * by lia.
  replace (snd (shl_align my ey ez)) with ez in * by lia.
  assert (Vx : (inject_Z (Zpos ax) * pow2 ez == posval mx ex)%Q).
  { rewrite Mx. replace ez with (ex - (ex - ez)) at 2 by lia. apply posval_scaled. lia. }
  assert (Vy : (inject_Z (Zpos ay) * pow2 ez == posval my ey)%Q).
  { rewrite My. replace ez with (ey - (ey - ez)) at 2 by lia. apply posval_scaled. lia. }
  change (Zpos ax + Zpos ay) with (Zpos (ax + ay)).
  unfold binary_normalize.
  assert (E : (posval mx ex + posval my ey == posval (ax + ay) ez)%Q).
  { rewrite <- Vx, <- Vy. unfold posval. rewrite Pos2Z.inj_add, inject_Z_plus. ring. }
  rewrite E. apply binary_round_rounds_to.
Qed.

Lemma new_location_locates q m2 r e :
  0 < m2 -> 0 <= r < m2 ->
  locates q e (new_location m2 r)
          ((inject_Z q + inject_Z r / inject_Z m2) * pow2 e).
Proof.
  intros Hm [Hr0 Hr].
  assert (P := pow2_pos (e - 1)). assert (E1 := pow2_pred e).
  assert (M : (0 < inject_Z m2)%Q) by (rewrite (Zlt_Qlt 0 m2) in Hm; exact Hm).
  assert (R0 : (0 <= inject_Z r)%Q) by (rewrite (Zle_Qle 0 r) in Hr0; exact Hr0).
  assert (R1 : (inject_Z r < inject_Z m2)%Q) by (rewrite <- Zlt_Qlt; exact Hr).
  set (rho := (inject_Z r / inject_Z m2)%Q).
  assert (Rho : (rho * inject_Z m2 == inject_Z r)%Q) by (unfold rho; field; lra).
  assert (Rho0 : (0 <= rho)%Q).
  { unfold rho. apply Qle_shift_div_l; [assumption|]. lra. }
  assert (Rho1 : (rho < 1)%Q).
  { unfold rho. apply Qlt_shift_div_r; [assumption|]. lra. }
  assert (Half : forall c, (2 * r ?= m2) = c ->
            match c with
            | Lt => (2 * rho < 1)%Q
            | Eq => (2 * rho == 1)%Q
            | Gt => (1 < 2 * rho)%Q
            end).
  { intros c Hc. destruct c.
    - apply Z.compare_eq in Hc.
      assert (2 * inject_Z r == inject_Z m2)%Q
        by (rewrite <- Hc, inject_Z_mult; reflexivity).
      unfold rho. field_simplify_eq; lra.
    - apply -> Z.compare_lt_iff in Hc. rewrite Zlt_Qlt, inject_Z_mult in Hc.
      change (inject_Z 2) with 2%Q in Hc.
      apply Qmult_lt_r with (inject_Z m2); [assumption|].
      rewrite <- Qmult_assoc, Rho. lra.
    - apply -> Z.compare_gt_iff in Hc. rewrite Zlt_Qlt, inject_Z_mult in Hc.
      change (inject_Z 2) with 2%Q in Hc.
      apply Qmult_lt_r with (inject_Z m2); [assumption|].
      rewrite <- Qmult_assoc, Rho. lra. }
  assert (Zero : r = 0 -> (rho == 0)%Q) by (intros ->; reflexivity).
  assert (Rpos : r <> 0 -> (0 < rho)%Q).
  { intros NZ. apply Qmult_lt_r with (inject_Z m2); [assumption|]. rewrite Rho.
    assert (H : 0 < r) by lia. rewrite (Zlt_Qlt 0 r) in H.
    change (inject_Z 0) with 0%Q in H. lra. }
  unfold new_location. destruct (Z.even m2) eqn:Ev.
  - unfold new_location_even. destruct (Z.eqb_spec r 0) as [Z0|NZ].
    + unfold locates. rewrite (Zero Z0). ring.
    + specialize (Half _ eq_refl). specialize (Rpos NZ).
      destruct (2 * r ?= m2); unfold locates; qinj; rewrite E1; try split; nra.
  - unfold new_location_odd. destruct (Z.eqb_spec r 0) as [Z0|NZ].
    + unfold locates. rewrite (Zero Z0). ring.
    + specialize (Rpos NZ).
      assert (Odd : 2 * r <> m2).
      { intros <-. rewrite Z.even_mul in Ev. discriminate. }
      destruct (2 * r + 1 ?= m2) eqn:C.
      * apply Z.compare_eq in C.
        assert (Hc : (2 * r ?= m2) = Lt) by (apply Z.compare_lt_iff; lia).
        specialize (Half _ Hc). cbv beta iota in Half. unfold locates; qinj; rewrite E1; split; nra.
      * apply -> Z.compare_lt_iff in C.
        assert (Hc : (2 * r ?= m2) = Lt) by (apply Z.compare_lt_iff; lia).
        specialize (Half _ Hc). cbv beta iota in Half. unfold locates; qinj; rewrite E1; split; nra.
      * apply -> Z.compare_gt_iff in C.
        assert (Hc : (2 * r ?= m2) = Gt) by (apply Z.compare_gt_iff; lia).
        specialize (Half _ Hc). cbv beta iota in Half. unfold locates; qinj; rewrite E1; split; nra.
Qed.

Lemma div_rounds_to mx ex my ey :
  canonical_mantissa F64.prec F64.emax mx ex = true ->
  -1021 <= Zpos (digits2_pos mx) + ex - (Zpos (digits2_pos my) + ey) ->
  rounds_to (posval mx ex / posval my ey)
            (F64.div (S754_finite false mx ex) (S754_finite false my ey)).
Proof.
  intros Cx NU. unfold F64.div, SFdiv, SFdiv_core_binary. cbn [xorb Zdigits2].
  destruct (canonical_inv _ _ Cx) as [_ [X2 _]].
  destruct (digits2_bounds mx) as [Bx1 Bx2]. destruct (digits2_bounds my) as [By1 By2].
  set (dx := Zpos (digits2_pos mx)) in *. set (dy := Zpos (digits2_pos my)) in *.
  assert (Hdx : 0 < dx) by (unfold dx; lia). assert (Hdy : 0 < dy) by (unfold dy; lia).
  set (e' := Z.min (fx (dx + ex - (dy + ey))) (ex - ey)).
  set (s := ex - ey - e').
  assert (Hs : 0 <= s /\ 53 - dx + dy <= s) by (unfold s, e'; rewrite fx_eq; lia).
  set (m' := match s with Zpos _ => Z.shiftl (Zpos mx) s | Z0 => Zpos mx | Zneg _ => 0 end).
  assert (Hm' : m' = Zpos mx * 2 ^ s).
  { unfold m'. destruct s as [|p|p] eqn:Es; [rewrite Z.pow_0_r; lia| |lia].
    apply Z.shiftl_mul_pow2. lia. }
  clearbody m'.
  assert (Hdm := Z_div_mod m' (Zpos my) ltac:(lia)).
  destruct (Z.div_eucl m' (Zpos my)) as [q r]. destruct Hdm as [Hq Hr].
  assert (P2s : 0 < 2 ^ s) by (apply Z.pow_pos_nonneg; lia).
  assert (Big : 2 ^ 52 * Zpos my < m').
  { rewrite Hm'.
    assert (2 ^ (52 + dy) <= Zpos mx * 2 ^ s).
    { apply Z.le_trans with (2 ^ (dx - 1) * 2 ^ (53 - dx + dy)).
      - rewrite <- Z.pow_add_r by lia. apply Z.pow_le_mono_r; lia.
      - assert (A1 : 2 ^ (53 - dx + dy) <= 2 ^ s) by (apply Z.pow_le_mono_r; lia).
        assert (A2 : 0 <= 2 ^ (dx - 1)) by (apply Z.pow_nonneg; lia).
        assert (A3 : 0 <= 2 ^ (53 - dx + dy)) by (apply Z.pow_nonneg; lia).
        apply Z.mul_le_mono_nonneg; assumption. }
    rewrite Z.pow_add_r in H by lia. nia. }
  assert (Hq52 : 2 ^ 52 <= q) by nia.
  assert (V : (posval mx ex / posval my ey ==
               (inject_Z q + inject_Z r / inject_Z (Zpos my)) * pow2 e')%Q).
  { assert (Pe := pow2_pos e'). assert (Py := pow2_pos ey).
    assert (My : (0 < inject_Z (Zpos my))%Q) by reflexivity.
    assert (Em : (inject_Z m' == inject_Z (Zpos my) * inject_Z q + inject_Z r)%Q)
      by (rewrite Hq, inject_Z_plus, inject_Z_mult; reflexivity).
    assert (Ex : (posval mx ex == inject_Z m' * pow2 e' * pow2 ey)%Q).
    { rewrite Hm'. unfold posval. rewrite inject_Z_mult, <- (pow2_Z s) by lia.
      rewrite <- !Qmult_assoc, <- !pow2_add.
      replace (s + (e' + ey)) with ex by (unfold s; lia). reflexivity. }
    rewrite Ex, Em. unfold posval. field. lra. }
  rewrite V.
  assert (L := new_location_locates q (Zpos my) r e' ltac:(lia) Hr).
  apply round_aux_rounds_to; [lia| |exact L|apply (locates_bracket _ _ _ _ L)].
  assert (53 <= Zdigits2 q).
  { destruct (Zdigits2_pos_bounds q) as [D0 [_ D2]]; [lia|].
    destruct (Z.le_gt_cases 53 (Zdigits2 q)) as [A|A]; [assumption|exfalso].
    assert (2 ^ Zdigits2 q <= 2 ^ 52) by (apply Z.pow_le_mono_r; lia). lia. }
  rewrite fx_eq. lia.
Qed.

(** Order of two canonical positive doubles, as [<=] and [<] compute it. *)
Lemma leb_of_le m1 e1 m2 e2 :
  bounded64 m1 e1 = true -> bounded64 m2 e2 = true ->
  (posval m1 e1 <= posval m2 e2)%Q ->
  F64.leb (S754_finite false m1 e1) (S754_finite false m2 e2) = true.
Proof.
  intros B1 B2 H.
  destruct (bounded_inv _ _ B1) as [C1 _]. destruct (bounded_inv _ _ B2) as [C2 _].
  assert (L := canonical_exp_le _ _ _ _ C1 C2 H).
  unfold F64.leb, SFleb, SFcompare.
  destruct (Z.compare_spec e1 e2) as [E|E|E]; [|reflexivity|lia].
  subst e2. rewrite Pos.compare_cont_spec. cbn [Pos.switch_Eq].
  assert (P := pow2_pos e1). unfold posval in H.
  assert (Zpos m1 <= Zpos m2).
  { rewrite Zle_Qle. apply Qmult_le_r with (pow2 e1); assumption. }
  destruct (Pos.compare_spec m1 m2); try reflexivity. lia.
Qed.

(** [int(x)] of a positive double is the floor of its value. *)
Lemma to_int_floor m e k :
  (inject_Z k <= posval m e)%Q -> (posval m e < inject_Z (k + 1))%Q ->
  F64.to_int (S754_finite false m e) = Some k.
Proof.
  intros H1 H2. unfold F64.to_int. cbn [cond_Zopp]. f_equal.
  destruct (Z.leb_spec 0 e) as [He|He].
  - assert (E : (posval m e == inject_Z (Zpos m * 2 ^ e))%Q).
    { unfold posval. rewrite inject_Z_mult, pow2_Z by assumption. reflexivity. }
    rewrite E in H1, H2. rewrite <- Zle_Qle in H1. rewrite <- Zlt_Qlt in H2. lia.
  - assert (Pp : 0 < 2 ^ (- e)) by (apply Z.pow_pos_nonneg; lia).
    assert (E : (posval m e * inject_Z (2 ^ (- e)) == inject_Z (Zpos m))%Q).
    { unfold posval. rewrite <- pow2_Z by lia. rewrite <- Qmult_assoc, <- pow2_add.
      replace (e + - e) with 0 by lia. unfold pow2. simpl (2 ^ 0)%Q. ring. }
    assert (Q2 : (0 < inject_Z (2 ^ (- e)))%Q) by (rewrite (Zlt_Qlt 0) in Pp; exact Pp).
    assert (A : k * 2 ^ (- e) <= Zpos m).
    { rewrite Zle_Qle, inject_Z_mult, <- E. apply Qmult_le_compat_r; [assumption|lra]. }
    assert (B : Zpos m < (k + 1) * 2 ^ (- e)).
    { rewrite Zlt_Qlt, inject_Z_mult, <- E. apply Qmult_lt_compat_r; assumption. }
    symmetry. apply Z.div_unique with (Zpos m - k * 2 ^ (- e)); lia.
Qed.

Lemma dyadic_spec n k :
  0 < n < 2 ^ 53 -> -1074 <= Zdigits2 n - 53 + k <= 971 ->
  exists m e, dyadic n k = S754_finite false m e /\ bounded64 m e = true /\
              (posval m e == inject_Z n * pow2 k)%Q.
Proof.
  intros [H0 H1] Hk. destruct n as [|p|p]; try lia.
  destruct (Zdigits2_pos_bounds (Zpos p)) as [D0 [B1 B2]]; [lia|].
  assert (Hd : Zdigits2 (Zpos p) <= 53) by (apply Zdigits2_bound_le; lia).
  set (d := Zdigits2 (Zpos p)) in *.
  assert (Ps : 0 < 2 ^ (53 - d)) by (apply Z.pow_pos_nonneg; lia).
  set (m := Z.to_pos (Zpos p * 2 ^ (53 - d))).
  assert (Em : Zpos m = Zpos p * 2 ^ (53 - d)) by (unfold m; rewrite Z2Pos.id; lia).
  exists m, (d - 53 + k). split; [reflexivity|]. split.
  - unfold bounded, canonical_mantissa. apply andb_true_iff. split.
    + apply Z.eqb_eq.
      assert (Zpos (digits2_pos m) = 53).
      { change (Zpos (digits2_pos m)) with (Zdigits2 (Zpos m)). rewrite Em.
        rewrite digits2_shift by lia. cbn [Zdigits2] in d. fold d. lia. }
      rewrite H, fx_eq. lia.
    + apply Z.leb_le. change (F64.emax - F64.prec) with 971. lia.
  - unfold posval. rewrite Em, inject_Z_mult, <- (pow2_Z (53 - d)) by lia.
    rewrite <- Qmult_assoc, <- pow2_add.
    replace (53 - d + (d - 53 + k)) with k by lia. reflexivity.
Qed.

Lemma of_Z_exact n : 0 < n < 2 ^ 53 -> F64.of_Z n = dyadic n 0.
Proof.
  intros Hn.
  destruct (Zdigits2_pos_bounds n) as [D0 _]; [lia|].
  assert (Hd : Zdigits2 n <= 53) by (apply Zdigits2_bound_le; lia).
  destruct (dyadic_spec n 0 Hn) as [m [e [E [B V]]]]; [lia|].
  rewrite E. apply rounds_to_exact with (x := inject_Z n); [|assumption|].
  - apply of_Z_rounds_to. lia.
  - rewrite V. unfold pow2. simpl (2 ^ 0)%Q. ring.
Qed.

(** ** Ranges of the doubles the metrics go through *)

Lemma between_intro x r m1 e1 m2 e2 :
  rounds_to x r -> bounded64 m1 e1 = true -> bounded64 m2 e2 = true ->
  (posval m1 e1 <= x)%Q -> (x <= posval m2 e2)%Q ->
  between r (posval m1 e1) (posval m2 e2).
Proof.
  intros R B1 B2 H1 H2.
  destruct (rounds_to_above x r m1 e1 R B1 H1) as [I|[m [e [E [B V]]]]];
  destruct (rounds_to_below x r m2 e2 R B2 H2) as [Z|[m' [e' [E' [B' V']]]]];
  try congruence.
  rewrite E in E'. injection E' as <- <-.
  exists m, e. auto.
Qed.

Lemma between_weaken f lo hi lo' hi' :
  between f lo hi -> (lo' <= lo)%Q -> (hi <= hi')%Q -> between f lo' hi'.
Proof.
  intros [m [e [E [B [V1 V2]]]]] H1 H2. exists m, e. repeat split; auto; lra.
Qed.

Lemma dyadic_between n k :
  0 < n < 2 ^ 53 -> -1074 <= Zdigits2 n - 53 + k <= 971 ->
  exists m e, dyadic n k = S754_finite false m e /\ bounded64 m e = true /\
              (posval m e == inject_Z n * pow2 k)%Q /\
              Zpos (digits2_pos m) + e = Zdigits2 n + k.
Proof.
  intros Hn Hk. destruct (dyadic_spec n k Hn Hk) as [m [e [E [B V]]]].
  exists m, e. repeat split; auto.
  destruct (bounded_inv _ _ B) as [C _]. destruct (posval_mag m e) as [M1 M2].
  destruct (Zdigits2_pos_bounds n) as [D0 [B1 B2]]; [lia|].
  assert (Pk := pow2_pos k).
  apply (mag_unique (posval m e)); [split; assumption|].
  rewrite V. split.
  - replace (Zdigits2 n + k - 1) with (Zdigits2 n - 1 + k) by lia.
    rewrite pow2_add, (pow2_Z (Zdigits2 n - 1)) by lia. apply Qmult_le_compat_r; [|lra].
    rewrite <- Zle_Qle. lia.
  - rewrite pow2_add, (pow2_Z (Zdigits2 n)) by lia. apply Qmult_lt_compat_r; [lra|].
    rewrite <- Zlt_Qlt. lia.
Qed.

Lemma of_Z_between n :
  0 < n < 2 ^ 53 ->
  exists m e, F64.of_Z n = S754_finite false m e /\ bounded64 m e = true /\
              (posval m e == inject_Z n)%Q /\
              1 <= Zpos (digits2_pos m) + e <= 53.
Proof.
  intros Hn. destruct (Zdigits2_pos_bounds n) as [D0 _]; [lia|].
  assert (Hd : Zdigits2 n <= 53) by (apply Zdigits2_bound_le; lia).
  destruct (dyadic_between n 0 Hn) as [m [e [E [B [V M]]]]]; [lia|].
  exists m, e. rewrite of_Z_exact by assumption. repeat split; auto; try lia.
  rewrite V. unfold pow2. simpl (2 ^ 0)%Q. ring.
Qed.

Lemma hundred_eq : F64.hundred = S754_finite false 7036874417766400 (-46).
Proof. reflexivity. Qed.

Lemma val_hundred : (posval 7036874417766400 (-46) == 100)%Q.
Proof. reflexivity. Qed.

(** [100 - d / n * 100] for [0 <= d < n]. *)
Lemma consistency_range d n :
  0 <= d < n -> n < 2 ^ 48 ->
  let c := F64.sub F64.hundred
             (F64.mul (F64.div (F64.of_Z d) (F64.of_Z n)) F64.hundred) in
  (d = 0 /\ c = F64.hundred) \/
  (0 < d /\ between c (posval 4503599627370496 (-98)) (posval 7036874417766384 (-46))).
Proof.
  intros [Hd Hdn] Hn c.
  destruct (of_Z_between n) as [mn [en [En [Bn [Vn Mn]]]]]; [lia|].
  destruct (Z.eq_dec d 0) as [->|Hd0].
  - left. split; [reflexivity|]. unfold c. rewrite En. reflexivity.
  - right. split; [lia|].
    destruct (of_Z_between d) as [md [ed [Ed [Bd [Vd Md]]]]]; [lia|].
    unfold c. rewrite Ed, En, hundred_eq.
    destruct (bounded_inv _ _ Bd) as [Cd _]. destruct (bounded_inv _ _ Bn) as [Cn _].
    (* the quotient *)
    assert (Rq := div_rounds_to md ed mn en Cd ltac:(lia)).
    assert (Nq : (0 < inject_Z n)%Q)
      by (change 0%Q with (inject_Z 0); rewrite <- Zlt_Qlt; lia).
    assert (Dq : (1 <= inject_Z d)%Q) by (change 1%Q with (inject_Z 1); rewrite <- Zle_Qle; lia).
    assert (Dn : (inject_Z d + 1 <= inject_Z n)%Q)
      by (change 1%Q with (inject_Z 1); rewrite <- inject_Z_plus, <- Zle_Qle; lia).
    assert (Nn : (inject_Z n <= inject_Z (2 ^ 48))%Q) by (rewrite <- Zle_Qle; lia).
    assert (Bq : between (F64.div (S754_finite false md ed) (S754_finite false mn en))
                         (posval 4503599627370496 (-100))
                         (posval 9007199254740960 (-53))).
    { apply between_intro with (x := (posval md ed / posval mn en)%Q);
        [assumption|reflexivity|reflexivity| |]; rewrite Vd, Vn.
      - apply Qle_shift_div_l; [assumption|].
        setoid_replace (posval 4503599627370496 (-100)) with (1 # 281474976710656)%Q by reflexivity.
        change (inject_Z (2 ^ 48)) with (281474976710656 # 1)%Q in Nn. nra.
      - apply Qle_shift_div_r; [assumption|].
        setoid_replace (posval 9007199254740960 (-53)) with (9007199254740960 # 9007199254740992)%Q by reflexivity.
        change (inject_Z (2 ^ 48)) with (281474976710656 # 1)%Q in Nn. nra. }
    destruct Bq as [mq [eq [Eq [Bq [Vq1 Vq2]]]]]. rewrite Eq.
    destruct (bounded_inv _ _ Bq) as [Cq _].
    (* times 100 *)
    assert (Rm := mul_rounds_to mq eq 7036874417766400 (-46) Cq eq_refl).
    assert (Bm : between (F64.mul (S754_finite false mq eq)
                                  (S754_finite false 7036874417766400 (-46)))
                         (posval 4503599627370496 (-94))
                         (posval 7036874417766399 (-46))).
    { apply between_intro with (x := (posval mq eq * posval 7036874417766400 (-46))%Q);
        [assumption|reflexivity|reflexivity| |]; rewrite val_hundred.
      - setoid_replace (posval 4503599627370496 (-100)) with (1 # 281474976710656)%Q in Vq1 by reflexivity.
        setoid_replace (posval 4503599627370496 (-94)) with (1 # 4398046511104)%Q by reflexivity. lra.
      - setoid_replace (posval 9007199254740960 (-53)) with (9007199254740960 # 9007199254740992)%Q in Vq2 by reflexivity.
        setoid_replace (posval 7036874417766399 (-46)) with (7036874417766399 # 70368744177664)%Q by reflexivity. lra. }
    destruct Bm as [mm [em [Em [Bm [Vm1 Vm2]]]]]. rewrite Em.
    (* 100 minus *)
    setoid_replace (posval 4503599627370496 (-94)) with (1 # 4398046511104)%Q in Vm1 by reflexivity.
    setoid_replace (posval 7036874417766399 (-46)) with (7036874417766399 # 70368744177664)%Q in Vm2 by reflexivity.
    assert (Lt : (posval mm em < posval 7036874417766400 (-46))%Q)
      by (rewrite val_hundred; lra).
    assert (Rs := sub_rounds_to 7036874417766400 (-46) mm em Lt).
    apply between_intro with (x := (posval 7036874417766400 (-46) - posval mm em)%Q);
      [assumption|reflexivity|reflexivity| |]; rewrite val_hundred.
    + setoid_replace (posval 4503599627370496 (-98)) with (1 # 70368744177664)%Q by reflexivity. lra.
    + setoid_replace (posval 7036874417766384 (-46))
        with (7036874417766384 # 70368744177664)%Q by reflexivity. lra.
Qed.

Lemma lit_0_9_eq : F64.lit_0_9 = S754_finite false 8106479329266893 (-53).
Proof. reflexivity. Qed.

(** [int(0.9 * n)] is the floor of [9 n / 10]. *)
Lemma fallback_floor n :
  0 < n < 2 ^ 48 ->
  F64.to_int (F64.mul F64.lit_0_9 (F64.of_Z n)) = Some (9 * n / 10).
Proof.
  intros Hn.
  destruct (of_Z_between n) as [mn [en [En [Bn [Vn Mn]]]]]; [lia|].
  destruct (bounded_inv _ _ Bn) as [Cn _].
  rewrite lit_0_9_eq, En.
  assert (R := mul_rounds_to 8106479329266893 (-53) mn en eq_refl Cn).
  set (k := 9 * n / 10).
  assert (Hk : 10 * k <= 9 * n <= 10 * k + 9).
  { unfold k. assert (H := Z.div_mod (9 * n) 10 ltac:(lia)).
    assert (H' := Z.mod_pos_bound (9 * n) 10 ltac:(lia)). lia. }
  assert (Qk1 : (10 * inject_Z k <= 9 * inject_Z n)%Q).
  { change 10%Q with (inject_Z 10). change 9%Q with (inject_Z 9).
    rewrite <- !inject_Z_mult, <- Zle_Qle. lia. }
  assert (Qk2 : (9 * inject_Z n <= 10 * inject_Z k + 9)%Q).
  { change 10%Q with (inject_Z 10). change 9%Q with (inject_Z 9).
    rewrite <- !inject_Z_mult, <- inject_Z_plus, <- Zle_Qle. lia. }
  assert (Qn0 : (1 <= inject_Z n)%Q)
    by (change 1%Q with (inject_Z 1); rewrite <- Zle_Qle; lia).
  assert (Qn : (inject_Z n <= 281474976710656)%Q)
    by (change 281474976710656%Q with (inject_Z (2 ^ 48)); rewrite <- Zle_Qle; lia).
  assert (V9 : (posval 8106479329266893 (-53) == 8106479329266893 # 9007199254740992)%Q)
    by reflexivity.
  set (x := (posval 8106479329266893 (-53) * posval mn en)%Q) in *.
  assert (X1 : (inject_Z k <= x)%Q) by (unfold x; rewrite V9, Vn; lra).
  assert (X2 : (x <= inject_Z k + (15 # 16))%Q) by (unfold x; rewrite V9, Vn; lra).
  assert (Hk0 : 0 <= k) by lia.
  assert (Hk48 : 16 * k + 15 < 2 ^ 53) by lia.
  (* upper bound: the double k + 15/16 *)
  destruct (Zdigits2_pos_bounds (16 * k + 15)) as [D0 _]; [lia|].
  assert (D53 : Zdigits2 (16 * k + 15) <= 53) by (apply Zdigits2_bound_le; lia).
  destruct (dyadic_between (16 * k + 15) (-4)) as [mu [eu [_ [Bu [Vu _]]]]]; [lia|lia|].
  assert (Vu' : (posval mu eu == inject_Z k + (15 # 16))%Q).
  { rewrite Vu, inject_Z_plus, inject_Z_mult.
    setoid_replace (pow2 (-4)) with (1 # 16)%Q by reflexivity.
    change (inject_Z 16) with 16%Q. change (inject_Z 15) with 15%Q. field. }
  assert (U := rounds_to_below x _ mu eu R Bu ltac:(rewrite Vu'; exact X2)).
  destruct (Z.eq_dec k 0) as [K0|K0].
  - (* below 1 *)
    destruct U as [Z|[m [e [E [B V]]]]].
    + rewrite Z, K0. reflexivity.
    + rewrite E. apply to_int_floor.
      * rewrite K0. apply Qlt_le_weak, posval_pos.
      * rewrite Vu' in V. rewrite inject_Z_plus. change (inject_Z 1) with 1%Q. lra.
  - assert (Hk53 : 0 < k < 2 ^ 53) by lia.
    destruct (of_Z_between k Hk53) as [ml [el [_ [Bl [Vl _]]]]].
    assert (A := rounds_to_above x _ ml el R Bl ltac:(rewrite Vl; exact X1)).
    destruct A as [I|[m [e [E [B V]]]]];
      destruct U as [Z|[m' [e' [E' [B' V']]]]]; try congruence.
    rewrite E in E'. injection E' as <- <-.
    rewrite E. apply to_int_floor.
    + rewrite <- Vl. exact V.
    + rewrite Vu' in V'. rewrite inject_Z_plus. change (inject_Z 1) with 1%Q. lra.
Qed.

Lemma of_Z_one : F64.of_Z 1 = one.
Proof. reflexivity. Qed.

Lemma div_self m e :
  bounded64 m e = true ->
  F64.div (S754_finite false m e) (S754_finite false m e) = one.
Proof.
  intros B. destruct (bounded_inv _ _ B) as [C _].
  apply rounds_to_exact with (x := (posval m e / posval m e)%Q).
  - apply div_rounds_to; [assumption | lia].
  - reflexivity.
  - assert (P := posval_pos m e).
    setoid_replace (posval 4503599627370496 (-52)) with 1%Q by reflexivity.
    field. lra.
Qed.

Lemma count_true_all l : forallb (fun b => b) l = true -> count_true l = List.length l.
Proof.
  unfold count_true. induction l as [|[|] l IH]; simpl; intros H; try discriminate; auto.
Qed.

Lemma bool_mean_all_true l :
  forallb (fun b => b) l = true -> 0 < Z.of_nat (List.length l) < 2 ^ 53 ->
  bool_mean l = one.
Proof.
  intros A L. unfold bool_mean. rewrite (count_true_all l A).
  destruct (of_Z_between _ L) as [m [e [E [B _]]]]. rewrite E.
  apply div_self. exact B.
Qed.

(** ** numpy's pairwise summation adds every element once *)

Lemma sums_length (l : list F64.float) (r : F64.float) :
  sums_to l r -> (0 < List.length l)%nat.
Proof.
  induction 1 as [x|l1 l2 r1 r2 _ IH1 _ IH2|l l' r P _ IH].
  - cbn. lia.
  - rewrite length_app. lia.
  - rewrite <- (Permutation_length P). exact IH.
Qed.

Lemma fold_sums (r : list F64.float) : forall l0 acc,
  sums_to l0 acc -> sums_to (l0 ++ r) (fold_left F64.add r acc).
Proof.
  induction r as [|b r IH]; intros l0 acc H; cbn [fold_left].
  - rewrite app_nil_r. exact H.
  - replace (l0 ++ b :: r) with ((l0 ++ [b]) ++ r) by (rewrite <- app_assoc; reflexivity).
    apply IH. apply sums_add; [exact H | apply sums_one].
Qed.

Lemma zip_add_length (r : list F64.float) : forall c,
  List.length (F64.zip_add r c) = List.length r.
Proof.
  induction r as [|x r IH]; intros [|y c]; cbn [F64.zip_add List.length]; auto.
Qed.

Lemma zip_add_sums (Ls : list (list F64.float)) (r : list F64.float) :
  Forall2 sums_to Ls r ->
  forall c, exists Ls',
    Forall2 sums_to Ls' (F64.zip_add r c) /\
    Permutation (List.concat Ls ++ c) (List.concat Ls' ++ skipn (List.length r) c).
Proof.
  induction 1 as [|L x Ls r Hx H IH]; intros c.
  - exists []. split; [constructor|]. reflexivity.
  - destruct c as [|y c].
    + exists (L :: Ls). split; [constructor; assumption|]. reflexivity.
    + destruct (IH c) as [Ls' [F P]].
      exists ((L ++ [y]) :: Ls'). cbn [F64.zip_add List.length skipn List.concat]. split.
      * constructor; [|exact F]. apply sums_add; [exact Hx | apply sums_one].
      * rewrite <- !app_assoc. apply Permutation_app_head.
        cbn [app]. apply Permutation_sym, Permutation_cons_app.
        apply Permutation_sym. exact P.
Qed.

Lemma lanes_sums (k : nat) : forall Ls r l,
  Forall2 sums_to Ls r -> List.length r = 8%nat ->
  exists Ls',
    Forall2 sums_to Ls' (fst (F64.lanes k r l)) /\
    List.length (fst (F64.lanes k r l)) = 8%nat /\
    Permutation (List.concat Ls ++ l) (List.concat Ls' ++ snd (F64.lanes k r l)).
Proof.
  induction k as [|k IH]; intros Ls r l F R; cbn [F64.lanes].
  - exists Ls. repeat split; auto.
  - destruct (zip_add_sums Ls r F (firstn 8 l)) as [Ls1 [F1 P1]].
    destruct (IH Ls1 (F64.zip_add r (firstn 8 l)) (skipn 8 l) F1) as [Ls2 [F2 [R2 P2]]].
    { rewrite zip_add_length. exact R. }
    exists Ls2. split; [exact F2|]. split; [exact R2|].
    rewrite R in P1. rewrite skipn_all2 in P1 by apply firstn_le_length.
    rewrite app_nil_r in P1.
    rewrite <- (firstn_skipn 8 l) at 1. rewrite app_assoc.
    eapply Permutation_trans; [apply Permutation_app_tail; exact P1 | exact P2].
Qed.

Lemma combine8_sums (Ls : list (list F64.float)) (r : list F64.float) :
  Forall2 sums_to Ls r -> List.length r = 8%nat -> sums_to (List.concat Ls) (F64.combine8 r).
Proof.
  intros F R.
  destruct r as [|r0 [|r1 [|r2 [|r3 [|r4 [|r5 [|r6 [|r7 [|r8 r]]]]]]]]]; try discriminate R.
  inversion F as [|L0 ? Ls0 ? H0 F0]; subst.
  inversion F0 as [|L1 ? Ls1 ? H1 F1]; subst.
  inversion F1 as [|L2 ? Ls2 ? H2 F2]; subst.
  inversion F2 as [|L3 ? Ls3 ? H3 F3]; subst.
  inversion F3 as [|L4 ? Ls4 ? H4 F4]; subst.
  inversion F4 as [|L5 ? Ls5 ? H5 F5]; subst.
  inversion F5 as [|L6 ? Ls6 ? H6 F6]; subst.
  inversion F6 as [|L7 ? Ls7 ? H7 F7]; subst.
  inversion F7; subst. cbn [List.concat F64.combine8]. rewrite app_nil_r.
  replace (L0 ++ L1 ++ L2 ++ L3 ++ L4 ++ L5 ++ L6 ++ L7)
    with (((L0 ++ L1) ++ (L2 ++ L3)) ++ ((L4 ++ L5) ++ (L6 ++ L7)))
    by (rewrite <- !app_assoc; reflexivity).
  repeat apply sums_add; assumption.
Qed.

Lemma singletons_sums (l : list F64.float) :
  Forall2 sums_to (map (fun x => [x]) l) l /\ List.concat (map (fun x => [x]) l) = l.
Proof.
  induction l as [|x l [IH1 IH2]]; cbn [map List.concat]; split; try constructor; auto.
  - apply sums_one.
  - cbn [app]. rewrite IH2. reflexivity.
Qed.

Lemma block_sums (l : list F64.float) :
  (8 <= List.length l)%nat -> sums_to l (F64.block_sum l).
Proof.
  intros H. unfold F64.block_sum.
  destruct (singletons_sums (firstn 8 l)) as [F C].
  destruct (lanes_sums (List.length l / 8 - 1) _ (firstn 8 l) (skipn 8 l) F)
    as [Ls [F' [R P]]].
  { rewrite length_firstn. lia. }
  rewrite C, firstn_skipn in P.
  destruct (F64.lanes (List.length l / 8 - 1) (firstn 8 l) (skipn 8 l)) as [r rest].
  cbn [fst snd] in *.
  apply sums_perm with (l := List.concat Ls ++ rest); [apply Permutation_sym; exact P|].
  apply fold_sums. apply combine8_sums; assumption.
Qed.

Lemma pairwise_sum_eq (fuel : nat) (l : list F64.float) :
  F64.pairwise_sum fuel l =
  if (List.length l <? 8)%nat then fold_left F64.add l F64.zero
  else if (List.length l <=? 128)%nat then F64.block_sum l
  else match fuel with
       | O => F64.nan
       | S fuel' =>
           let n2 := (List.length l / 2 - (List.length l / 2) mod 8)%nat in
           F64.add (F64.pairwise_sum fuel' (firstn n2 l))
                   (F64.pairwise_sum fuel' (skipn n2 l))
       end.
Proof. destruct fuel; reflexivity. Qed.

Lemma split_point (n : nat) :
  (128 < n)%nat -> (0 < n / 2 - (n / 2) mod 8 < n)%nat.
Proof.
  intros H.
  assert (A := Nat.div_mod_eq n 2). assert (B := Nat.mod_upper_bound n 2 ltac:(lia)).
  assert (C := Nat.mod_upper_bound (n / 2) 8 ltac:(lia)). lia.
Qed.

(** A list no longer than the fuel is summed completely: every element is
    added once.  ([0.0 + x] is [x] for every double but [-0.0].) *)
Lemma pairwise_sums (fuel : nat) : forall l,
  (List.length l <= fuel)%nat -> l <> [] ->
  Forall (fun x => F64.add F64.zero x = x) l ->
  sums_to l (F64.pairwise_sum fuel l).
Proof.
  induction fuel as [|fuel IH]; intros l L N A; rewrite pairwise_sum_eq.
  - destruct l as [|x l]; [contradiction|]. cbn in L. lia.
  - destruct (Nat.ltb_spec (List.length l) 8) as [S|S].
    + destruct l as [|x l]; [contradiction|]. cbn [fold_left].
      rewrite (Forall_inv A). apply (fold_sums l [x] x). apply sums_one.
    + destruct (Nat.leb_spec (List.length l) 128) as [B|B]; [apply block_sums; exact S|].
      cbv zeta. set (n2 := (List.length l / 2 - (List.length l / 2) mod 8)%nat).
      assert (P := split_point _ B). fold n2 in P.
      rewrite <- (firstn_skipn n2 l) at 1.
      apply sums_add; apply IH.
      * rewrite length_firstn. lia.
      * intros E. apply (f_equal (@List.length _)) in E.
        rewrite length_firstn in E. cbn [List.length] in E. lia.
      * rewrite <- (firstn_skipn n2 l) in A. apply Forall_app in A. apply A.
      * rewrite length_skipn. lia.
      * intros E. apply (f_equal (@List.length _)) in E.
        rewrite length_skipn in E. cbn [List.length] in E. lia.
      * rewrite <- (firstn_skipn n2 l) in A. apply Forall_app in A. apply A.
Qed.

(** The recursion of numpy's function, for lists of more than 128
    elements, whatever fuel covers their length. *)
Lemma pairwise_sum_fuel (f1 : nat) : forall f2 l,
  (List.length l <= f1)%nat -> (List.length l <= f2)%nat ->
  F64.pairwise_sum f1 l = F64.pairwise_sum f2 l.
Proof.
  induction f1 as [|f1 IH]; intros f2 l L1 L2; rewrite !pairwise_sum_eq.
  - destruct (List.length l) as [|n] eqn:E; [|lia]. reflexivity.
  - destruct (Nat.ltb_spec (List.length l) 8) as [S|S]; [reflexivity|].
    destruct (Nat.leb_spec (List.length l) 128) as [B|B]; [reflexivity|].
    destruct f2 as [|f2]; [lia|]. cbv zeta.
    assert (P := split_point _ B).
    set (n2 := (List.length l / 2 - (List.length l / 2) mod 8)%nat) in *.
    rewrite (IH f2 (firstn n2 l)), (IH f2 (skipn n2 l));
      rewrite ?length_firstn, ?length_skipn; try lia. reflexivity.
Qed.

Lemma pairwise_sum_split (fuel : nat) (l : list F64.float) :
  (List.length l <= fuel)%nat -> (128 < List.length l)%nat ->
  F64.pairwise_sum fuel l =
  F64.add (F64.pairwise_sum
             (List.length (firstn (List.length l / 2 - (List.length l / 2) mod 8) l))
             (firstn (List.length l / 2 - (List.length l / 2) mod 8) l))
          (F64.pairwise_sum
             (List.length (skipn (List.length l / 2 - (List.length l / 2) mod 8) l))
             (skipn (List.length l / 2 - (List.length l / 2) mod 8) l)).
Proof.
  intros L B. assert (P := split_point _ B).
  destruct fuel as [|f]; [lia|]. rewrite (pairwise_sum_eq (S f) l).
  destruct (Nat.ltb_spec (List.length l) 8) as [S|S]; [lia|].
  destruct (Nat.leb_spec (List.length l) 128) as [B'|B']; [lia|].
  cbv zeta.
  set (n2 := (List.length l / 2 - (List.length l / 2) mod 8)%nat) in *.
  assert (L1 : (List.length (firstn n2 l) <= f)%nat) by (rewrite length_firstn; lia).
  assert (L2 : (List.length (skipn n2 l) <= f)%nat) by (rewrite length_skipn; lia).
  rewrite (pairwise_sum_fuel f _ (firstn n2 l) L1 (Nat.le_refl _)).
  rewrite (pairwise_sum_fuel f _ (skipn n2 l) L2 (Nat.le_refl _)). reflexivity.
Qed.

(** ** Sums of whole numbers are exact *)

Lemma add_ints i j :
  0 < i -> 0 < j -> i + j < 2 ^ 53 ->
  F64.add (F64.of_Z i) (F64.of_Z j) = F64.of_Z (i + j).
Proof.
  intros Hi Hj H.
  destruct (of_Z_between i) as [m [e [E [B [V _]]]]]; [lia|].
  destruct (of_Z_between j) as [mj [ej [Ej [Bj [Vj _]]]]]; [lia|].
  destruct (of_Z_between (i + j)) as [m' [e' [E' [B' [V' _]]]]]; [lia|].
  rewrite E, Ej, E'.
  apply rounds_to_exact with (x := (posval m e + posval mj ej)%Q).
  - apply add_rounds_to.
  - exact B'.
  - rewrite V, Vj, V', inject_Z_plus. reflexivity.
Qed.

Lemma add_zero_int i : 0 <= i < 2 ^ 53 -> F64.add F64.zero (F64.of_Z i) = F64.of_Z i.
Proof.
  intros H. destruct (Z.eq_dec i 0) as [->|N]; [reflexivity|].
  destruct (of_Z_between i) as [m [e [-> _]]]; [lia|]. reflexivity.
Qed.

Lemma add_int_zero i : 0 <= i < 2 ^ 53 -> F64.add (F64.of_Z i) F64.zero = F64.of_Z i.
Proof.
  intros H. destruct (Z.eq_dec i 0) as [->|N]; [reflexivity|].
  destruct (of_Z_between i) as [m [e [-> _]]]; [lia|]. reflexivity.
Qed.

Lemma add_naturals i j :
  0 <= i -> 0 <= j -> i + j < 2 ^ 53 ->
  F64.add (F64.of_Z i) (F64.of_Z j) = F64.of_Z (i + j).
Proof.
  intros Hi Hj H.
  destruct (Z.eq_dec i 0) as [->|Ni]; [apply add_zero_int; lia|].
  destruct (Z.eq_dec j 0) as [->|Nj]; [rewrite Z.add_0_r; apply add_int_zero; lia|].
  apply add_ints; lia.
Qed.

(** The number of ones of a list of flags. *)
Lemma ones_app (l1 l2 : list F64.float) :
  List.length (filter (F64.eqb one) (l1 ++ l2)) =
  (List.length (filter (F64.eqb one) l1) + List.length (filter (F64.eqb one) l2))%nat.
Proof. rewrite filter_app, length_app. reflexivity. Qed.

Lemma filter_length_permutation {A : Type} (f : A -> bool) (l l' : list A) :
  Permutation l l' -> List.length (filter f l) = List.length (filter f l').
Proof.
  induction 1 as [|x l l' P IH|x y l|l l' l'' P1 IH1 P2 IH2]; cbn [filter].
  - reflexivity.
  - destruct (f x); cbn [List.length]; rewrite IH; reflexivity.
  - destruct (f x), (f y); reflexivity.
  - rewrite IH1. exact IH2.
Qed.

(** A sum of flags, each [0.0] or [1.0], is the number of its ones. *)
Lemma sums_flags (l : list F64.float) (r : F64.float) :
  sums_to l r -> Forall (fun x => x = F64.zero \/ x = one) l ->
  Z.of_nat (List.length l) < 2 ^ 53 ->
  r = F64.of_Z (Z.of_nat (List.length (filter (F64.eqb one) l))).
Proof.
  induction 1 as [x|l1 l2 r1 r2 _ IH1 _ IH2|l l' r P _ IH]; intros A L.
  - destruct (Forall_inv A) as [->| ->]; reflexivity.
  - apply Forall_app in A. destruct A as [A1 A2]. rewrite length_app in L.
    rewrite IH1, IH2 by (auto; lia). rewrite ones_app, Nat2Z.inj_add.
    assert (F1 := filter_length_le (F64.eqb one) l1).
    assert (F2 := filter_length_le (F64.eqb one) l2).
    apply add_naturals; lia.
  - rewrite <- (filter_length_permutation _ _ _ P).
    apply IH.
    + eapply Permutation_Forall; [apply Permutation_sym; exact P | exact A].
    + rewrite (Permutation_length P). exact L.
Qed.

Lemma flags_add_zero (l : list F64.float) :
  Forall (fun x => x = F64.zero \/ x = one) l ->
  Forall (fun x => F64.add F64.zero x = x) l.
Proof. apply Forall_impl. intros x [->| ->]; reflexivity. Qed.

Lemma np_sum_flags (l : list F64.float) :
  Forall (fun x => x = F64.zero \/ x = one) l -> Z.of_nat (List.length l) < 2 ^ 53 ->
  F64.np_sum l = F64.of_Z (Z.of_nat (List.length (filter (F64.eqb one) l))).
Proof.
  intros A L. unfold F64.np_sum. destruct l as [|x l]; [reflexivity|].
  rewrite (sums_flags (x :: l) _ (pairwise_sums _ (x :: l) (Nat.le_refl _)
                                   ltac:(discriminate) (flags_add_zero _ A)) A L).
  apply add_zero_int.
  assert (F := filter_length_le (F64.eqb one) (x :: l)). lia.
Qed.

Lemma ones_count (l : list F64.float) :
  Forall (eq one) l -> List.length (filter (F64.eqb one) l) = List.length l.
Proof.
  induction 1 as [|x l <- A IH]; cbn [filter]; [reflexivity|].
  change (F64.eqb one one) with true. cbn [List.length]. rewrite IH. reflexivity.
Qed.

Lemma np_sum_ones l :
  Forall (eq one) l -> 0 < Z.of_nat (List.length l) < 2 ^ 53 ->
  F64.np_sum l = F64.of_Z (Z.of_nat (List.length l)).
Proof.
  intros A L. rewrite np_sum_flags.
  - rewrite (ones_count l A). reflexivity.
  - eapply Forall_impl; [|exact A]. intros x <-. right. reflexivity.
  - lia.
Qed.

Lemma nanmean_ones l :
  Forall (eq one) l -> 0 < Z.of_nat (List.length l) < 2 ^ 53 ->
  F64.nanmean l = one.
Proof.
  intros A L. unfold F64.nanmean, F64.nansum.
  assert (M : map (fun x => if F64.is_nan x then F64.zero else x) l = l).
  { clear L. induction A as [|x l <- A IH]; cbn [map]; [reflexivity|].
    rewrite IH. reflexivity. }
  assert (Fl : filter (fun x => negb (F64.is_nan x)) l = l).
  { clear L M. induction A as [|x l <- A IH]; cbn [filter]; [reflexivity|].
    cbn. rewrite IH. reflexivity. }
  rewrite M, Fl, np_sum_ones by assumption.
  destruct (of_Z_between _ L) as [m [e [E [B _]]]]. rewrite E.
  apply div_self. exact B.
Qed.

Lemma hundred_percent :
  F64.mul one F64.hundred = F64.hundred /\
  F64.round2 F64.hundred = F64.hundred /\
  F64.add (F64.mul F64.lit_0_6 F64.hundred) (F64.mul F64.lit_0_4 F64.hundred) = F64.hundred.
Proof. repeat split; vm_compute; reflexivity. Qed.

Lemma upto_weaken f lo hi lo' hi' :
  upto f lo hi -> (lo' <= lo)%Q -> (hi <= hi')%Q -> upto f lo' hi'.
Proof.
  intros [Z|B] H1 H2; [left; assumption | right; eapply between_weaken; eauto].
Qed.

Lemma posval_mag_ge a m e :
  (pow2 a <= posval m e)%Q -> a + 1 <= Zpos (digits2_pos m) + e.
Proof.
  intros H. destruct (posval_mag m e) as [_ M].
  destruct (Z.le_gt_cases (a + 1) (Zpos (digits2_pos m) + e)) as [L|L]; [assumption|exfalso].
  assert (pow2 (Zpos (digits2_pos m) + e) <= pow2 a)%Q by (apply pow2_le; lia). lra.
Qed.

Lemma tiny_eq : (tiny == pow2 (-48))%Q.
Proof. reflexivity. Qed.

Lemma count_true_le l : (count_true l <= List.length l)%nat.
Proof. unfold count_true. apply filter_length_le. Qed.

Lemma Q_of_Z_pos n : 0 < n -> (0 < inject_Z n)%Q.
Proof. intros H. change 0%Q with (inject_Z 0). rewrite <- Zlt_Qlt. exact H. Qed.

Lemma bool_mean_range l :
  0 < Z.of_nat (List.length l) < 2 ^ 48 -> upto (bool_mean l) tiny 1.
Proof.
  intros L. unfold bool_mean.
  assert (K := count_true_le l).
  set (k := Z.of_nat (count_true l)). set (n := Z.of_nat (List.length l)) in *.
  assert (Hk : 0 <= k <= n) by (unfold k, n; lia).
  destruct (of_Z_between n) as [mn [en [En [Bn [Vn Mn]]]]]; [lia|].
  rewrite En.
  destruct (Z.eq_dec k 0) as [->|K0]; [left; reflexivity|right].
  destruct (of_Z_between k) as [mk [ek [Ek [Bk [Vk Mk]]]]]; [lia|].
  rewrite Ek. destruct (bounded_inv _ _ Bk) as [Ck _].
  assert (R := div_rounds_to mk ek mn en Ck ltac:(lia)).
  assert (Nq := Q_of_Z_pos n ltac:(lia)).
  assert (K1 : (1 <= inject_Z k)%Q)
    by (change 1%Q with (inject_Z 1); rewrite <- Zle_Qle; lia).
  assert (K2 : (inject_Z k <= inject_Z n)%Q) by (rewrite <- Zle_Qle; lia).
  assert (N2 : (inject_Z n <= 281474976710656)%Q)
    by (change 281474976710656%Q with (inject_Z (2 ^ 48)); rewrite <- Zle_Qle; lia).
  apply between_weaken with (lo := posval 4503599627370496 (-100))
                            (hi := posval 4503599627370496 (-52));
    [|apply Qle_refl|apply Qle_lteq; right; reflexivity].
  apply between_intro with (x := (posval mk ek / posval mn en)%Q);
    [assumption|reflexivity|reflexivity| |]; rewrite Vk, Vn.
  - apply Qle_shift_div_l; [assumption|].
    setoid_replace (posval 4503599627370496 (-100)) with (1 # 281474976710656)%Q by reflexivity.
    nra.
  - apply Qle_shift_div_r; [assumption|].
    setoid_replace (posval 4503599627370496 (-52)) with 1%Q by reflexivity. lra.
Qed.

Lemma add_range a b i j :
  upto a tiny (inject_Z i) -> upto b tiny (inject_Z j) ->
  1 <= i -> 1 <= j -> i + j < 2 ^ 53 ->
  upto (F64.add a b) tiny (inject_Z (i + j)).
Proof.
  intros Ha Hb Hi Hj Hij.
  assert (I1 : (inject_Z i <= inject_Z (i + j))%Q) by (rewrite <- Zle_Qle; lia).
  assert (I2 : (inject_Z j <= inject_Z (i + j))%Q) by (rewrite <- Zle_Qle; lia).
  destruct Ha as [->|[ma [ea [-> [Ba [Va1 Va2]]]]]];
    destruct Hb as [->|[mb [eb [-> [Bb [Vb1 Vb2]]]]]].
  - left. reflexivity.
  - right. exists mb, eb. repeat split; auto. lra.
  - right. exists ma, ea. repeat split; auto. lra.
  - right.
    destruct (of_Z_between (i + j)) as [mu [eu [_ [Bu [Vu _]]]]]; [lia|].
    apply between_weaken with (lo := posval 4503599627370496 (-100)) (hi := posval mu eu);
      [|apply Qle_refl|rewrite Vu; apply Qle_refl].
    apply between_intro with (x := (posval ma ea + posval mb eb)%Q);
      [apply add_rounds_to|reflexivity|assumption| |].
    + unfold tiny in *. assert (P := posval_pos mb eb). lra.
    + rewrite Vu, inject_Z_plus. lra.
Qed.

Lemma add_zero_upto (r : F64.float) (lo hi : Q) :
  upto r lo hi -> F64.add F64.zero r = r.
Proof. intros [->|[m [e [-> _]]]]; reflexivity. Qed.

Lemma upto_add_zero (l : list F64.float) :
  Forall (fun b => upto b tiny 1) l -> Forall (fun x => F64.add F64.zero x = x) l.
Proof. apply Forall_impl. intros x H. exact (add_zero_upto x _ _ H). Qed.

Lemma sums_range (l : list F64.float) (r : F64.float) :
  sums_to l r -> Forall (fun b => upto b tiny 1) l ->
  Z.of_nat (List.length l) < 2 ^ 53 ->
  upto r tiny (inject_Z (Z.of_nat (List.length l))).
Proof.
  induction 1 as [x|l1 l2 r1 r2 S1 IH1 S2 IH2|l l' r P _ IH]; intros A L.
  - exact (Forall_inv A).
  - apply Forall_app in A. destruct A as [A1 A2].
    assert (N1 := sums_length _ _ S1). assert (N2 := sums_length _ _ S2).
    rewrite length_app in *. rewrite Nat2Z.inj_add in *.
    apply add_range; [apply IH1|apply IH2| | |]; auto; lia.
  - rewrite <- (Permutation_length P) in *.
    apply IH; [|exact L].
    eapply Permutation_Forall; [apply Permutation_sym; exact P | exact A].
Qed.

Lemma np_sum_pairwise (l : list F64.float) :
  Forall (fun b => upto b tiny 1) l -> 0 < Z.of_nat (List.length l) < 2 ^ 53 ->
  sums_to l (F64.np_sum l).
Proof.
  intros A L. assert (N : l <> []) by (intros ->; cbn in L; lia).
  assert (S := pairwise_sums _ l (Nat.le_refl _) N (upto_add_zero l A)).
  unfold F64.np_sum.
  rewrite (add_zero_upto _ _ _ (sums_range _ _ S A ltac:(lia))). exact S.
Qed.

Lemma np_sum_range l :
  Forall (fun b => upto b tiny 1) l -> 0 < Z.of_nat (List.length l) < 2 ^ 53 ->
  upto (F64.np_sum l) tiny (inject_Z (Z.of_nat (List.length l))).
Proof.
  intros A L. apply sums_range; [apply np_sum_pairwise; assumption | exact A | lia].
Qed.

Lemma upto_not_nan f lo hi : upto f lo hi -> F64.is_nan f = false.
Proof. intros [->|[m [e [-> _]]]]; reflexivity. Qed.

Lemma nanmean_range l :
  Forall (fun b => upto b tiny 1) l -> 0 < Z.of_nat (List.length l) < 2 ^ 48 ->
  upto (F64.nanmean l) tiny2 1.
Proof.
  intros A L. unfold F64.nanmean, F64.nansum.
  assert (M : map (fun x => if F64.is_nan x then F64.zero else x) l = l).
  { clear L. induction A as [|x l Hx A IH]; cbn [map]; [reflexivity|].
    rewrite IH, (upto_not_nan _ _ _ Hx). reflexivity. }
  assert (Fl : filter (fun x => negb (F64.is_nan x)) l = l).
  { clear L M. induction A as [|x l Hx A IH]; cbn [filter]; [reflexivity|].
    rewrite IH, (upto_not_nan _ _ _ Hx). reflexivity. }
  rewrite M, Fl.
  set (n := Z.of_nat (List.length l)) in *.
  destruct (of_Z_between n) as [mn [en [En [Bn [Vn Mn]]]]]; [lia|].
  rewrite En.
  destruct (np_sum_range l A ltac:(fold n; lia)) as [->|[ms [es [-> [Bs [Vs1 Vs2]]]]]];
    [left; reflexivity|right]. fold n in Vs2.
  destruct (bounded_inv _ _ Bs) as [Cs _].
  assert (Mg := posval_mag_ge (-48) ms es ltac:(rewrite <- tiny_eq; exact Vs1)).
  assert (R := div_rounds_to ms es mn en Cs ltac:(lia)).
  assert (Nq := Q_of_Z_pos n ltac:(lia)).
  assert (N2 : (inject_Z n <= 281474976710656)%Q)
    by (change 281474976710656%Q with (inject_Z (2 ^ 48)); rewrite <- Zle_Qle; lia).
  apply between_weaken with (lo := posval 4503599627370496 (-148))
                            (hi := posval 4503599627370496 (-52));
    [|apply Qle_refl|apply Qle_lteq; right; reflexivity].
  apply between_intro with (x := (posval ms es / posval mn en)%Q);
    [assumption|reflexivity|reflexivity| |]; rewrite Vn.
  - apply Qle_shift_div_l; [assumption|].
    setoid_replace (posval 4503599627370496 (-148))
      with ((1 # 281474976710656) * (1 # 281474976710656))%Q by reflexivity.
    unfold tiny in Vs1.
    setoid_replace (posval 4503599627370496 (-100)) with (1 # 281474976710656)%Q in Vs1
      by reflexivity.
    nra.
  - apply Qle_shift_div_r; [assumption|].
    setoid_replace (posval 4503599627370496 (-52)) with 1%Q by reflexivity. lra.
Qed.

Lemma mul_between_r x mc ec lo hi m1 e1 m2 e2 :
  between x lo hi -> (0 <= lo)%Q ->
  bounded64 mc ec = true -> bounded64 m1 e1 = true -> bounded64 m2 e2 = true ->
  (posval m1 e1 <= lo * posval mc ec)%Q -> (hi * posval mc ec <= posval m2 e2)%Q ->
  between (F64.mul x (S754_finite false mc ec)) (posval m1 e1) (posval m2 e2).
Proof.
  intros [m [e [-> [B [V1 V2]]]]] L0 Bc B1 B2 H1 H2.
  destruct (bounded_inv _ _ B) as [C _]. destruct (bounded_inv _ _ Bc) as [Cc _].
  assert (Pc := posval_pos mc ec).
  apply between_intro with (x := (posval m e * posval mc ec)%Q);
    [apply mul_rounds_to; assumption|assumption|assumption| |]; nra.
Qed.

Lemma mul_between_l x mc ec lo hi m1 e1 m2 e2 :
  between x lo hi -> (0 <= lo)%Q ->
  bounded64 mc ec = true -> bounded64 m1 e1 = true -> bounded64 m2 e2 = true ->
  (posval m1 e1 <= posval mc ec * lo)%Q -> (posval mc ec * hi <= posval m2 e2)%Q ->
  between (F64.mul (S754_finite false mc ec) x) (posval m1 e1) (posval m2 e2).
Proof.
  intros [m [e [-> [B [V1 V2]]]]] L0 Bc B1 B2 H1 H2.
  destruct (bounded_inv _ _ B) as [C _]. destruct (bounded_inv _ _ Bc) as [Cc _].
  assert (Pc := posval_pos mc ec).
  apply between_intro with (x := (posval mc ec * posval m e)%Q);
    [apply mul_rounds_to; assumption|assumption|assumption| |]; nra.
Qed.

Lemma mul_range_r x mc ec lo hi m1 e1 m2 e2 :
  upto x lo hi -> (0 <= lo)%Q ->
  bounded64 mc ec = true -> bounded64 m1 e1 = true -> bounded64 m2 e2 = true ->
  (posval m1 e1 <= lo * posval mc ec)%Q -> (hi * posval mc ec <= posval m2 e2)%Q ->
  upto (F64.mul x (S754_finite false mc ec)) (posval m1 e1) (posval m2 e2).
Proof.
  intros [->|B]; [left; reflexivity|right]. apply (mul_between_r x mc ec lo hi); assumption.
Qed.

Lemma mul_range_l x mc ec lo hi m1 e1 m2 e2 :
  upto x lo hi -> (0 <= lo)%Q ->
  bounded64 mc ec = true -> bounded64 m1 e1 = true -> bounded64 m2 e2 = true ->
  (posval m1 e1 <= posval mc ec * lo)%Q -> (posval mc ec * hi <= posval m2 e2)%Q ->
  upto (F64.mul (S754_finite false mc ec) x) (posval m1 e1) (posval m2 e2).
Proof.
  intros [->|B]; [left; reflexivity|right]. apply (mul_between_l x mc ec lo hi); assumption.
Qed.

(** [round(x, 2)] of a percentage. *)
Lemma rne_quot_range m p B :
  0 <= m -> 0 < p -> m <= B * p -> 0 <= F64.rne_quot m p <= B.
Proof.
  intros Hm Hp H. unfold F64.rne_quot.
  assert (D := Z.div_mod m p ltac:(lia)). assert (R := Z.mod_pos_bound m p Hp).
  assert (Q0 : 0 <= m / p) by (apply Z.div_pos; lia).
  assert (Q1 : m / p <= B) by (apply Z.div_le_upper_bound; lia).
  assert (Q2 : 0 < m mod p -> m / p + 1 <= B) by (intros; nia).
  destruct (Z.compare_spec (2 * (m mod p)) p) as [E|E|E]; [destruct (Z.even (m / p))| |]; lia.
Qed.

Lemma rne_int_range m e B :
  (posval m e <= inject_Z B)%Q -> 0 <= F64.rne_int m e <= B.
Proof.
  intros H. unfold F64.rne_int.
  destruct (Z.leb_spec 0 e) as [He|He].
  - assert (E : (posval m e == inject_Z (Zpos m * 2 ^ e))%Q).
    { unfold posval. rewrite inject_Z_mult, pow2_Z by assumption. reflexivity. }
    rewrite E, <- Zle_Qle in H.
    assert (0 < 2 ^ e) by (apply Z.pow_pos_nonneg; lia). nia.
  - assert (Pp : 0 < 2 ^ (- e)) by (apply Z.pow_pos_nonneg; lia).
    assert (E : (posval m e * inject_Z (2 ^ (- e)) == inject_Z (Zpos m))%Q).
    { unfold posval. rewrite <- pow2_Z by lia. rewrite <- Qmult_assoc, <- pow2_add.
      replace (e + - e) with 0 by lia. unfold pow2. simpl (2 ^ 0)%Q. ring. }
    assert (Q2 := Q_of_Z_pos _ Pp).
    apply rne_quot_range; [lia|assumption|].
    rewrite Zle_Qle, inject_Z_mult, <- E. apply Qmult_le_compat_r; [assumption|lra].
Qed.

Lemma round2_percentage x lo :
  upto x lo 100 -> (0 <= lo)%Q ->
  exists k, 0 <= k <= 10000 /\ F64.round2 x = F64.lit k 100.
Proof.
  intros Hx L0. unfold F64.round2, F64.lit. fold F64.hundred.
  assert (Hy : upto (F64.mul x F64.hundred) 0 (posval 5497558138880000 (-39))).
  { rewrite hundred_eq.
    destruct Hx as [->|Bx]; [left; reflexivity|].
    destruct Bx as [m [e [-> [B [V1 V2]]]]].
    destruct (bounded_inv _ _ B) as [C _].
    assert (R := mul_rounds_to m e 7036874417766400 (-46) C eq_refl).
    assert (Hle : (posval m e * posval 7036874417766400 (-46) <=
                   posval 5497558138880000 (-39))%Q).
    { rewrite val_hundred.
      setoid_replace (posval 5497558138880000 (-39)) with 10000%Q by reflexivity. lra. }
    destruct (rounds_to_below _ _ 5497558138880000 (-39) R eq_refl Hle)
      as [Z|[m' [e' [E' [B' V']]]]]; [left; exact Z|right].
    exists m', e'. repeat split; auto. apply Qlt_le_weak, posval_pos. }
  destruct Hy as [->|[m [e [-> [B [_ V]]]]]].
  - exists 0. split; [lia|reflexivity].
  - exists (F64.rne_int m e). split.
    + apply rne_int_range.
      setoid_replace (posval 5497558138880000 (-39)) with 10000%Q in V by reflexivity.
      exact V.
    + reflexivity.
Qed.

(** ** Rounding error *)

Lemma to_Q_finite m e : F64.to_Q (S754_finite false m e) = posval m e.
Proof. reflexivity. Qed.

Lemma to_Q_zero : F64.to_Q (S754_zero false) = 0%Q.
Proof. reflexivity. Qed.

Lemma ulp52_pos : (0 < ulp52)%Q.
Proof. apply pow2_pos. Qed.

(** In the normal range a rounded double is within [2^-52 x] of [x]. *)
Lemma rounds_to_error x m e :
  rounds_to x (S754_finite false m e) -> (pow2 (-1022) <= x)%Q ->
  (x - x * ulp52 <= posval m e /\ posval m e <= x + x * ulp52)%Q.
Proof.
  intros [F [m' [[Ma Mb] [[A B] [Rg [Nm Pk]]]]]] Hx.
  assert (HF : -1022 < F).
  { destruct (Z.lt_ge_cases (-1022) F) as [L|L]; [assumption|exfalso].
    assert (pow2 F <= pow2 (-1022))%Q by (apply pow2_le; lia). lra. }
  assert (Efx : fx F = F - 53) by (rewrite fx_eq; lia).
  specialize (Nm Efx).
  destruct (pack_cases F m' Rg (fun _ => Nm)) as [[Z0 _]|[Pm [p [ef [Vp [Cp [_ Pp]]]]]]]; [lia|].
  rewrite Pp in Pk. destruct (ef <=? 971); [|discriminate Pk].
  injection Pk as -> ->. rewrite Vp. rewrite Efx in *.
  assert (P := pow2_pos (F - 53)).
  assert (E : (pow2 (F - 1) == pow2 (F - 53) * pow2 52)%Q).
  { rewrite <- pow2_add. replace (F - 53 + 52) with (F - 1) by lia. reflexivity. }
  assert (U : (pow2 (F - 53) <= x * ulp52)%Q).
  { apply Qle_trans with (pow2 (F - 1) * ulp52)%Q.
    - rewrite E. unfold ulp52. rewrite <- Qmult_assoc, <- pow2_add.
      change (52 + -52) with 0. unfold pow2 at 3. simpl (2 ^ 0)%Q. lra.
    - apply Qmult_le_compat_r; [assumption|]. apply Qlt_le_weak, ulp52_pos. }
  qinj. lra.
Qed.

Lemma near_zero (x err : Q) : (0 <= err)%Q -> (x == 0)%Q -> near (S754_zero false) x err.
Proof. intros He Hx. unfold near. rewrite to_Q_zero, Hx. split; lra. Qed.

(** The mean of a boolean column is within [2^-52] of the exact fraction. *)
Lemma bool_mean_near l :
  0 < Z.of_nat (List.length l) < 2 ^ 48 ->
  near (bool_mean l)
       (inject_Z (Z.of_nat (count_true l)) / inject_Z (Z.of_nat (List.length l))) ulp52.
Proof.
  intros L. assert (U := ulp52_pos).
  assert (K := count_true_le l). unfold bool_mean.
  set (k := Z.of_nat (count_true l)). set (n := Z.of_nat (List.length l)) in *.
  assert (Hk : 0 <= k <= n) by (unfold k, n; lia).
  destruct (of_Z_between n) as [mn [en [En [Bn [Vn Mn]]]]]; [lia|].
  rewrite En.
  destruct (Z.eq_dec k 0) as [->|K0].
  { apply near_zero; [lra|]. unfold Qdiv. change (inject_Z 0) with 0%Q. ring. }
  destruct (of_Z_between k) as [mk [ek [Ek [Bk [Vk Mk]]]]]; [lia|].
  rewrite Ek. destruct (bounded_inv _ _ Bk) as [Ck _].
  assert (R := div_rounds_to mk ek mn en Ck ltac:(lia)).
  assert (Nq := Q_of_Z_pos n ltac:(lia)).
  assert (K1 : (1 <= inject_Z k)%Q)
    by (change 1%Q with (inject_Z 1); rewrite <- Zle_Qle; lia).
  assert (K2 : (inject_Z k <= inject_Z n)%Q) by (rewrite <- Zle_Qle; lia).
  assert (N2 : (inject_Z n <= 281474976710656)%Q)
    by (change 281474976710656%Q with (inject_Z (2 ^ 48)); rewrite <- Zle_Qle; lia).
  rewrite Vk, Vn in R.
  set (x := (inject_Z k / inject_Z n)%Q) in *.
  assert (X1 : (1 # 281474976710656 <= x)%Q)
    by (unfold x; apply Qle_shift_div_l; [assumption|nra]).
  assert (X2 : (x <= 1)%Q) by (unfold x; apply Qle_shift_div_r; [assumption|lra]).
  assert (Bt : between (F64.div (S754_finite false mk ek) (S754_finite false mn en))
                       (posval 4503599627370496 (-100)) (posval 4503599627370496 (-52))).
  { apply between_intro with (x := x); [assumption|reflexivity|reflexivity| |].
    - setoid_replace (posval 4503599627370496 (-100)) with (1 # 281474976710656)%Q
        by reflexivity. exact X1.
    - setoid_replace (posval 4503599627370496 (-52)) with 1%Q by reflexivity. exact X2. }
  destruct Bt as [m [e [E _]]]. rewrite E in *.
  destruct (rounds_to_error x m e R) as [A B].
  - apply Qle_trans with (1 # 281474976710656)%Q; [|exact X1].
    unfold pow2. apply Qlt_le_weak. 
    apply Qlt_le_trans with (pow2 (-48)); [apply pow2_lt; lia|].
    setoid_replace (pow2 (-48)) with (1 # 281474976710656)%Q by reflexivity. apply Qle_refl.
  - unfold near. rewrite to_Q_finite. split; nra.
Qed.

Lemma tiny_normal : (pow2 (-1022) <= tiny)%Q.
Proof. rewrite tiny_eq. apply pow2_le. lia. Qed.

Lemma tiny2_normal : (pow2 (-1022) <= tiny2)%Q.
Proof.
  setoid_replace tiny2 with (pow2 (-96)) by reflexivity. apply pow2_le. lia.
Qed.

Lemma add_near a b i j :
  upto a tiny (inject_Z i) -> upto b tiny (inject_Z j) ->
  1 <= i -> 1 <= j -> i + j < 2 ^ 53 ->
  near (F64.add a b) (F64.to_Q a + F64.to_Q b) (inject_Z (i + j) * ulp52).
Proof.
  intros Ha Hb Hi Hj Hij. assert (U := ulp52_pos).
  assert (I0 : (1 <= inject_Z (i + j))%Q)
    by (change 1%Q with (inject_Z 1); rewrite <- Zle_Qle; lia).
  assert (E0 : (0 <= inject_Z (i + j) * ulp52)%Q) by nra.
  assert (R := add_range a b i j Ha Hb Hi Hj Hij).
  destruct Ha as [->|[ma [ea [-> [Ba [Va1 Va2]]]]]];
    destruct Hb as [->|[mb [eb [-> [Bb [Vb1 Vb2]]]]]].
  - apply near_zero; [exact E0|]. rewrite to_Q_zero. ring.
  - unfold near. cbn [F64.add SFadd]. rewrite to_Q_zero, to_Q_finite. split; lra.
  - unfold near. cbn [F64.add SFadd]. rewrite to_Q_zero, to_Q_finite. split; lra.
  - destruct R as [Z|[m [e [E [B [V1 V2]]]]]].
    + exfalso. assert (T := add_rounds_to ma ea mb eb). rewrite Z in T.
      destruct T as [F [m' [[Ma Mb] [_ [Rg [Nm Pk]]]]]].
      assert (HF : -1022 < F).
      { destruct (Z.lt_ge_cases (-1022) F) as [L|L]; [assumption|exfalso].
        assert (pow2 F <= pow2 (-1022))%Q by (apply pow2_le; lia).
        assert (T := tiny_normal). assert (P := posval_pos mb eb). lra. }
      assert (Efx : fx F = F - 53) by (rewrite fx_eq; lia).
      specialize (Nm Efx).
      destruct (pack_cases F m' Rg (fun _ => Nm)) as [[Z0 _]|[_ [p [ef [_ [_ [_ Pp]]]]]]]; [lia|].
      rewrite Pp in Pk. destruct (ef <=? 971); discriminate Pk.
    + assert (T := add_rounds_to ma ea mb eb). rewrite E in T.
      destruct (rounds_to_error _ m e T) as [A B'].
      * assert (N := tiny_normal). assert (P := posval_pos mb eb). lra.
      * rewrite E. unfold near. rewrite !to_Q_finite.
        assert (S1 : (posval ma ea + posval mb eb <= inject_Z (i + j))%Q)
          by (rewrite inject_Z_plus; lra).
        assert (S0 : (0 <= posval ma ea + posval mb eb)%Q)
          by (assert (Pa := posval_pos ma ea); assert (Pb := posval_pos mb eb); lra).
        split; nra.
Qed.

Lemma Qsum_app (l1 l2 : list F64.float) : (Qsum (l1 ++ l2) == Qsum l1 + Qsum l2)%Q.
Proof.
  induction l1 as [|x l1 IH]; cbn [app].
  - change (Qsum []) with 0%Q. ring.
  - change (Qsum (x :: l1 ++ l2)) with (F64.to_Q x + Qsum (l1 ++ l2))%Q.
    change (Qsum (x :: l1)) with (F64.to_Q x + Qsum l1)%Q. rewrite IH. ring.
Qed.

Lemma Qsum_permutation (l l' : list F64.float) :
  Permutation l l' -> (Qsum l == Qsum l')%Q.
Proof.
  induction 1 as [|x l l' P IH|x y l|l l' l'' P1 IH1 P2 IH2].
  - reflexivity.
  - change (Qsum (x :: l)) with (F64.to_Q x + Qsum l)%Q.
    change (Qsum (x :: l')) with (F64.to_Q x + Qsum l')%Q. rewrite IH. reflexivity.
  - change (Qsum (y :: x :: l)) with (F64.to_Q y + (F64.to_Q x + Qsum l))%Q.
    change (Qsum (x :: y :: l)) with (F64.to_Q x + (F64.to_Q y + Qsum l))%Q. ring.
  - rewrite IH1. exact IH2.
Qed.

(** Each of the [n - 1] additions of a sum of [n] values between 0 and 1
    is off by at most [M * 2^-52], whatever their order. *)
Lemma sums_near (l : list F64.float) (r : F64.float) (M : Z) :
  sums_to l r -> Forall (fun b => upto b tiny 1) l ->
  Z.of_nat (List.length l) <= M -> M < 2 ^ 53 ->
  near r (Qsum l) (inject_Z (Z.of_nat (List.length l) - 1) * (inject_Z M * ulp52)).
Proof.
  assert (U := ulp52_pos).
  induction 1 as [x|l1 l2 r1 r2 S1 IH1 S2 IH2|l l' r P _ IH]; intros A L HM.
  - unfold near. change (Qsum [x]) with (F64.to_Q x + 0)%Q.
    change (inject_Z (Z.of_nat (List.length [x]) - 1)) with 0%Q. split; lra.
  - apply Forall_app in A. destruct A as [A1 A2].
    assert (N1 := sums_length _ _ S1). assert (N2 := sums_length _ _ S2).
    rewrite length_app in *. rewrite Nat2Z.inj_add in *.
    set (n1 := Z.of_nat (List.length l1)) in *. set (n2 := Z.of_nat (List.length l2)) in *.
    assert (R1 := sums_range _ _ S1 A1 ltac:(fold n1; lia)).
    assert (R2 := sums_range _ _ S2 A2 ltac:(fold n2; lia)).
    fold n1 in R1. fold n2 in R2.
    assert (D := add_near r1 r2 n1 n2 R1 R2 ltac:(lia) ltac:(lia) ltac:(lia)).
    specialize (IH1 A1 ltac:(lia) HM). specialize (IH2 A2 ltac:(lia) HM).
    unfold near in *. rewrite Qsum_app.
    rewrite !inject_Z_minus, ?inject_Z_plus in *. change (inject_Z 1) with 1%Q in *.
    assert (Q1 : (1 <= inject_Z n1)%Q)
      by (change 1%Q with (inject_Z 1); rewrite <- Zle_Qle; lia).
    assert (Q2 : (1 <= inject_Z n2)%Q)
      by (change 1%Q with (inject_Z 1); rewrite <- Zle_Qle; lia).
    assert (QM : (inject_Z n1 + inject_Z n2 <= inject_Z M)%Q)
      by (rewrite <- inject_Z_plus, <- Zle_Qle; lia).
    set (MU := (inject_Z M * ulp52)%Q) in *.
    assert (iU : ((inject_Z n1 + inject_Z n2) * ulp52 <= MU)%Q)
      by (unfold MU; apply Qmult_le_compat_r; [exact QM|lra]).
    destruct D as [D1 D2], IH1 as [I1 I1'], IH2 as [I2 I2'].
    split; nra.
  - rewrite <- (Permutation_length P) in *.
    assert (A' : Forall (fun b => upto b tiny 1) l)
      by (eapply Permutation_Forall; [apply Permutation_sym; exact P | exact A]).
    specialize (IH A' L HM). unfold near in *.
    rewrite <- (Qsum_permutation _ _ P). exact IH.
Qed.

Lemma nanmean_unfold l :
  Forall (fun b => upto b tiny 1) l ->
  F64.nanmean l = F64.div (F64.np_sum l) (F64.of_Z (Z.of_nat (List.length l))).
Proof.
  intros A. unfold F64.nanmean, F64.nansum.
  assert (M : map (fun x => if F64.is_nan x then F64.zero else x) l = l).
  { induction A as [|x l Hx A IH]; cbn [map]; [reflexivity|].
    rewrite IH, (upto_not_nan _ _ _ Hx). reflexivity. }
  assert (Fl : filter (fun x => negb (F64.is_nan x)) l = l).
  { clear M. induction A as [|x l Hx A IH]; cbn [filter]; [reflexivity|].
    rewrite IH, (upto_not_nan _ _ _ Hx). reflexivity. }
  rewrite M, Fl. reflexivity.
Qed.

Lemma np_sum_near l :
  Forall (fun b => upto b tiny 1) l -> 0 < Z.of_nat (List.length l) < 2 ^ 53 ->
  near (F64.np_sum l) (Qsum l)
       (inject_Z (Z.of_nat (List.length l) - 1) *
        (inject_Z (Z.of_nat (List.length l)) * ulp52)).
Proof.
  intros A L. apply sums_near; [apply np_sum_pairwise; assumption | exact A | lia | lia].
Qed.

(** The mean of [m] column means is within [m * 2^-52] of their exact mean. *)
Lemma nanmean_near l :
  Forall (fun b => upto b tiny 1) l -> 0 < Z.of_nat (List.length l) < 2 ^ 48 ->
  near (F64.nanmean l) (Qsum l / inject_Z (Z.of_nat (List.length l)))
       (inject_Z (Z.of_nat (List.length l)) * ulp52).
Proof.
  intros A L. assert (U := ulp52_pos). rewrite (nanmean_unfold l A).
  set (n := Z.of_nat (List.length l)) in *.
  assert (Nq := Q_of_Z_pos n ltac:(lia)).
  assert (N1 : (1 <= inject_Z n)%Q)
    by (change 1%Q with (inject_Z 1); rewrite <- Zle_Qle; lia).
  assert (N2 : (inject_Z n <= 281474976710656)%Q)
    by (change 281474976710656%Q with (inject_Z (2 ^ 48)); rewrite <- Zle_Qle; lia).
  assert (S := np_sum_near l A ltac:(fold n; lia)). fold n in S.
  assert (Rg := np_sum_range l A ltac:(fold n; lia)). fold n in Rg.
  unfold near in S. rewrite !inject_Z_minus in S. change (inject_Z 1) with 1%Q in S.
  set (y := (Qsum l / inject_Z n)%Q).
  assert (Ey : (y * inject_Z n == Qsum l)%Q) by (unfold y; field; lra).
  destruct (of_Z_between n) as [mn [en [En [Bn [Vn Mn]]]]]; [lia|].
  rewrite En. unfold near in *. destruct S as [S1 S2].
  destruct Rg as [Z|[ms [es [Es [Bs [Vs1 Vs2]]]]]].
  - rewrite Z in *. cbn [F64.div SFdiv xorb]. rewrite to_Q_zero in *.
    split; nra.
  - rewrite Es in *. rewrite to_Q_finite in S1, S2.
    destruct (bounded_inv _ _ Bs) as [Cs _].
    assert (Mg := posval_mag_ge (-48) ms es ltac:(rewrite <- tiny_eq; exact Vs1)).
    assert (R := div_rounds_to ms es mn en Cs ltac:(lia)).
    rewrite Vn in R. set (x := (posval ms es / inject_Z n)%Q) in *.
    assert (Ex : (x * inject_Z n == posval ms es)%Q) by (unfold x; field; lra).
    unfold tiny in Vs1.
    setoid_replace (posval 4503599627370496 (-100)) with (1 # 281474976710656)%Q in Vs1
      by reflexivity.
    assert (X1 : ((1 # 281474976710656) * (1 # 281474976710656) <= x)%Q).
    { unfold x. apply Qle_shift_div_l; [assumption|]. nra. }
    assert (X2 : (x <= 1)%Q) by (unfold x; apply Qle_shift_div_r; [assumption|lra]).
    assert (Bt : between (F64.div (S754_finite false ms es) (S754_finite false mn en))
                         (posval 4503599627370496 (-148)) (posval 4503599627370496 (-52))).
    { apply between_intro with (x := x); [assumption|reflexivity|reflexivity| |].
      - setoid_replace (posval 4503599627370496 (-148))
          with ((1 # 281474976710656) * (1 # 281474976710656))%Q by reflexivity. exact X1.
      - setoid_replace (posval 4503599627370496 (-52)) with 1%Q by reflexivity. exact X2. }
    destruct Bt as [m [e [E _]]]. rewrite E in *.
    destruct (rounds_to_error x m e R) as [A1 A2].
    + apply Qle_trans with (pow2 (-96)); [apply pow2_le; lia|].
      setoid_replace (pow2 (-96))
        with ((1 # 281474976710656) * (1 # 281474976710656))%Q by reflexivity. exact X1.
    + rewrite to_Q_finite.
      assert (D1 : (x - y <= (inject_Z n - 1) * ulp52)%Q).
      { apply Qmult_le_r with (inject_Z n); [assumption|].
        setoid_replace ((x - y) * inject_Z n)%Q with (posval ms es - Qsum l)%Q
          by (rewrite <- Ex, <- Ey; ring). nra. }
      assert (D2 : (y - x <= (inject_Z n - 1) * ulp52)%Q).
      { apply Qmult_le_r with (inject_Z n); [assumption|].
        setoid_replace ((y - x) * inject_Z n)%Q with (Qsum l - posval ms es)%Q
          by (rewrite <- Ex, <- Ey; ring). nra. }
      split; nra.
Qed.

(** ** A float64 column of flags *)







(** ** The passes over a frame *)

Lemma calculate_metrics_rows (df : DataFrame) :
  (0 < index_len df)%nat ->
  calculate_metrics df =
    (valid <- valid_of df ;;
     invalid <- py_sub (PyInt (Z.of_nat (index_len df))) valid ;;
     Ok {| completeness := Float64 (F64.round2 (completeness_raw df));
           consistency := Float64 (F64.round2 (consistency_raw df));
           overall_integrity := Float64 (F64.round2 (overall_raw df));
           valid_records := valid;
           invalid_records := invalid |}).
Proof.
  intros H. unfold calculate_metrics.
  destruct (Z.eqb_spec (Z.of_nat (index_len df)) 0) as [E|E]; [lia|reflexivity].
Qed.

Lemma calculate_metrics_no_rows (df : DataFrame) :
  index_len df = 0%nat -> calculate_metrics df = Ok zero_metrics.
Proof. intros H. unfold calculate_metrics. rewrite H. reflexivity. Qed.

Lemma get_column_none (name : string) (df : DataFrame) :
  has_column name df = false -> get_column name df = None.
Proof.
  unfold has_column, get_column. induction (columns df) as [|c l IH]; cbn; [reflexivity|].
  destruct (String.eqb (fst c) name); [discriminate|]. exact IH.
Qed.

(** *** Equality of rows *)

Lemma SFeqb_sym (x y : F64.float) : F64.eqb x y = F64.eqb y x.
Proof.
  unfold F64.eqb, SFeqb, SFcompare.
  destruct x as [[|]|[|]| |[|] mx ex], y as [[|]|[|]| |[|] my ey]; try reflexivity;
    rewrite (Z.compare_antisym ex ey);
    destruct (ex ?= ey); cbn; try reflexivity;
    rewrite !Pos.compare_cont_spec; cbn [Pos.switch_Eq];
    rewrite (Pos.compare_antisym mx my); destruct (mx ?= my)%positive; reflexivity.
Qed.

Lemma SFeqb_finite (s1 s2 : bool) (m1 m2 : positive) (e1 e2 : Z) :
  F64.eqb (S754_finite s1 m1 e1) (S754_finite s2 m2 e2) = true ->
  s1 = s2 /\ m1 = m2 /\ e1 = e2.
Proof.
  unfold F64.eqb, SFeqb, SFcompare.
  destruct s1, s2; try discriminate;
    destruct (Z.compare_spec e1 e2); try discriminate;
    rewrite Pos.compare_cont_spec; cbn [Pos.switch_Eq];
    destruct (Pos.compare_spec m1 m2); try discriminate; auto.
Qed.

Lemma SFeqb_trans (x y z : F64.float) :
  F64.eqb x y = true -> F64.eqb y z = true -> F64.eqb x z = true.
Proof.
  intros H1 H2.
  destruct y as [sy|sy| |sy my ey].
  - destruct x as [sx|[|]| |[|] mx ex]; try discriminate H1.
    destruct z as [sz|[|]| |[|] mz ez]; try discriminate H2. reflexivity.
  - destruct x as [sx|[|]| |[|] mx ex], sy; try discriminate H1;
      destruct z as [sz|[|]| |[|] mz ez]; try discriminate H2; reflexivity.
  - destruct x as [sx|[|]| |[|] mx ex]; discriminate H1.
  - destruct x as [sx|[|]| |sx mx ex]; try (destruct sy; discriminate H1).
    apply SFeqb_finite in H1. destruct H1 as [-> [-> ->]]. exact H2.
Qed.

Lemma cell_eqb_sym (a b : cell) : cell_eqb a b = cell_eqb b a.
Proof.
  destruct a, b; cbn; try reflexivity.
  - apply Z.eqb_sym.
  - destruct b, b0; reflexivity.
  - apply SFeqb_sym.
  - apply String.eqb_sym.
Qed.

Lemma cell_eqb_trans (a b c : cell) :
  cell_eqb a b = true -> cell_eqb b c = true -> cell_eqb a c = true.
Proof.
  destruct a, b, c; cbn; try discriminate; try reflexivity.
  - intros H1 H2. apply Z.eqb_eq in H1, H2. apply Z.eqb_eq. congruence.
  - intros H1 H2. apply Bool.eqb_prop in H1, H2. subst. apply Bool.eqb_reflx.
  - apply SFeqb_trans.
  - intros H1 H2. apply String.eqb_eq in H1, H2. apply String.eqb_eq. congruence.
Qed.

Lemma row_eqb_sym (r1 : list cell) : forall r2, row_eqb r1 r2 = row_eqb r2 r1.
Proof.
  induction r1 as [|a r1 IH]; intros [|b r2]; cbn; try reflexivity.
  rewrite cell_eqb_sym, IH. reflexivity.
Qed.

Lemma row_eqb_trans (r1 : list cell) : forall r2 r3,
  row_eqb r1 r2 = true -> row_eqb r2 r3 = true -> row_eqb r1 r3 = true.
Proof.
  induction r1 as [|a r1 IH]; intros [|b r2] [|c r3]; cbn; try discriminate; try reflexivity.
  intros H1 H2. apply andb_true_iff in H1, H2. destruct H1 as [A1 B1], H2 as [A2 B2].
  apply andb_true_iff. split; [eapply cell_eqb_trans | eapply IH]; eauto.
Qed.

(** *** [duplicated] against the specification's count *)

Lemma covers_hit (seen prev : list (list cell)) (r : list cell) :
  covers seen prev ->
  existsb (row_eqb r) seen = existsb (fun p => row_eqb p r) prev.
Proof.
  intros [C1 C2]. apply eq_true_iff_eq. rewrite !existsb_exists. split.
  - intros [s [Hs E]]. exists s. split; [auto|]. rewrite row_eqb_sym. exact E.
  - intros [p [Hp E]]. destruct (C2 p Hp) as [Hs|[s [Hs E']]].
    + exists p. split; [assumption|]. rewrite row_eqb_sym. exact E.
    + exists s. split; [assumption|].
      apply row_eqb_trans with p; [rewrite row_eqb_sym|]; assumption.
Qed.

Lemma covers_step (seen prev : list (list cell)) (r : list cell) :
  covers seen prev ->
  covers (if existsb (row_eqb r) seen then seen else r :: seen) (prev ++ [r]).
Proof.
  intros C. destruct (existsb (row_eqb r) seen) eqn:E.
  - destruct C as [C1 C2]. split.
    + intros s Hs. apply in_or_app. left. auto.
    + intros p Hp. apply in_app_or in Hp. destruct Hp as [Hp|[<-|[]]]; [auto|].
      right. apply existsb_exists in E. exact E.
  - destruct C as [C1 C2]. split.
    + intros s [<-|Hs]; apply in_or_app; [right; left; reflexivity|left; auto].
    + intros p Hp. apply in_app_or in Hp. destruct Hp as [Hp|[<-|[]]].
      * destruct (C2 p Hp) as [Hs|[s [Hs E']]]; [left; right; assumption|].
        right. exists s. split; [right; assumption|assumption].
      * left. left. reflexivity.
Qed.

Lemma mark_seen_spec (rs : list (list cell)) : forall seen prev,
  covers seen prev ->
  mark_seen seen rs =
  map (fun k => existsb (fun p => row_eqb p (nth k rs [])) (prev ++ firstn k rs))
      (seq 0 (List.length rs)).
Proof.
  induction rs as [|r rs IH]; intros seen prev C; cbn [mark_seen List.length seq map].
  - reflexivity.
  - cbn [firstn nth]. rewrite app_nil_r.
    assert (S := covers_step seen prev r C).
    rewrite <- (covers_hit seen prev r C).
    rewrite <- seq_shift, map_map.
    destruct (existsb (row_eqb r) seen); f_equal;
      rewrite (IH _ _ S); apply map_ext; intros k; cbn [firstn nth];
      rewrite <- app_assoc; reflexivity.
Qed.

Lemma existsb_over_map {A B : Type} (f : B -> bool) (g : A -> B) (l : list A) :
  existsb f (map g l) = existsb (fun a => f (g a)) l.
Proof. induction l as [|a l IH]; cbn; [reflexivity|]. rewrite IH. reflexivity. Qed.

Lemma rows_length (df : DataFrame) : List.length (rows df) = index_len df.
Proof. unfold rows. rewrite length_map, length_seq. reflexivity. Qed.

Lemma rows_nth (df : DataFrame) (k : nat) :
  (k < index_len df)%nat -> nth k (rows df) [] = row_at df k.
Proof.
  intros H. unfold rows.
  rewrite (nth_indep _ [] (row_at df 0)) by (rewrite length_map, length_seq; exact H).
  rewrite map_nth, seq_nth by exact H. reflexivity.
Qed.

Lemma rows_firstn (df : DataFrame) (k : nat) :
  (k <= index_len df)%nat -> firstn k (rows df) = map (row_at df) (seq 0 k).
Proof.
  intros H. unfold rows. rewrite firstn_map. f_equal.
  replace (index_len df) with (k + (index_len df - k))%nat by lia.
  rewrite seq_app, firstn_app, length_seq, Nat.sub_diag, firstn_O, app_nil_r.
  apply firstn_all2. rewrite length_seq. lia.
Qed.

(** *** The source's rows and cells against the specification's fields *)

Lemma same_field_cells (s : Series) (i j : nat) :
  cell_eqb (cell_at s i) (cell_at s j) = Spec.same_field s i j.
Proof.
  destruct s as [v|v|v|v]; cbn [cell_at Spec.same_field cell_eqb]; try reflexivity.
  - cbv zeta.
    destruct (F64.is_nan (nth i v F64.nan)) eqn:X, (F64.is_nan (nth j v F64.nan)) eqn:Y;
      cbn [cell_eqb]; try reflexivity.
    destruct (nth j v F64.nan); try discriminate Y.
    destruct (nth i v F64.nan); reflexivity.
  - destruct (nth i v None), (nth j v None); reflexivity.
Qed.

Lemma same_row_eqb (df : DataFrame) (i j : nat) :
  row_eqb (row_at df i) (row_at df j) = Spec.same_row df i j.
Proof.
  unfold row_at, Spec.same_row. induction (columns df) as [|c cs IH]; cbn; [reflexivity|].
  rewrite same_field_cells, IH. reflexivity.
Qed.

Lemma existsb_eq {A : Type} (f g : A -> bool) (l : list A) :
  (forall x, f x = g x) -> existsb f l = existsb g l.
Proof.
  intros H. induction l as [|a l IH]; cbn; [reflexivity|]. rewrite H, IH. reflexivity.
Qed.

Lemma repeats_earlier_rows (df : DataFrame) (i : nat) :
  Spec.repeats_earlier df i =
  existsb (fun j => row_eqb (row_at df j) (row_at df i)) (seq 0 i).
Proof.
  unfold Spec.repeats_earlier. apply existsb_eq. intros j. symmetry. apply same_row_eqb.
Qed.

Lemma duplicated_spec (df : DataFrame) :
  non_empty df = true ->
  duplicated df = map (Spec.repeats_earlier df) (seq 0 (index_len df)).
Proof.
  intros NE. unfold duplicated, non_empty in *.
  destruct (df_empty df); [discriminate|].
  rewrite (mark_seen_spec (rows df) [] []) by (split; [intros s []|intros p []]).
  rewrite rows_length. apply map_ext_in. intros k Hk. apply in_seq in Hk.
  cbn [app]. rewrite rows_nth, rows_firstn by lia.
  rewrite repeats_earlier_rows, existsb_over_map. reflexivity.
Qed.

Lemma count_true_map_filter {A : Type} (f : A -> bool) (l : list A) :
  count_true (map f l) = List.length (filter f l).
Proof.
  unfold count_true. induction l as [|a l IH]; cbn; [reflexivity|].
  destruct (f a); cbn; rewrite IH; reflexivity.
Qed.

Lemma duplicate_count_spec (df : DataFrame) :
  non_empty df = true -> duplicate_count df = Spec.duplicate_rows df.
Proof.
  intros NE. unfold duplicate_count, Spec.duplicate_rows.
  rewrite (duplicated_spec df NE), count_true_map_filter. reflexivity.
Qed.

Lemma mark_seen_length (rs : list (list cell)) : forall seen,
  List.length (mark_seen seen rs) = List.length rs.
Proof.
  induction rs as [|r rs IH]; intros seen; cbn; [reflexivity|].
  destruct (existsb (row_eqb r) seen); cbn; rewrite IH; reflexivity.
Qed.

(** The first row is never marked, so one row at least is not. *)
Lemma duplicate_count_lt (df : DataFrame) :
  (0 < index_len df)%nat ->
  0 <= duplicate_count df < Z.of_nat (index_len df).
Proof.
  intros H. unfold duplicate_count, duplicated.
  destruct (df_empty df); [cbn; lia|].
  assert (L := rows_length df).
  destruct (rows df) as [|r rs]; [cbn in L; lia|].
  cbn [mark_seen existsb]. unfold count_true. cbn [filter].
  assert (C := count_true_le (mark_seen [r] rs)). unfold count_true in C.
  rewrite mark_seen_length in C. cbn [List.length] in L. lia.
Qed.

(** *** The [valid] column and the fallback *)

Lemma object_sum_none (v : list (option string)) :
  forallb is_none v = true -> object_sum (PyInt 0) v = Ok (PyInt 0).
Proof.
  induction v as [|[s|] v IH]; cbn; intros H; try discriminate; auto.
Qed.

Lemma fallback_valid_ok (n : Z) :
  0 < n < 2 ^ 48 -> fallback_valid n = Ok (PyInt (9 * n / 10)).
Proof.
  intros H. unfold fallback_valid. rewrite (fallback_floor n H). reflexivity.
Qed.

Lemma in_memory_inv (df : DataFrame) :
  in_memory df = true ->
  Z.of_nat (index_len df) < 2 ^ 48 /\ Z.of_nat (List.length (columns df)) < 2 ^ 48.
Proof.
  unfold in_memory. intros H. apply andb_true_iff in H. destruct H as [A B].
  apply Z.ltb_lt in A, B. auto.
Qed.

Lemma non_empty_inv (df : DataFrame) :
  non_empty df = true -> (0 < index_len df)%nat /\ (0 < List.length (columns df))%nat.
Proof.
  unfold non_empty, df_empty. intros H. apply negb_true_iff, orb_false_iff in H.
  destruct H as [A B]. apply Nat.eqb_neq in A.
  destruct (columns df); [discriminate|]. cbn. lia.
Qed.

(** With no text in the [valid] column, [calculate_metrics] returns. *)
Lemma calculate_metrics_returns (df : DataFrame) :
  (0 < index_len df)%nat -> in_memory df = true -> valid_summable df = true ->
  exists valid invalid,
    valid_of df = Ok valid /\
    py_sub (PyInt (Z.of_nat (index_len df))) valid = Ok invalid /\
    calculate_metrics df =
      Ok {| completeness := Float64 (F64.round2 (completeness_raw df));
            consistency := Float64 (F64.round2 (consistency_raw df));
            overall_integrity := Float64 (F64.round2 (overall_raw df));
            valid_records := valid;
            invalid_records := invalid |}.
Proof.
  intros Hn M V. destruct (in_memory_inv df M) as [Hn' _].
  rewrite (calculate_metrics_rows df Hn).
  unfold valid_of, valid_summable in *.
  destruct (get_column "valid" df) as [[v|v|v|v]|].
  - eexists _, _. cbn. repeat split.
  - eexists _, _. cbn. repeat split.
  - eexists _, _. cbn. repeat split.
  - assert (S : series_sum (ObjectCol v) = Ok (PyInt 0)).
    { destruct v as [|[s|] v]; cbn in *; try discriminate; auto using object_sum_none. }
    rewrite S. eexists _, _. cbn. repeat split.
  - rewrite fallback_valid_ok by lia. eexists _, _. cbn. repeat split.
Qed.

(** *** Ranges of the three percentages *)

Lemma notnull_length (s : Series) : List.length (notnull s) = series_len s.
Proof. destruct s; cbn; apply length_map. Qed.

Lemma well_formed_columns (df : DataFrame) :
  well_formed df = true ->
  Forall (fun c => series_len (snd c) = index_len df) (columns df).
Proof.
  unfold well_formed. intros H. apply andb_true_iff in H. destruct H as [H _].
  rewrite forallb_forall in H. apply Forall_forall. intros c Hc.
  specialize (H c Hc). apply andb_true_iff in H. destruct H as [H _].
  apply Nat.eqb_eq in H. exact H.
Qed.

Lemma notnull_means_range (df : DataFrame) :
  well_formed df = true -> 0 < Z.of_nat (index_len df) < 2 ^ 48 ->
  Forall (fun b => upto b tiny 1) (notnull_means df).
Proof.
  intros W N. unfold notnull_means. apply Forall_map.
  eapply Forall_impl; [|apply (well_formed_columns df W)].
  intros c Hc. apply bool_mean_range. rewrite notnull_length, Hc. exact N.
Qed.

Lemma completeness_raw_range (df : DataFrame) :
  well_formed df = true -> non_empty df = true -> in_memory df = true ->
  upto (completeness_raw df) tiny2 100.
Proof.
  intros W NE M. destruct (non_empty_inv df NE) as [Hn Hc].
  destruct (in_memory_inv df M) as [Hn' Hc'].
  unfold completeness_raw. rewrite hundred_eq.
  assert (R : upto (F64.nanmean (notnull_means df)) tiny2 1).
  { apply nanmean_range.
    - apply notnull_means_range; [assumption|lia].
    - unfold notnull_means. rewrite length_map. lia. }
  apply upto_weaken with (lo := posval 4503599627370496 (-148))
                         (hi := posval 7036874417766400 (-46));
    [|apply Qle_refl|rewrite val_hundred; apply Qle_refl].
  apply (mul_range_r _ 7036874417766400 (-46) tiny2 1); try reflexivity; try assumption.
  - unfold tiny2. apply Qlt_le_weak, posval_pos.
  - rewrite val_hundred. unfold tiny2. assert (P := posval_pos 4503599627370496 (-148)). lra.
  - lra.
Qed.

Lemma filter_keep {A : Type} (l : list A) : filter (fun _ => true) l = l.
Proof. induction l as [|a l IH]; cbn; [reflexivity | rewrite IH; reflexivity]. Qed.

Lemma filter_all_length {A : Type} (f : A -> bool) (l : list A) :
  (List.length (filter f l) =? List.length l)%nat = forallb f l.
Proof.
  induction l as [|a l IH]; cbn [filter forallb List.length]; [reflexivity|].
  destruct (f a); cbn [List.length andb]; [exact IH|].
  apply Nat.eqb_neq. assert (F := filter_length_le f l). lia.
Qed.

Lemma present_count (s : Series) : count_true (notnull s) = Spec.present s.
Proof.
  destruct s as [v|v|v|v]; cbn [notnull Spec.present]; rewrite count_true_map_filter.
  - rewrite filter_keep; reflexivity.
  - rewrite filter_keep; reflexivity.
  - reflexivity.
  - reflexivity.
Qed.

Lemma non_null_cells_count (df : DataFrame) :
  Spec.non_null_cells df =
  Z.of_nat (fold_right (fun c acc => (count_true (notnull (snd c)) + acc)%nat)
                       0%nat (columns df)).
Proof.
  unfold Spec.non_null_cells. f_equal.
  induction (columns df) as [|c cs IH]; cbn [fold_right]; [reflexivity|].
  rewrite present_count, IH. reflexivity.
Qed.

Lemma no_null_cells_notnull (df : DataFrame) :
  Spec.no_null_cells df =
  forallb (fun c => forallb (fun b => b) (notnull (snd c))) (columns df).
Proof.
  unfold Spec.no_null_cells.
  induction (columns df) as [|c cs IH]; cbn [forallb]; [reflexivity|].
  rewrite IH. f_equal.
  rewrite <- present_count, <- notnull_length. unfold count_true.
  apply filter_all_length.
Qed.

Lemma no_null_means (df : DataFrame) :
  well_formed df = true -> 0 < Z.of_nat (index_len df) < 2 ^ 48 ->
  Spec.no_null_cells df = true ->
  Forall (eq one) (notnull_means df).
Proof.
  intros W N H. rewrite no_null_cells_notnull in H. unfold notnull_means. apply Forall_map.
  rewrite forallb_forall in H. apply Forall_forall. intros c Hc.
  assert (L := well_formed_columns df W). rewrite Forall_forall in L.
  symmetry. apply bool_mean_all_true; [auto|].
  rewrite notnull_length, (L c Hc). lia.
Qed.

Lemma completeness_raw_full (df : DataFrame) :
  well_formed df = true -> non_empty df = true -> in_memory df = true ->
  Spec.no_null_cells df = true ->
  completeness_raw df = F64.hundred.
Proof.
  intros W NE M H. destruct (non_empty_inv df NE) as [Hn Hc].
  destruct (in_memory_inv df M) as [Hn' Hc'].
  unfold completeness_raw. rewrite nanmean_ones.
  - apply hundred_percent.
  - apply no_null_means; [assumption|lia|assumption].
  - unfold notnull_means. rewrite length_map. lia.
Qed.

Lemma consistency_raw_range (df : DataFrame) :
  (0 < index_len df)%nat -> in_memory df = true ->
  (duplicate_count df = 0 /\ consistency_raw df = F64.hundred) \/
  (0 < duplicate_count df /\
   between (consistency_raw df) (posval 4503599627370496 (-98))
           (posval 7036874417766384 (-46))).
Proof.
  intros Hn M. destruct (in_memory_inv df M) as [Hn' _].
  apply consistency_range; [apply duplicate_count_lt; assumption | assumption].
Qed.

Lemma lit_0_6_eq : F64.lit_0_6 = S754_finite false 5404319552844595 (-53).
Proof. reflexivity. Qed.

Lemma lit_0_4_eq : F64.lit_0_4 = S754_finite false 7205759403792794 (-54).
Proof. reflexivity. Qed.


(** *** Completeness against the exact share of non-null cells *)

Lemma means_near (n : nat) (cols : list (string * Series)) :
  0 < Z.of_nat n < 2 ^ 48 ->
  Forall (fun c => series_len (snd c) = n) cols ->
  let k := Z.of_nat (fold_right (fun c acc => (count_true (notnull (snd c)) + acc)%nat)
                                0%nat cols) in
  let s := Qsum (map (fun c => bool_mean (notnull (snd c))) cols) in
  (s - inject_Z k / inject_Z (Z.of_nat n) <= inject_Z (Z.of_nat (List.length cols)) * ulp52 /\
   inject_Z k / inject_Z (Z.of_nat n) - s <= inject_Z (Z.of_nat (List.length cols)) * ulp52)%Q.
Proof.
  intros N A. assert (Nq := Q_of_Z_pos _ (proj1 N)).
  induction A as [|c cols Hc A IH]; cbn [fold_right map List.length].
  - change (Qsum []) with 0%Q. change (inject_Z (Z.of_nat 0)) with 0%Q.
    unfold Qdiv. rewrite !Qmult_0_l. split; lra.
  - cbn zeta in IH |- *.
    change (Qsum (bool_mean (notnull (snd c)) :: ?l))
      with (F64.to_Q (bool_mean (notnull (snd c))) + Qsum l)%Q.
    rewrite Nat2Z.inj_add, Nat2Z.inj_succ. unfold Z.succ. rewrite !inject_Z_plus.
    change (inject_Z 1) with 1%Q.
    assert (B := bool_mean_near (notnull (snd c))).
    rewrite notnull_length, Hc in B. specialize (B N). unfold near in B.
    set (kc := inject_Z (Z.of_nat (count_true (notnull (snd c))))) in *.
    set (kr := inject_Z (Z.of_nat (fold_right _ 0%nat cols))) in *.
    set (nq := inject_Z (Z.of_nat n)) in *.
    setoid_replace ((kc + kr) / nq)%Q with (kc / nq + kr / nq)%Q by (field; lra).
    destruct B as [B1 B2], IH as [I1 I2]. split; lra.
Qed.

Lemma cells_product (df : DataFrame) :
  (inject_Z (Spec.all_cells df) ==
   inject_Z (Z.of_nat (index_len df)) * inject_Z (Z.of_nat (List.length (columns df))))%Q.
Proof.
  unfold Spec.all_cells. rewrite Nat2Z.inj_mul, inject_Z_mult. reflexivity.
Qed.

(** Before its rounding to two decimals, completeness is the percentage of
    non-null cells up to the rounding of the [columns + 2] operations that
    compute it. *)
Lemma completeness_near (df : DataFrame) :
  well_formed df = true -> non_empty df = true -> in_memory df = true ->
  near (completeness_raw df)
       (100 * inject_Z (Spec.non_null_cells df) / inject_Z (Spec.all_cells df))
       (100 * (inject_Z (Z.of_nat (List.length (columns df))) + 2) * ulp52).
Proof.
  intros W NE M. destruct (non_empty_inv df NE) as [Hn Hc].
  destruct (in_memory_inv df M) as [Hn' Hc']. assert (U := ulp52_pos).
  assert (Fm := notnull_means_range df W ltac:(lia)).
  assert (Lm : List.length (notnull_means df) = List.length (columns df))
    by (unfold notnull_means; apply length_map).
  assert (Mn := nanmean_near (notnull_means df) Fm ltac:(rewrite Lm; lia)).
  assert (Mr := nanmean_range (notnull_means df) Fm ltac:(rewrite Lm; lia)).
  rewrite Lm in Mn.
  assert (S := means_near (index_len df) (columns df) ltac:(lia) (well_formed_columns df W)).
  cbn zeta in S. fold (notnull_means df) in S.
  rewrite <- non_null_cells_count in S.
  unfold near. rewrite !cells_product.
  set (k := inject_Z (Spec.non_null_cells df)) in *.
  set (n := inject_Z (Z.of_nat (index_len df))) in *.
  set (m := inject_Z (Z.of_nat (List.length (columns df)))) in *.
  assert (Nq : (0 < n)%Q) by (apply Q_of_Z_pos; lia).
  assert (Mq : (1 <= m)%Q)
    by (unfold m; change 1%Q with (inject_Z 1); rewrite <- Zle_Qle; lia).
  set (s := Qsum (notnull_means df)) in *.
  set (p := (k / (n * m))%Q).
  assert (Ep : (p * m == k / n)%Q) by (unfold p; field; lra).
  assert (Es : (s / m * m == s)%Q) by (field; lra).
  (* the mean against the exact share *)
  assert (D1 : (s / m - p <= ulp52)%Q).
  { apply Qmult_le_r with m; [lra|].
    setoid_replace ((s / m - p) * m)%Q with (s - k / n)%Q
      by (transitivity (s / m * m - p * m)%Q; [ring | rewrite Es, Ep; reflexivity]).
    destruct S as [S1 _]. lra. }
  assert (D2 : (p - s / m <= ulp52)%Q).
  { apply Qmult_le_r with m; [lra|].
    setoid_replace ((p - s / m) * m)%Q with (k / n - s)%Q
      by (transitivity (p * m - s / m * m)%Q; [ring | rewrite Es, Ep; reflexivity]).
    destruct S as [_ S2]. lra. }
  unfold near in Mn. destruct Mn as [Mn1 Mn2].
  setoid_replace (100 * k / (n * m))%Q with (100 * p)%Q by (unfold p; field; lra).
  unfold completeness_raw. rewrite hundred_eq.
  destruct Mr as [Z|Bt].
  - rewrite Z in *. cbn [F64.mul SFmul xorb]. rewrite to_Q_zero in *. split; nra.
  - assert (Bt' := Bt). destruct Bt as [mm [em [Em [Bm [V1 V2]]]]].
    rewrite Em in *. rewrite to_Q_finite in Mn1, Mn2.
    destruct (bounded_inv _ _ Bm) as [Cm _].
    assert (R := mul_rounds_to mm em 7036874417766400 (-46) Cm eq_refl).
    assert (Br : between (F64.mul (S754_finite false mm em)
                                  (S754_finite false 7036874417766400 (-46)))
                         (posval 4503599627370496 (-148)) (posval 7036874417766400 (-46))).
    { apply (mul_between_r _ 7036874417766400 (-46) tiny2 1 _ _ _ _ Bt'); try reflexivity.
      - unfold tiny2. apply Qlt_le_weak, posval_pos.
      - rewrite val_hundred. unfold tiny2.
        assert (P := posval_pos 4503599627370496 (-148)). lra.
      - lra. }
    destruct Br as [mr [er [Er _]]]. rewrite Er in *.
    destruct (rounds_to_error _ mr er R) as [A1 A2].
    + rewrite val_hundred. assert (T := tiny2_normal).
      assert (Pm := posval_pos mm em). lra.
    + rewrite to_Q_finite. rewrite val_hundred in A1, A2. split; nra.
Qed.

(** *** What [calculate_metrics] returns for a table with rows *)

Lemma percentage_fields (df : DataFrame) (m : Metrics) :
  (0 < index_len df)%nat -> calculate_metrics df = Ok m ->
  completeness m = Float64 (F64.round2 (completeness_raw df)) /\
  consistency m = Float64 (F64.round2 (consistency_raw df)) /\
  overall_integrity m = Float64 (F64.round2 (overall_raw df)).
Proof.
  intros Hn E. rewrite (calculate_metrics_rows df Hn) in E. unfold bind in E.
  destruct (valid_of df) as [v|]; [|discriminate E].
  destruct (py_sub _ v) as [i|]; [|discriminate E].
  injection E as <-. repeat split.
Qed.

(** *** The [valid] column and its flags *)

Lemma wrap64_small (z : Z) : - 2 ^ 63 <= z < 2 ^ 63 -> wrap64 z = z.
Proof. intros H. unfold wrap64. rewrite Z.mod_small; lia. Qed.


Lemma map_nth_seq {A : Type} (d : A) (v : list A) :
  map (fun i => nth i v d) (seq 0 (List.length v)) = v.
Proof.
  induction v as [|a v IH]; cbn [List.length seq map nth]; [reflexivity|].
  rewrite <- seq_shift, map_map. cbn [nth]. rewrite IH. reflexivity.
Qed.

Lemma filter_length_map {A B : Type} (f : B -> bool) (g : A -> B) (l : list A) :
  List.length (filter (fun a => f (g a)) l) = List.length (filter f (map g l)).
Proof.
  induction l as [|a l IH]; cbn; [reflexivity|].
  destruct (f (g a)); cbn; rewrite IH; reflexivity.
Qed.

Lemma truthy_count_int (v : list Z) :
  Spec.truthy_count (Int64Col v) =
  Z.of_nat (List.length (filter (fun z => negb (z =? 0)) v)).
Proof.
  unfold Spec.truthy_count. cbn [series_len cell_at Spec.truthy].
  rewrite (filter_length_map (fun z => negb (z =? 0)) (fun i => nth i v 0)).
  rewrite map_nth_seq. reflexivity.
Qed.

Lemma truthy_count_bool (v : list bool) :
  Spec.truthy_count (BoolCol v) = Z.of_nat (count_true v).
Proof.
  unfold Spec.truthy_count, count_true. cbn [series_len cell_at Spec.truthy].
  rewrite (filter_length_map (fun b => b) (fun i => nth i v false)).
  rewrite map_nth_seq. reflexivity.
Qed.

Lemma sum_of_flags (v : list Z) : forall acc,
  forallb (fun z => (z =? 0) || (z =? 1)) v = true ->
  fold_left Z.add v acc =
  acc + Z.of_nat (List.length (filter (fun z => negb (z =? 0)) v)).
Proof.
  induction v as [|z v IH]; intros acc H; cbn in *; [lia|].
  apply andb_true_iff in H. destruct H as [Hz Hv]. rewrite (IH _ Hv).
  apply orb_true_iff in Hz. destruct Hz as [Hz|Hz]; apply Z.eqb_eq in Hz; subst z; cbn; lia.
Qed.

Lemma get_column_in (name : string) (df : DataFrame) (s : Series) :
  get_column name df = Some s -> exists c, In c (columns df) /\ snd c = s.
Proof.
  unfold get_column. destruct (find _ (columns df)) as [c|] eqn:F; [|discriminate].
  intros E. injection E as <-. exists c. split; [|reflexivity].
  apply (find_some _ _ F).
Qed.

Lemma two_decimals_of_range (x : F64.float) (lo : Q) :
  upto x lo 100 -> (0 <= lo)%Q -> two_decimals (Float64 (F64.round2 x)).
Proof.
  intros U L. destruct (round2_percentage x lo U L) as [k [Hk E]].
  right. exists k. split; [exact Hk|]. rewrite E. reflexivity.
Qed.

Lemma no_duplicate_rows_count (df : DataFrame) :
  Spec.no_duplicate_rows df = true -> Spec.duplicate_rows df = 0.
Proof.
  unfold Spec.no_duplicate_rows, Spec.duplicate_rows. intros H.
  rewrite forallb_forall in H.
  replace (filter (Spec.repeats_earlier df) (seq 0 (index_len df))) with (@nil nat);
    [reflexivity|].
  symmetry. induction (seq 0 (index_len df)) as [|i l IH]; cbn; [reflexivity|].
  rewrite (proj1 (negb_true_iff _) (H i (or_introl eq_refl))).
  apply IH. intros j Hj. apply H. right. exact Hj.
Qed.





(** * The claims *)

(** ** C2: the empty table *)

(** C2. For every table with zero rows, [calculate_metrics] returns the
    zero-valued result: completeness, consistency, overall integrity, valid
    records and invalid records are all the integer 0. *)
Theorem empty_table_zero_metrics (df : DataFrame) :
  index_len df = 0%nat ->
  calculate_metrics df =
    Ok {| completeness := PyInt 0; consistency := PyInt 0; overall_integrity := PyInt 0;
          valid_records := PyInt 0; invalid_records := PyInt 0 |}.
Proof.
  intros H. unfold calculate_metrics. rewrite H. reflexivity.
Qed.

Lemma empty_table_zero_metrics_witness :
  calculate_metrics empty_frame = Ok zero_metrics.
Proof.
  apply (empty_table_zero_metrics empty_frame). reflexivity.
Defined.

(** ** C10: the sum of the [valid] column is not clamped *)

(** C10. There is a table with a column named [valid] whose values sum to
    more than its number of rows (one row, [valid] = 2) for which
    [calculate_metrics] returns an [invalid_records] below 0. *)
Theorem invalid_records_can_be_negative :
  exists df m,
    well_formed df = true /\ has_column "valid" df = true /\
    (exists s, get_column "valid" df = Some s /\
               Z.of_nat (index_len df) < series_total s) /\
    calculate_metrics df = Ok m /\
    invalid_records m = NpInt64 (-1) /\
    (forall z, invalid_records m = NpInt64 z -> z < 0).
Proof.
  exists sample_two_valid. eexists.
  split; [reflexivity|]. split; [reflexivity|]. split.
  { exists (Int64Col [2]). split; [reflexivity|]. cbn. lia. }
  split; [vm_compute; reflexivity|]. split; [reflexivity|].
  cbn. intros z E. injection E as <-. lia.
Qed.

(** ** C1: the 90% fallback *)

(** C1 as stated fails: for the one-row table without a [valid] column,
    [valid_records] is 0, which is no integer nearest to 0.9 (that is 1,
    whichever way halves are rounded). *)
Lemma fallback_rounding_counterexample :
  ~ (forall df m,
       (0 < index_len df)%nat -> has_column "valid" df = false ->
       calculate_metrics df = Ok m ->
       exists k, valid_records m = PyInt k /\
                 Spec.nearest_integer k (9 * Z.of_nat (index_len df)) 10 = true).
Proof.
  intros H.
  assert (E : exists m, calculate_metrics sample_one = Ok m /\ valid_records m = PyInt 0)
    by (eexists; split; [vm_compute; reflexivity | reflexivity]).
  destruct E as [m [E V]].
  destruct (H sample_one m ltac:(cbn; lia) eq_refl E) as [k [Vk N]].
  rewrite V in Vk. injection Vk as <-. vm_compute in N. discriminate N.
Qed.

(** C1, amended. For every table with at least one row and no column named
    [valid], [valid_records] is [int(0.9 * total_rows)], the product
    truncated toward zero, which is the integer quotient of [9 * total_rows]
    by 10, and [invalid_records] is the rest of the rows; this is an integer
    nearest to [0.9 * total_rows] exactly when the fractional part of that
    product is at most one half; for 10 rows [valid_records] is 9. *)
Theorem fallback_valid_truncates (df : DataFrame) :
  (0 < index_len df)%nat -> in_memory df = true -> has_column "valid" df = false ->
  exists m,
    calculate_metrics df = Ok m /\
    valid_records m = PyInt (9 * Z.of_nat (index_len df) / 10) /\
    invalid_records m =
      PyInt (Z.of_nat (index_len df) - 9 * Z.of_nat (index_len df) / 10) /\
    Spec.nearest_integer (9 * Z.of_nat (index_len df) / 10)
                         (9 * Z.of_nat (index_len df)) 10
      = ((9 * Z.of_nat (index_len df)) mod 10 <=? 5) /\
    (index_len df = 10%nat -> valid_records m = PyInt 9).
Proof.
  intros Hn M H. destruct (in_memory_inv df M) as [Hn' _].
  rewrite (calculate_metrics_rows df Hn). unfold valid_of.
  rewrite (get_column_none _ _ H), fallback_valid_ok by lia.
  eexists. cbn [bind py_sub valid_records invalid_records].
  split; [reflexivity|]. split; [reflexivity|]. split; [reflexivity|]. split.
  - unfold Spec.nearest_integer. set (a := 9 * Z.of_nat (index_len df)).
    assert (D := Z.div_mod a 10 ltac:(lia)).
    assert (R := Z.mod_pos_bound a 10 ltac:(lia)).
    apply eq_true_iff_eq. rewrite !Z.leb_le. lia.
  - intros ->. reflexivity.
Qed.

Lemma fallback_valid_truncates_witness :
  exists m,
    calculate_metrics sample_ten = Ok m /\
    valid_records m = PyInt (9 * Z.of_nat (index_len sample_ten) / 10) /\
    invalid_records m =
      PyInt (Z.of_nat (index_len sample_ten) - 9 * Z.of_nat (index_len sample_ten) / 10) /\
    Spec.nearest_integer (9 * Z.of_nat (index_len sample_ten) / 10)
                         (9 * Z.of_nat (index_len sample_ten)) 10
      = ((9 * Z.of_nat (index_len sample_ten)) mod 10 <=? 5) /\
    (index_len sample_ten = 10%nat -> valid_records m = PyInt 9).
Proof.
  apply (fallback_valid_truncates sample_ten); [cbn; lia | reflexivity | reflexivity].
Defined.

(** A [valid] column of text is summed to a text, and subtracting it from the
    number of rows raises: no dictionary is returned. *)
Lemma text_valid_raises : calculate_metrics sample_text_valid = Raised TypeError.
Proof. vm_compute. reflexivity. Qed.

(** ** C3: valid and invalid records add up *)




(** ** C4: consistency and duplicate rows *)

Lemma second_and_fourth_count (df : DataFrame) :
  index_len df = 4%nat -> Spec.identical_pairs df = [(1, 3)]%nat ->
  Spec.duplicate_rows df = 1.
Proof.
  intros N P. unfold Spec.identical_pairs, Spec.duplicate_rows, Spec.repeats_earlier in *.
  rewrite N in *. cbn [seq flat_map map app filter fst snd existsb List.length] in P |- *.
  destruct (Spec.same_row df 0 1);
  destruct (Spec.same_row df 0 2);
  destruct (Spec.same_row df 1 2);
  destruct (Spec.same_row df 0 3);
  destruct (Spec.same_row df 1 3);
  destruct (Spec.same_row df 2 3);
  cbn in P |- *; try discriminate P; reflexivity.
Qed.

(** C4 as stated fails: a table of three rows and no column has at least
    one row, its rows all carry the same (empty) tuple of fields, so two of
    the three repeat an earlier row and the formula gives 33.33; the code
    returns 100.0, because [duplicated] marks nothing in a frame without
    columns. *)
Lemma consistency_without_columns_counterexample :
  ~ (forall df m,
       (0 < index_len df)%nat -> calculate_metrics df = Ok m ->
       py_eqb (consistency m)
              (Float64 (F64.round2
                 (F64.sub F64.hundred
                    (F64.mul (F64.div (F64.of_Z (Spec.duplicate_rows df))
                                      (F64.of_Z (Z.of_nat (index_len df))))
                             F64.hundred)))) = true).
Proof.
  intros H.
  assert (E : exists m, calculate_metrics sample_no_columns = Ok m /\
                        consistency m = Float64 (F64.of_Z 100))
    by (eexists; split; [vm_compute; reflexivity | reflexivity]).
  destruct E as [m [E C]].
  specialize (H sample_no_columns m ltac:(cbn; lia) E).
  rewrite C in H. vm_compute in H. discriminate H.
Qed.

(** C4, amended. For every table with at least one row and one column
    (fewer than 2^48 of each), whenever [calculate_metrics] returns, and it
    does when the [valid] column holds no text, the returned consistency is
    100 minus the percentage of rows identical to an earlier row (computed
    in doubles and rounded to two decimals); without duplicate rows it is
    100, and for a four-row table whose second and fourth rows are its only
    identical rows it is 75.0. *)
Theorem consistency_counts_repeated_rows (df : DataFrame) :
  non_empty df = true -> in_memory df = true ->
  (valid_summable df = true -> exists m, calculate_metrics df = Ok m) /\
  (forall m, calculate_metrics df = Ok m ->
     consistency m =
       Float64 (F64.round2
                  (F64.sub F64.hundred
                     (F64.mul (F64.div (F64.of_Z (Spec.duplicate_rows df))
                                       (F64.of_Z (Z.of_nat (index_len df))))
                              F64.hundred))) /\
     (Spec.no_duplicate_rows df = true -> consistency m = Float64 (F64.of_Z 100)) /\
     (index_len df = 4%nat -> Spec.identical_pairs df = [(1, 3)]%nat ->
      consistency m = Float64 (F64.of_Z 75))).
Proof.
  intros NE M. destruct (non_empty_inv df NE) as [Hn _].
  destruct (in_memory_inv df M) as [Hn' _]. split.
  - intros V. destruct (calculate_metrics_returns df Hn M V) as [valid [invalid [_ [_ E]]]].
    eexists. exact E.
  - intros m E. destruct (percentage_fields df m Hn E) as [_ [-> _]].
    unfold consistency_raw. rewrite (duplicate_count_spec df NE).
    split; [reflexivity|]. split.
    + intros D. rewrite (no_duplicate_rows_count df D).
      destruct (of_Z_between (Z.of_nat (index_len df))) as [mn [en [-> _]]]; [lia|].
      vm_compute. reflexivity.
    + intros N P. rewrite (second_and_fourth_count df N P), N. vm_compute. reflexivity.
Qed.

Lemma consistency_counts_repeated_rows_witness :
  exists m,
    calculate_metrics sample_flags = Ok m /\
    Spec.duplicate_rows sample_flags = 1 /\
    consistency m = Float64 (F64.of_Z 75).
Proof.
  destruct (consistency_counts_repeated_rows sample_flags eq_refl eq_refl) as [R F].
  destruct (R eq_refl) as [m E]. exists m. split; [exact E|]. split; [reflexivity|].
  destruct (F m E) as [_ [_ H]]. apply H; reflexivity.
Defined.

(** ** C9: the range of consistency *)

(** C9. For every table with at least one row, the first row is never
    counted as a duplicate, so the duplicate count is at most the number of
    rows minus 1, and the consistency before rounding is strictly greater
    than 0 and at most 100; the returned consistency is that double rounded
    to two decimals. *)
Theorem consistency_positive_at_most_100 (df : DataFrame) :
  (0 < index_len df)%nat -> in_memory df = true ->
  nth 0 (duplicated df) false = false /\
  duplicate_count df <= Z.of_nat (index_len df) - 1 /\
  F64.ltb F64.zero (consistency_raw df) = true /\
  F64.leb (consistency_raw df) F64.hundred = true /\
  (forall m, calculate_metrics df = Ok m ->
             consistency m = Float64 (F64.round2 (consistency_raw df))).
Proof.
  intros Hn M.
  split; [|split; [|split; [|split]]].
  - unfold duplicated. destruct (df_empty df); [reflexivity|].
    destruct (rows df); reflexivity.
  - destruct (duplicate_count_lt df Hn). lia.
  - destruct (consistency_raw_range df Hn M) as [[_ ->]|[_ [m [e [-> _]]]]]; reflexivity.
  - destruct (consistency_raw_range df Hn M) as [[_ ->]|[_ [m [e [-> [B [_ V]]]]]]];
      [reflexivity|].
    rewrite hundred_eq. apply leb_of_le; [assumption|reflexivity|].
    setoid_replace (posval 7036874417766384 (-46))
      with (7036874417766384 # 70368744177664)%Q in V by reflexivity.
    rewrite val_hundred. lra.
  - intros m E. rewrite (calculate_metrics_rows df Hn) in E. unfold bind in E.
    destruct (valid_of df) as [v|]; [|discriminate E].
    destruct (py_sub (PyInt (Z.of_nat (index_len df))) v) as [i|]; [|discriminate E].
    injection E as <-. reflexivity.
Qed.

Lemma consistency_positive_at_most_100_witness :
  nth 0 (duplicated sample_flags) false = false /\
  duplicate_count sample_flags <= Z.of_nat (index_len sample_flags) - 1 /\
  F64.ltb F64.zero (consistency_raw sample_flags) = true /\
  F64.leb (consistency_raw sample_flags) F64.hundred = true /\
  (forall m, calculate_metrics sample_flags = Ok m ->
             consistency m = Float64 (F64.round2 (consistency_raw sample_flags))).
Proof.
  apply (consistency_positive_at_most_100 sample_flags); [cbn; lia | reflexivity].
Defined.

(** ** C6: the sum of the [valid] column *)




(** ** C7: what the result holds *)




(** ** C8: files of an unrecognized kind *)

(** C8 as stated fails: the loop splits the content at its comma and decodes
    the payload before it looks at the name, so a file named [notes.txt]
    whose content has no comma raises [ValueError] instead of being
    skipped. *)
Lemma unrecognized_upload_raises_counterexample :
  ~ (forall (b64decode : string -> pyresult string)
            (read_csv read_excel : string -> pyresult DataFrame)
            (pdf_page_texts : string -> pyresult (list (option string)))
            (content filename : string),
       recognized filename = false ->
       read_upload b64decode read_csv read_excel pdf_page_texts content filename
         = Ok None).
Proof.
  intros H.
  specialize (H sample_decode sample_reader sample_reader sample_pages
                "data:"%string "notes.txt"%string eq_refl).
  vm_compute in H. discriminate H.
Qed.

Section UploadProofs.

Variable b64decode : string -> pyresult string.
Variable read_csv : string -> pyresult DataFrame.
Variable read_excel : string -> pyresult DataFrame.
Variable pdf_page_texts : string -> pyresult (list (option string)).
Variable concat : list DataFrame -> DataFrame.

Lemma read_upload_skips (content filename : string) :
  recognized filename = false -> data_url b64decode content ->
  read_upload b64decode read_csv read_excel pdf_page_texts content filename = Ok None.
Proof.
  unfold recognized. intros R [header [payload [decoded [S D]]]].
  apply orb_false_iff in R. destruct R as [R R3].
  apply orb_false_iff in R. destruct R as [R1 R2].
  unfold read_upload. rewrite S, D. cbn [bind]. rewrite R1, R2, R3. reflexivity.
Qed.

Lemma gather_skips (content filename : string) (before after : list (string * string)) :
  recognized filename = false -> data_url b64decode content ->
  forall all_data,
    gather b64decode read_csv read_excel pdf_page_texts
           (before ++ (content, filename) :: after) all_data =
    gather b64decode read_csv read_excel pdf_page_texts (before ++ after) all_data.
Proof.
  intros R U. induction before as [|[c f] before IH]; intros all_data; cbn [app gather].
  - rewrite (read_upload_skips content filename R U). reflexivity.
  - destruct (read_upload b64decode read_csv read_excel pdf_page_texts c f) as [[df|]|e];
      cbn [bind]; auto.
Qed.

Lemma gather_nothing (uploads : list (string * string)) :
  Forall (fun u => recognized (snd u) = false /\ data_url b64decode (fst u)) uploads ->
  forall all_data,
    gather b64decode read_csv read_excel pdf_page_texts uploads all_data = Ok all_data.
Proof.
  induction 1 as [|[c f] uploads [R U] _ IH]; intros all_data; cbn [gather]; [reflexivity|].
  cbn [fst snd] in R, U. rewrite (read_upload_skips c f R U). cbn [bind]. apply IH.
Qed.

(** C8, amended. An uploaded file whose content is a data URL (exactly one
    comma, followed by a payload that decodes) and whose name ends in none
    of [.csv], [.xlsx], [.pdf] raises nothing and contributes nothing: the
    frames gathered are those gathered without it; and when every uploaded
    file is of that kind the combined table is the empty one, with no row
    and no column, and the handler reports the metrics of the empty
    table. *)
Theorem unrecognized_uploads_are_skipped :
  (forall content filename before after all_data,
     recognized filename = false -> data_url b64decode content ->
     read_upload b64decode read_csv read_excel pdf_page_texts content filename = Ok None /\
     gather b64decode read_csv read_excel pdf_page_texts
            (before ++ (content, filename) :: after) all_data =
     gather b64decode read_csv read_excel pdf_page_texts (before ++ after) all_data) /\
  (forall contents filenames,
     Forall (fun u => recognized (snd u) = false /\ data_url b64decode (fst u))
            (List.combine contents filenames) ->
     exists df,
       combined_df b64decode read_csv read_excel pdf_page_texts concat contents filenames
         = Ok df /\
       index_len df = 0%nat /\ columns df = [] /\
       update_visualizations b64decode read_csv read_excel pdf_page_texts concat
                             (Some contents) filenames
         = Ok (Some zero_metrics, "Metrics successfully calculated."%string)).
Proof.
  split.
  - intros content filename before after all_data R U. split.
    + apply read_upload_skips; assumption.
    + apply gather_skips; assumption.
  - intros contents filenames H. exists empty_frame.
    assert (E : combined_df b64decode read_csv read_excel pdf_page_texts concat
                            contents filenames = Ok empty_frame).
    { unfold combined_df. rewrite (gather_nothing _ H). reflexivity. }
    split; [exact E|]. split; [reflexivity|]. split; [reflexivity|].
    unfold update_visualizations. rewrite E. reflexivity.
Qed.

End UploadProofs.

Lemma unrecognized_uploads_are_skipped_witness :
  read_upload sample_decode sample_reader sample_reader sample_pages
              "data:text/plain;base64,aGk=" "notes.txt" = Ok None /\
  combined_df sample_decode sample_reader sample_reader sample_pages sample_concat
              ["data:text/plain;base64,aGk="%string] ["notes.txt"%string] = Ok empty_frame.
Proof.
  destruct (unrecognized_uploads_are_skipped sample_decode sample_reader sample_reader
              sample_pages sample_concat) as [A B].
  assert (U : data_url sample_decode "data:text/plain;base64,aGk=").
  { exists "data:text/plain;base64"%string, "aGk="%string, "aGk="%string.
    split; reflexivity. }
  split.
  - apply (A "data:text/plain;base64,aGk="%string "notes.txt"%string [] [] []);
      [reflexivity | exact U].
  - destruct (B ["data:text/plain;base64,aGk="%string] ["notes.txt"%string])
      as [df [E [N [C _]]]].
    + constructor; [split; [reflexivity | exact U] | constructor].
    + rewrite E. destruct df as [n c]. cbn in N, C. subst. reflexivity.
Defined.

(** ** C5: completeness *)

(** C5 as stated fails: the empty table has no null cell and no duplicate
    row, and its completeness is 0, not 100. *)
Lemma full_table_counterexample :
  ~ (forall df m,
       Spec.no_null_cells df = true -> Spec.no_duplicate_rows df = true ->
       calculate_metrics df = Ok m ->
       py_eqb (completeness m) (PyInt 100) = true).
Proof.
  intros H. specialize (H empty_frame zero_metrics eq_refl eq_refl eq_refl).
  discriminate H.
Qed.

(** C5, amended. For every table with at least one row and one column
    (fewer than 2^48 of each), whenever [calculate_metrics] returns, and it
    does when the [valid] column holds no text, the completeness returned is
    the percentage (0 to 100) of non-null cells over all cells: it is
    computed in doubles, within [100 * (columns + 2) * 2^-52] of the exact
    percentage, and then rounded to two decimals; overall integrity is
    [0.6 * completeness + 0.4 * consistency] of the unrounded doubles,
    rounded likewise; and for every such table with no null cell and no
    duplicate row, completeness, consistency and overall integrity are all
    100. *)
Theorem completeness_is_share_of_non_null_cells (df : DataFrame) :
  well_formed df = true -> non_empty df = true -> in_memory df = true ->
  (valid_summable df = true -> exists m, calculate_metrics df = Ok m) /\
  (forall m, calculate_metrics df = Ok m ->
     completeness m = Float64 (F64.round2 (completeness_raw df)) /\
     near (completeness_raw df)
          (100 * inject_Z (Spec.non_null_cells df) / inject_Z (Spec.all_cells df))
          (100 * (inject_Z (Z.of_nat (List.length (columns df))) + 2) * ulp52) /\
     two_decimals (completeness m) /\
     overall_integrity m =
       Float64 (F64.round2 (F64.add (F64.mul F64.lit_0_6 (completeness_raw df))
                                    (F64.mul F64.lit_0_4 (consistency_raw df)))) /\
     (Spec.no_null_cells df = true -> Spec.no_duplicate_rows df = true ->
      completeness m = Float64 (F64.of_Z 100) /\
      consistency m = Float64 (F64.of_Z 100) /\
      overall_integrity m = Float64 (F64.of_Z 100))).
Proof.
  intros W NE M. destruct (non_empty_inv df NE) as [Hn _]. split.
  - intros V. destruct (calculate_metrics_returns df Hn M V) as [valid [invalid [_ [_ E]]]].
    eexists. exact E.
  - intros m E. destruct (percentage_fields df m Hn E) as [-> [-> ->]].
    split; [reflexivity|]. split; [apply completeness_near; assumption|]. split.
    { apply two_decimals_of_range with (lo := tiny2).
      - apply completeness_raw_range; assumption.
      - unfold tiny2. apply Qlt_le_weak, posval_pos. }
    split; [reflexivity|].
    intros Nn Nd.
    assert (C1 : completeness_raw df = F64.hundred)
      by (apply completeness_raw_full; assumption).
    assert (C2 : consistency_raw df = F64.hundred).
    { destruct (consistency_raw_range df Hn M) as [[_ C]|[D _]]; [exact C|].
      rewrite (duplicate_count_spec df NE), (no_duplicate_rows_count df Nd) in D. lia. }
    unfold overall_raw. rewrite C1, C2.
    destruct hundred_percent as [_ [R A]]. rewrite A, R. auto.
Qed.

Lemma completeness_is_share_of_non_null_cells_witness :
  (exists m,
     calculate_metrics sample_ten = Ok m /\
     Spec.non_null_cells sample_ten = Spec.all_cells sample_ten /\
     completeness m = Float64 (F64.of_Z 100) /\
     consistency m = Float64 (F64.of_Z 100) /\
     overall_integrity m = Float64 (F64.of_Z 100)) /\
  (exists m,
     calculate_metrics sample_gaps = Ok m /\
     Spec.non_null_cells sample_gaps = 29 /\ Spec.all_cells sample_gaps = 160 /\
     completeness m = Float64 (F64.lit 1812 100)).
Proof.
  split.
  - destruct (completeness_is_share_of_non_null_cells sample_ten eq_refl eq_refl eq_refl)
      as [R F].
    destruct (R eq_refl) as [m E]. exists m. split; [exact E|]. split; [reflexivity|].
    destruct (F m E) as [_ [_ [_ [_ H]]]]. apply H; reflexivity.
  - destruct (completeness_is_share_of_non_null_cells sample_gaps eq_refl eq_refl eq_refl)
      as [R F].
    destruct (R eq_refl) as [m E]. exists m. split; [exact E|].
    split; [reflexivity|]. split; [reflexivity|].
    destruct (F m E) as [H _]. rewrite H. vm_compute. reflexivity.
Defined.

(** * Further properties of the code *)

(** ** [calculate_metrics]: when it raises *)






(** ** [calculate_metrics]: a table with rows and no column *)

(** X2. For a table with at least one row and no column at all, the mean of
    no column is NaN: completeness and overall integrity are returned as
    NaN, consistency as 100.0, and the records are split by the 90%
    fallback. *)
Theorem rows_without_columns_give_nan (df : DataFrame) :
  (0 < index_len df)%nat -> columns df = [] -> in_memory df = true ->
  calculate_metrics df =
    Ok {| completeness := Float64 F64.nan;
          consistency := Float64 (F64.of_Z 100);
          overall_integrity := Float64 F64.nan;
          valid_records := PyInt (9 * Z.of_nat (index_len df) / 10);
          invalid_records :=
            PyInt (Z.of_nat (index_len df) - 9 * Z.of_nat (index_len df) / 10) |}.
Proof.
  intros Hn C M. destruct (in_memory_inv df M) as [Hn' _].
  rewrite (calculate_metrics_rows df Hn).
  assert (G : get_column "valid" df = None).
  { unfold get_column. rewrite C. reflexivity. }
  unfold valid_of. rewrite G, fallback_valid_ok by lia. cbn [bind py_sub].
  assert (Cm : completeness_raw df = F64.nan).
  { unfold completeness_raw, notnull_means. rewrite C. vm_compute. reflexivity. }
  assert (Cs : consistency_raw df = F64.hundred).
  { unfold consistency_raw, duplicate_count, duplicated, df_empty. rewrite C.
    rewrite orb_true_r. cbn [count_true filter List.length Z.of_nat].
    destruct (of_Z_between (Z.of_nat (index_len df))) as [mn [en [-> _]]]; [lia|].
    vm_compute. reflexivity. }
  unfold overall_raw. rewrite Cm, Cs. vm_compute. reflexivity.
Qed.

Lemma rows_without_columns_give_nan_witness :
  calculate_metrics sample_no_columns =
    Ok {| completeness := Float64 F64.nan;
          consistency := Float64 (F64.of_Z 100);
          overall_integrity := Float64 F64.nan;
          valid_records := PyInt (9 * Z.of_nat (index_len sample_no_columns) / 10);
          invalid_records :=
            PyInt (Z.of_nat (index_len sample_no_columns)
                   - 9 * Z.of_nat (index_len sample_no_columns) / 10) |}.
Proof.
  apply (rows_without_columns_give_nan sample_no_columns); [cbn; lia | reflexivity | reflexivity].
Defined.

(** ** [calculate_metrics]: the split of the records *)

(** X3. Without a column named [valid], a table with at least one row is
    never reported as entirely valid: [invalid_records] is the number of
    rows divided by 10 and rounded up, at least 1, [valid_records] is
    smaller than the number of rows, and it is 0 only for a single row. *)
Theorem fallback_always_reports_invalid (df : DataFrame) :
  (0 < index_len df)%nat -> in_memory df = true -> has_column "valid" df = false ->
  exists m v i,
    calculate_metrics df = Ok m /\
    valid_records m = PyInt v /\ invalid_records m = PyInt i /\
    i = (Z.of_nat (index_len df) + 9) / 10 /\
    1 <= i /\ 0 <= v < Z.of_nat (index_len df) /\
    (v = 0 <-> index_len df = 1%nat).
Proof.
  intros Hn M H. destruct (in_memory_inv df M) as [Hn' _].
  rewrite (calculate_metrics_rows df Hn). unfold valid_of.
  rewrite (get_column_none _ _ H), fallback_valid_ok by lia.
  cbn [bind py_sub]. eexists; eexists; eexists.
  split; [reflexivity|]. cbn [valid_records invalid_records].
  split; [reflexivity|]. split; [reflexivity|].
  set (n := Z.of_nat (index_len df)) in *.
  assert (N : 0 < n) by lia.
  assert (D1 := Z.div_mod (9 * n) 10 ltac:(lia)).
  assert (R1 := Z.mod_pos_bound (9 * n) 10 ltac:(lia)).
  assert (D2 := Z.div_mod (n + 9) 10 ltac:(lia)).
  assert (R2 := Z.mod_pos_bound (n + 9) 10 ltac:(lia)).
  repeat split; lia.
Qed.

Lemma fallback_always_reports_invalid_witness :
  exists m v i,
    calculate_metrics sample_ten = Ok m /\
    valid_records m = PyInt v /\ invalid_records m = PyInt i /\
    i = (Z.of_nat (index_len sample_ten) + 9) / 10 /\
    1 <= i /\ 0 <= v < Z.of_nat (index_len sample_ten) /\
    (v = 0 <-> index_len sample_ten = 1%nat).
Proof.
  apply (fallback_always_reports_invalid sample_ten); [cbn; lia | reflexivity | reflexivity].
Defined.

(** X4. When the [valid] column holds flags only (0, 1, [False], [True]),
    [valid_records] is the number of cells that are 1 or [True],
    [invalid_records] is the number of the others, and both lie between 0
    and the number of rows. *)
Theorem flag_column_splits_rows (df : DataFrame) (s : Series) :
  well_formed df = true -> in_memory df = true ->
  get_column "valid" df = Some s -> boolean_like s = true ->
  exists m,
    calculate_metrics df = Ok m /\
    py_eqb (valid_records m) (PyInt (Spec.truthy_count s)) = true /\
    py_eqb (invalid_records m)
           (PyInt (Z.of_nat (index_len df) - Spec.truthy_count s)) = true /\
    0 <= Spec.truthy_count s <= Z.of_nat (index_len df).
Proof.
  intros W M G B. destruct (in_memory_inv df M) as [Hn' _].
  destruct (get_column_in _ _ _ G) as [c [Hc Es]].
  assert (L : series_len s = index_len df).
  { assert (F := well_formed_columns df W). rewrite Forall_forall in F.
    rewrite <- Es. apply F. exact Hc. }
  assert (T : series_total s = Spec.truthy_count s /\
              0 <= Spec.truthy_count s <= Z.of_nat (index_len df)).
  { rewrite <- L. destruct s as [v|v|v|v]; try discriminate B; cbn [series_total series_len].
    - rewrite truthy_count_int. cbn [boolean_like] in B.
      rewrite (sum_of_flags v 0 B). split; [lia|].
      assert (F := filter_length_le (fun z => negb (z =? 0)) v). lia.
    - rewrite truthy_count_bool. split; [reflexivity|].
      assert (F := count_true_le v). lia. }
  destruct T as [T R].
  assert (S : series_sum s = Ok (NpInt64 (Spec.truthy_count s))).
  { rewrite <- T. destruct s as [v|v|v|v]; try discriminate B;
      cbn [series_sum series_total] in *; rewrite wrap64_small; try reflexivity; lia. }
  destruct (Nat.eq_dec (index_len df) 0) as [E|E].
  - exists zero_metrics. unfold calculate_metrics. rewrite E in *.
    cbn. assert (Spec.truthy_count s = 0) by lia.
    replace (Spec.truthy_count s) with 0 by lia. cbn. repeat split; lia.
  - rewrite (calculate_metrics_rows df) by lia. unfold valid_of. rewrite G, S.
    cbn [bind py_sub]. eexists. split; [reflexivity|].
    cbn [valid_records invalid_records py_eqb].
    rewrite wrap64_small by lia. rewrite !Z.eqb_refl. repeat split; lia.
Qed.

Lemma flag_column_splits_rows_witness :
  exists m,
    calculate_metrics sample_flags = Ok m /\
    py_eqb (valid_records m) (PyInt (Spec.truthy_count (Int64Col [1; 1; 0; 1]))) = true /\
    py_eqb (invalid_records m)
           (PyInt (Z.of_nat (index_len sample_flags)
                   - Spec.truthy_count (Int64Col [1; 1; 0; 1]))) = true /\
    0 <= Spec.truthy_count (Int64Col [1; 1; 0; 1]) <= Z.of_nat (index_len sample_flags).
Proof.
  apply (flag_column_splits_rows sample_flags (Int64Col [1; 1; 0; 1])); reflexivity.
Defined.

(** ** Text operations of the upload loop *)

Lemma split_on_length (sep : ascii) (s : string) :
  List.length (split_on sep s) = S (count_char sep s).
Proof.
  induction s as [|c r IH]; cbn [split_on count_char]; [reflexivity|].
  destruct (Ascii.eqb c sep); cbn [List.length Nat.add].
  - rewrite IH. reflexivity.
  - destruct (split_on sep r) as [|h t]; [discriminate IH|]. exact IH.
Qed.

Lemma split_on_join (sep : ascii) (s : string) : join sep (split_on sep s) = s.
Proof.
  induction s as [|c r IH]; cbn [split_on]; [reflexivity|].
  destruct (Ascii.eqb c sep) eqn:E.
  - apply Ascii.eqb_eq in E. subst c.
    assert (L := split_on_length sep r).
    destruct (split_on sep r) as [|h t]; [discriminate L|].
    cbn [join] in *. rewrite IH. reflexivity.
  - assert (L := split_on_length sep r).
    destruct (split_on sep r) as [|h t]; [discriminate L|].
    destruct t as [|h' t]; cbn [join] in *; rewrite <- IH; reflexivity.
Qed.

Lemma split_on_pieces (sep : ascii) (s : string) :
  Forall (fun p => count_char sep p = 0%nat) (split_on sep s).
Proof.
  induction s as [|c r IH]; cbn [split_on].
  - constructor; [reflexivity | constructor].
  - destruct (Ascii.eqb c sep) eqn:E.
    + constructor; [reflexivity | exact IH].
    + destruct (split_on sep r) as [|h t].
      * constructor; [cbn; rewrite E; reflexivity | constructor].
      * inversion IH as [|? ? Hh Ht]; subst.
        constructor; [cbn; rewrite E; exact Hh | exact Ht].
Qed.









(** ** The upload loop *)

Section UploadLoop.

Variable b64decode : string -> pyresult string.
Variable read_csv : string -> pyresult DataFrame.
Variable read_excel : string -> pyresult DataFrame.
Variable pdf_page_texts : string -> pyresult (list (option string)).
Variable concat : list DataFrame -> DataFrame.

Local Abbreviation read_upload' := (read_upload b64decode read_csv read_excel pdf_page_texts).
Local Abbreviation gather' := (gather b64decode read_csv read_excel pdf_page_texts).
Local Abbreviation handler := (update_visualizations b64decode read_csv read_excel
                                                 pdf_page_texts concat).
Local Abbreviation handler_dash := (update_visualizations_dash b64decode read_csv read_excel
                                                           pdf_page_texts concat).

(** The two copies of the handler compute the same thing. *)
Lemma handlers_agree (contents : option (list string)) (filenames : list string) :
  handler_dash contents filenames = handler contents filenames.
Proof.
  destruct contents as [cs|]; [|reflexivity].
  unfold update_visualizations_dash, update_visualizations, combined_df, combine.
  destruct (gather' (List.combine cs filenames) []) as [all_data|e]; reflexivity.
Qed.

Lemma split_two (content : string) :
  count_char comma content = 1%nat <->
  exists header payload, split_on comma content = [header; payload].
Proof.
  assert (L := split_on_length comma content). split.
  - intros C. rewrite C in L.
    destruct (split_on comma content) as [|h [|p [|x t]]]; try discriminate L.
    exists h, p. reflexivity.
  - intros [h [p E]]. rewrite E in L. cbn [List.length] in L. lia.
Qed.

(** X5. The content of an upload is split at its commas and unpacked into
    two names before the file name is looked at: a content with no comma or
    with more than one raises [ValueError], whatever the file is called; a
    content with exactly one comma is its header, the comma and its payload,
    neither holding a comma, and the payload is what is decoded. *)
Theorem content_needs_exactly_one_comma (content filename : string) :
  (count_char comma content <> 1%nat ->
   read_upload' content filename = Raised ValueError) /\
  (count_char comma content = 1%nat ->
   exists header payload,
     content = (header ++ String comma payload)%string /\
     count_char comma header = 0%nat /\ count_char comma payload = 0%nat /\
     forall e, b64decode payload = Raised e ->
               read_upload' content filename = Raised e).
Proof.
  split.
  - intros C. unfold read_upload.
    assert (L := split_on_length comma content).
    destruct (split_on comma content) as [|h [|p [|x t]]]; try reflexivity.
    cbn [List.length] in L. exfalso. apply C. lia.
  - intros C. apply split_two in C. destruct C as [h [p E]].
    exists h, p. assert (J := split_on_join comma content).
    assert (F := split_on_pieces comma content). rewrite E in J, F.
    assert (Fh := Forall_inv F). assert (Fp := Forall_inv (Forall_inv_tail F)).
    cbn beta in Fh, Fp.
    split; [symmetry; exact J|]. split; [exact Fh|]. split; [exact Fp|].
    intros e D. unfold read_upload. rewrite E, D. reflexivity.
Qed.

Lemma read_upload_none (content filename : string) :
  read_upload' content filename = Ok None ->
  recognized filename = false /\ data_url b64decode content.
Proof.
  unfold read_upload, recognized, data_url. intros H.
  destruct (split_on comma content) as [|h [|p [|x t]]]; try discriminate H.
  destruct (b64decode p) as [d|e] eqn:D; cbn [bind] in H; [|discriminate H].
  destruct (endswith filename ".csv").
  { destruct (read_csv d); discriminate H. }
  destruct (endswith filename ".xlsx").
  { destruct (read_excel d); discriminate H. }
  destruct (endswith filename ".pdf").
  { destruct (pdf_page_texts d); discriminate H. }
  split; [reflexivity|]. exists h, p, d. split; [reflexivity | exact D].
Qed.

Lemma read_upload_some (content filename : string) (df : DataFrame) :
  read_upload' content filename = Ok (Some df) -> recognized filename = true.
Proof.
  unfold read_upload, recognized. intros H.
  destruct (split_on comma content) as [|h [|p [|x t]]]; try discriminate H.
  destruct (b64decode p) as [d|e]; cbn [bind] in H; [|discriminate H].
  destruct (endswith filename ".csv"); [reflexivity|].
  destruct (endswith filename ".xlsx"); [reflexivity|].
  destruct (endswith filename ".pdf"); [reflexivity|]. discriminate H.
Qed.

(** X6. An upload is skipped without an error exactly when its name ends in
    none of [.csv], [.xlsx], [.pdf] and its content has one comma and a
    payload that decodes; a file with an unrecognized name and any other
    content makes the loop raise. *)
Theorem skipped_exactly_when (content filename : string) :
  (read_upload' content filename = Ok None <->
   recognized filename = false /\ data_url b64decode content) /\
  (recognized filename = false -> ~ data_url b64decode content ->
   exists e, read_upload' content filename = Raised e).
Proof.
  split; [split|].
  - apply read_upload_none.
  - intros [R U]. apply read_upload_skips; assumption.
  - intros R U.
    destruct (read_upload' content filename) as [[df|]|e] eqn:E.
    + apply read_upload_some in E. rewrite E in R. discriminate R.
    + exfalso. apply U. apply (read_upload_none _ _ E).
    + exists e. reflexivity.
Qed.

Lemma gather_app (u1 u2 : list (string * string)) : forall all_data,
  gather' (u1 ++ u2) all_data = (a <- gather' u1 all_data ;; gather' u2 a).
Proof.
  induction u1 as [|[c f] u1 IH]; intros all_data; cbn [app gather]; [reflexivity|].
  destruct (read_upload' c f) as [[df|]|e]; cbn [bind]; auto.
Qed.

(** X7. The first upload that raises ends the loop with its error, whatever
    was read before it and whatever follows: both copies of the handler
    raise it and return no metrics for the files that were fine. *)
Theorem first_failure_aborts (contents filenames : list string)
        (before after : list (string * string)) (content filename : string)
        (read : list DataFrame) (e : pyerror) :
  List.combine contents filenames = before ++ (content, filename) :: after ->
  gather' before [] = Ok read ->
  read_upload' content filename = Raised e ->
  handler (Some contents) filenames = Raised e /\
  handler_dash (Some contents) filenames = Raised e.
Proof.
  intros Z B R.
  assert (G : gather' (List.combine contents filenames) [] = Raised e).
  { rewrite Z, gather_app, B. cbn [bind gather]. rewrite R. reflexivity. }
  rewrite handlers_agree. split; unfold update_visualizations, combined_df;
    rewrite G; reflexivity.
Qed.

Lemma read_upload_url (content filename : string) (r : option DataFrame) :
  read_upload' content filename = Ok r -> data_url b64decode content.
Proof.
  unfold read_upload, data_url. intros H.
  destruct (split_on comma content) as [|h [|p [|x t]]]; try discriminate H.
  destruct (b64decode p) as [d|e] eqn:D; cbn [bind] in H; [|discriminate H].
  exists h, p, d. split; [reflexivity | exact D].
Qed.

(** X8. When the loop ends without an error, the frames it has gathered are
    those it started with followed by one frame for each upload with a
    recognized name, in the order of the uploads, each being what reading
    that upload returned; and every upload, also a skipped one, had a
    content that splits and decodes. *)
Theorem gathered_frames_follow_uploads (uploads : list (string * string)) :
  forall all_data out,
    gather' uploads all_data = Ok out ->
    exists new,
      out = all_data ++ new /\
      Forall2 (fun u df => read_upload' (fst u) (snd u) = Ok (Some df))
              (filter (fun u => recognized (snd u)) uploads) new /\
      List.length new = List.length (filter (fun u => recognized (snd u)) uploads) /\
      Forall (fun u => data_url b64decode (fst u)) uploads.
Proof.
  induction uploads as [|[c f] uploads IH]; intros all_data out H; cbn [gather] in H.
  - injection H as <-. exists []. rewrite app_nil_r. repeat split; constructor.
  - destruct (read_upload' c f) as [[df|]|e] eqn:R; cbn [bind] in H; [| |discriminate H].
    + destruct (IH _ _ H) as [new [E [F [L U]]]]. exists (df :: new).
      cbn [filter snd]. rewrite (read_upload_some c f df R).
      rewrite E, <- app_assoc. split; [reflexivity|]. split; [|split].
      * constructor; [exact R | exact F].
      * cbn [List.length]. rewrite L. reflexivity.
      * constructor; [exact (read_upload_url c f _ R) | exact U].
    + destruct (IH _ _ H) as [new [E [F [L U]]]]. exists new.
      cbn [filter snd]. rewrite (proj1 (read_upload_none c f R)).
      split; [exact E|]. split; [exact F|]. split; [exact L|].
      constructor; [exact (read_upload_url c f _ R) | exact U].
Qed.



End UploadLoop.

Lemma content_needs_exactly_one_comma_witness :
  read_upload sample_decode sample_reader sample_reader sample_pages
              "no comma here" "table.csv" = Raised ValueError /\
  exists header payload,
    "data:text/csv;base64,QQ=="%string = (header ++ String comma payload)%string /\
    count_char comma header = 0%nat /\ count_char comma payload = 0%nat /\
    forall e, failing_decode payload = Raised e ->
              read_upload failing_decode sample_reader sample_reader sample_pages
                          "data:text/csv;base64,QQ==" "table.csv" = Raised e.
Proof.
  split.
  - apply (content_needs_exactly_one_comma sample_decode sample_reader sample_reader
             sample_pages "no comma here" "table.csv").
    vm_compute. discriminate.
  - apply (content_needs_exactly_one_comma failing_decode sample_reader sample_reader
             sample_pages "data:text/csv;base64,QQ==" "table.csv").
    vm_compute. reflexivity.
Defined.

Lemma skipped_exactly_when_witness :
  (read_upload sample_decode sample_reader sample_reader sample_pages
               "data:text/plain;base64,aGk=" "notes.txt" = Ok None <->
   recognized "notes.txt" = false /\
   data_url sample_decode "data:text/plain;base64,aGk=") /\
  exists e, read_upload failing_decode sample_reader sample_reader sample_pages
                        "data:text/plain;base64,aGk=" "notes.txt" = Raised e.
Proof.
  split.
  - apply (skipped_exactly_when sample_decode sample_reader sample_reader sample_pages
             "data:text/plain;base64,aGk=" "notes.txt").
  - apply (skipped_exactly_when failing_decode sample_reader sample_reader sample_pages
             "data:text/plain;base64,aGk=" "notes.txt").
    + reflexivity.
    + intros [header [payload [decoded [_ D]]]]. discriminate D.
Defined.

Lemma first_failure_aborts_witness :
  update_visualizations sample_decode sample_reader sample_reader sample_pages
                        sample_concat
                        (Some ["data:text/csv;base64,QQ=="; "broken"]%string)
                        ["table.csv"; "notes.txt"]%string = Raised ValueError /\
  update_visualizations_dash sample_decode sample_reader sample_reader sample_pages
                             sample_concat
                             (Some ["data:text/csv;base64,QQ=="; "broken"]%string)
                             ["table.csv"; "notes.txt"]%string = Raised ValueError.
Proof.
  apply (first_failure_aborts sample_decode sample_reader sample_reader sample_pages
           sample_concat _ _ [("data:text/csv;base64,QQ==", "table.csv")]%string []
           "broken" "notes.txt" [sample_one] ValueError); reflexivity.
Defined.

Lemma gathered_frames_follow_uploads_witness :
  exists new,
    [sample_one] = [] ++ new /\
    Forall2 (fun u df => read_upload sample_decode sample_reader sample_reader
                                     sample_pages (fst u) (snd u) = Ok (Some df))
            (filter (fun u => recognized (snd u))
                    [("data:text/csv;base64,QQ==", "table.csv");
                     ("data:text/plain;base64,aGk=", "notes.txt")]%string) new /\
    List.length new =
      List.length (filter (fun u => recognized (snd u))
                          [("data:text/csv;base64,QQ==", "table.csv");
                           ("data:text/plain;base64,aGk=", "notes.txt")]%string) /\
    Forall (fun u => data_url sample_decode (fst u))
           [("data:text/csv;base64,QQ==", "table.csv");
            ("data:text/plain;base64,aGk=", "notes.txt")]%string.
Proof.
  apply (gathered_frames_follow_uploads sample_decode sample_reader sample_reader
           sample_pages
           [("data:text/csv;base64,QQ==", "table.csv");
            ("data:text/plain;base64,aGk=", "notes.txt")]%string [] [sample_one]).
  reflexivity.
Defined.


(** ** Duplicate rows and the order of the rows *)

Lemma mark_seen_ext (rs : list (list cell)) : forall s1 s2,
  (forall r, existsb (row_eqb r) s1 = existsb (row_eqb r) s2) ->
  mark_seen s1 rs = mark_seen s2 rs.
Proof.
  induction rs as [|r rs IH]; intros s1 s2 H; cbn [mark_seen]; [reflexivity|].
  rewrite <- (H r). destruct (existsb (row_eqb r) s1); f_equal.
  - apply IH, H.
  - apply IH. intros r'. cbn [existsb]. rewrite H. reflexivity.
Qed.

Lemma row_eqb_congr (x y r : list cell) :
  row_eqb x y = true -> row_eqb r x = row_eqb r y.
Proof.
  intros E. destruct (row_eqb r x) eqn:A, (row_eqb r y) eqn:B; try reflexivity.
  - rewrite (row_eqb_trans r x y A E) in B. discriminate B.
  - rewrite row_eqb_sym in E. rewrite (row_eqb_trans r y x B E) in A. discriminate A.
Qed.

Lemma count_true_cons (b : bool) (l : list bool) :
  count_true (b :: l) = ((if b then 1 else 0) + count_true l)%nat.
Proof. unfold count_true. destruct b; reflexivity. Qed.

Lemma marks_permutation (rs rs' : list (list cell)) :
  Permutation rs rs' ->
  forall seen, count_true (mark_seen seen rs) = count_true (mark_seen seen rs').
Proof.
  induction 1 as [|x l l' P IH|x y l|l l' l'' P1 IH1 P2 IH2]; intros seen.
  - reflexivity.
  - cbn [mark_seen]. destruct (existsb (row_eqb x) seen);
      rewrite !count_true_cons, IH; reflexivity.
  - cbn [mark_seen existsb].
    destruct (existsb (row_eqb y) seen) eqn:Ey, (existsb (row_eqb x) seen) eqn:Ex;
      rewrite ?Ey, ?Ex, ?orb_true_r, ?orb_false_r; cbn [mark_seen existsb];
      rewrite ?Ey, ?Ex, ?orb_true_r, ?orb_false_r;
      rewrite ?count_true_cons; try reflexivity.
    rewrite (row_eqb_sym y x). destruct (row_eqb x y) eqn:Exy;
      rewrite !count_true_cons; do 2 f_equal; f_equal; apply mark_seen_ext; intros r;
      cbn [existsb].
    + rewrite (row_eqb_congr x y r Exy). reflexivity.
    + rewrite !orb_assoc. f_equal. apply orb_comm.
  - rewrite IH1. apply IH2.
Qed.

Lemma rows_widths (df : DataFrame) :
  Forall (fun r => List.length r = List.length (columns df)) (rows df).
Proof.
  unfold rows. apply Forall_map, Forall_forall. intros i _.
  unfold row_at. apply length_map.
Qed.

Lemma map_as_seq {A B : Type} (f : A -> B) (d : A) (v : list A) :
  map f v = map (fun i => f (nth i v d)) (seq 0 (List.length v)).
Proof. rewrite <- (map_map (fun i => nth i v d) f), map_nth_seq. reflexivity. Qed.

Lemma notnull_cells (s : Series) :
  notnull s = map (fun i => negb (is_null (cell_at s i))) (seq 0 (series_len s)).
Proof.
  destruct s as [v|v|v|v]; cbn [notnull series_len cell_at].
  - rewrite (map_as_seq _ 0 v). apply map_ext. intros i. reflexivity.
  - rewrite (map_as_seq _ false v). apply map_ext. intros i. reflexivity.
  - rewrite (map_as_seq _ F64.nan v). apply map_ext. intros i.
    destruct (F64.is_nan (nth i v F64.nan)); reflexivity.
  - rewrite (map_as_seq _ None v). apply map_ext. intros i.
    destruct (nth i v None); reflexivity.
Qed.

Lemma column_count (df : DataFrame) (j : nat) (d : string * Series) :
  well_formed df = true -> (j < List.length (columns df))%nat ->
  List.length (notnull (snd (nth j (columns df) d))) = index_len df /\
  count_true (notnull (snd (nth j (columns df) d))) =
  List.length (filter (fun r => negb (is_null (nth j r CNull))) (rows df)).
Proof.
  intros W Hj.
  assert (L : series_len (snd (nth j (columns df) d)) = index_len df).
  { assert (F := well_formed_columns df W). rewrite Forall_forall in F.
    apply F. apply nth_In. exact Hj. }
  split; [rewrite notnull_length; exact L|].
  rewrite notnull_cells, count_true_map_filter, L. unfold rows.
  rewrite <- filter_length_map. f_equal. apply filter_ext. intros i.
  unfold row_at.
  rewrite (nth_indep _ CNull (cell_at (snd d) i)) by (rewrite length_map; exact Hj).
  rewrite (map_nth (fun c => cell_at (snd c) i)). reflexivity.
Qed.

(** The per-column means of [notnull] are a function of the rows. *)
Lemma notnull_means_rows (df : DataFrame) :
  well_formed df = true ->
  notnull_means df =
  map (fun j => F64.div
                  (F64.of_Z (Z.of_nat (List.length
                     (filter (fun r => negb (is_null (nth j r CNull))) (rows df)))))
                  (F64.of_Z (Z.of_nat (index_len df))))
      (seq 0 (List.length (columns df))).
Proof.
  intros W. unfold notnull_means.
  rewrite (map_as_seq _ (EmptyString, Int64Col []) (columns df)).
  apply map_ext_in. intros j Hj. apply in_seq in Hj.
  destruct (column_count df j (EmptyString, Int64Col []) W ltac:(lia)) as [L C].
  unfold bool_mean. rewrite L, C. reflexivity.
Qed.

(** X10. The number of duplicate rows does not depend on the order of the
    rows, and neither do the three percentages: two well-formed tables
    whose rows are the same up to their order get the same completeness,
    consistency and overall integrity. *)
Theorem percentages_ignore_row_order (df df' : DataFrame) :
  well_formed df = true -> well_formed df' = true ->
  Permutation (rows df) (rows df') ->
  index_len df = index_len df' /\
  duplicate_count df = duplicate_count df' /\
  forall m m',
    calculate_metrics df = Ok m -> calculate_metrics df' = Ok m' ->
    completeness m = completeness m' /\
    consistency m = consistency m' /\
    overall_integrity m = overall_integrity m'.
Proof.
  intros W W' P.
  assert (N : index_len df = index_len df').
  { rewrite <- (rows_length df), <- (rows_length df'). apply Permutation_length, P. }
  split; [exact N|].
  destruct (index_len df) as [|n] eqn:Hn.
  - split.
    + unfold duplicate_count, duplicated, df_empty. rewrite Hn, <- N. reflexivity.
    + intros m m' E E'. symmetry in N.
      rewrite (calculate_metrics_no_rows df Hn) in E.
      rewrite (calculate_metrics_no_rows df' N) in E'.
      injection E as <-. injection E' as <-. repeat split.
  - assert (C : List.length (columns df) = List.length (columns df')).
    { assert (F := rows_widths df). assert (F' := rows_widths df').
      rewrite Forall_forall in F, F'.
      assert (I : In (row_at df 0) (rows df)).
      { unfold rows. rewrite Hn. left. reflexivity. }
      rewrite <- (F _ I). apply F'. apply (Permutation_in _ P I). }
    assert (D : duplicate_count df = duplicate_count df').
    { unfold duplicate_count, duplicated, df_empty. rewrite <- N, Hn.
      cbn [Nat.eqb orb].
      destruct (columns df) as [|c cs], (columns df') as [|c' cs']; try discriminate C.
      - reflexivity.
      - f_equal. apply (marks_permutation _ _ P). }
    split; [exact D|].
    assert (Cm : completeness_raw df = completeness_raw df').
    { unfold completeness_raw. rewrite (notnull_means_rows df W), (notnull_means_rows df' W').
      rewrite <- C, <- N, Hn. do 2 f_equal. apply map_ext. intros j.
      rewrite (filter_length_permutation _ _ _ P). reflexivity. }
    assert (Cs : consistency_raw df = consistency_raw df').
    { unfold consistency_raw. rewrite D, <- N, Hn. reflexivity. }
    intros m m' E E'.
    destruct (percentage_fields df m ltac:(lia) E) as [A1 [A2 A3]].
    destruct (percentage_fields df' m' ltac:(lia) E') as [B1 [B2 B3]].
    rewrite A1, A2, A3, B1, B2, B3. unfold overall_raw. rewrite Cm, Cs. repeat split.
Qed.

Lemma percentages_ignore_row_order_witness :
  index_len sample_flags = index_len sample_flags_reordered /\
  duplicate_count sample_flags = duplicate_count sample_flags_reordered /\
  forall m m',
    calculate_metrics sample_flags = Ok m ->
    calculate_metrics sample_flags_reordered = Ok m' ->
    completeness m = completeness m' /\
    consistency m = consistency m' /\
    overall_integrity m = overall_integrity m'.
Proof.
  apply (percentages_ignore_row_order sample_flags sample_flags_reordered);
    [reflexivity | reflexivity | vm_compute; apply perm_swap].
Defined.

(** ** A table of missing values only *)

Lemma bool_mean_all_false (l : list bool) :
  forallb negb l = true -> 0 < Z.of_nat (List.length l) < 2 ^ 53 ->
  bool_mean l = F64.zero.
Proof.
  intros A L. unfold bool_mean.
  assert (C : count_true l = 0%nat).
  { unfold count_true. clear L. induction l as [|[|] l IH]; cbn in *;
      try discriminate A; auto. }
  rewrite C. destruct (of_Z_between _ L) as [m [e [-> _]]]. reflexivity.
Qed.

Lemma nanmean_zeros (l : list F64.float) :
  Forall (eq F64.zero) l -> 0 < Z.of_nat (List.length l) < 2 ^ 53 ->
  F64.nanmean l = F64.zero.
Proof.
  intros A L. unfold F64.nanmean, F64.nansum.
  assert (M : map (fun x => if F64.is_nan x then F64.zero else x) l = l).
  { clear L. induction A as [|x l <- A IH]; cbn; [reflexivity | rewrite IH; reflexivity]. }
  assert (F : filter (fun x => negb (F64.is_nan x)) l = l).
  { clear L M. induction A as [|x l <- A IH]; cbn; [reflexivity | rewrite IH; reflexivity]. }
  rewrite M, F.
  assert (S : F64.np_sum l = F64.zero).
  { rewrite np_sum_flags.
    - replace (filter (F64.eqb one) l) with (@nil F64.float); [reflexivity|].
      clear L M F. induction A as [|x l <- A IH]; cbn [filter]; [reflexivity|].
      change (F64.eqb one F64.zero) with false. exact IH.
    - eapply Forall_impl; [|exact A]. intros x <-. left. reflexivity.
    - lia. }
  rewrite S. destruct (of_Z_between _ L) as [m [e [-> _]]]. reflexivity.
Qed.

Lemma null_cells (s : Series) (i : nat) :
  forallb negb (notnull s) = true -> (i < series_len s)%nat -> cell_at s i = CNull.
Proof.
  intros A Hi. rewrite notnull_cells in A. rewrite forallb_forall in A.
  specialize (A (negb (is_null (cell_at s i)))).
  assert (I : In (negb (is_null (cell_at s i)))
                 (map (fun i => negb (is_null (cell_at s i))) (seq 0 (series_len s)))).
  { apply in_map_iff. exists i. split; [reflexivity|]. apply in_seq. lia. }
  specialize (A I). destruct (cell_at s i); try discriminate A. reflexivity.
Qed.

Lemma null_rows (df : DataFrame) (i : nat) :
  well_formed df = true -> all_null df = true -> (i < index_len df)%nat ->
  row_at df i = map (fun _ => CNull) (columns df).
Proof.
  intros W A Hi. unfold row_at. apply map_ext_in. intros c Hc.
  assert (L := well_formed_columns df W). rewrite Forall_forall in L.
  unfold all_null in A. rewrite forallb_forall in A.
  apply null_cells; [apply A, Hc | rewrite (L c Hc); exact Hi].
Qed.

Lemma null_row_eqb (n : nat) :
  row_eqb (repeat CNull n) (repeat CNull n) = true.
Proof. induction n as [|n IH]; cbn; [reflexivity | exact IH]. Qed.

Lemma filter_keeps_all {A : Type} (f : A -> bool) (l : list A) :
  (forall x, In x l -> f x = true) -> filter f l = l.
Proof.
  induction l as [|a l IH]; intros H; cbn; [reflexivity|].
  rewrite (H a) by (left; reflexivity). rewrite IH; [reflexivity|].
  intros x Hx. apply H. right. exact Hx.
Qed.

Lemma all_null_duplicates (df : DataFrame) :
  well_formed df = true -> non_empty df = true -> all_null df = true ->
  duplicate_count df = Z.of_nat (index_len df) - 1.
Proof.
  intros W NE A. rewrite (duplicate_count_spec df NE).
  destruct (non_empty_inv df NE) as [Hn _].
  unfold Spec.duplicate_rows. destruct (index_len df) as [|k] eqn:N; [lia|].
  cbn [seq filter]. rewrite (repeats_earlier_rows df 0). cbn [seq existsb].
  rewrite filter_keeps_all.
  - rewrite length_seq. lia.
  - intros i Hi. apply in_seq in Hi. rewrite repeats_earlier_rows.
    destruct i as [|i]; [lia|]. cbn [seq existsb].
    rewrite (null_rows df 0 W A), (null_rows df (S i) W A) by lia.
    rewrite map_const. rewrite null_row_eqb. reflexivity.
Qed.

Lemma all_null_summable (df : DataFrame) :
  all_null df = true -> valid_summable df = true.
Proof.
  intros A. unfold valid_summable.
  destruct (get_column "valid" df) as [[v|v|v|v]|] eqn:G; try reflexivity.
  destruct (get_column_in _ _ _ G) as [c [Hc Es]].
  unfold all_null in A. rewrite forallb_forall in A. specialize (A c Hc).
  rewrite Es in A. cbn [notnull] in A.
  rewrite forallb_forall in *. intros o Ho.
  specialize (A _ (in_map _ _ _ Ho)). destruct o; [discriminate A | reflexivity].
Qed.

(** X11. For a well-formed table with at least one row and one column in
    which every cell is missing, completeness is 0.0 and every row after the
    first is a duplicate of it, so consistency is [100 - (n-1)/n*100]
    rounded to two decimals; a single such row gets consistency 100.0 and an
    overall integrity of 40.0. *)
Theorem all_missing_table (df : DataFrame) :
  well_formed df = true -> non_empty df = true -> in_memory df = true ->
  all_null df = true ->
  exists m,
    calculate_metrics df = Ok m /\
    completeness m = Float64 F64.zero /\
    duplicate_count df = Z.of_nat (index_len df) - 1 /\
    consistency m =
      Float64 (F64.round2
                 (F64.sub F64.hundred
                    (F64.mul (F64.div (F64.of_Z (Z.of_nat (index_len df) - 1))
                                      (F64.of_Z (Z.of_nat (index_len df))))
                             F64.hundred))) /\
    (index_len df = 1%nat ->
     consistency m = Float64 (F64.of_Z 100) /\
     overall_integrity m = Float64 (F64.of_Z 40)).
Proof.
  intros W NE M A. destruct (non_empty_inv df NE) as [Hn Hc].
  destruct (in_memory_inv df M) as [Hn' Hc'].
  destruct (calculate_metrics_returns df Hn M (all_null_summable df A))
    as [valid [invalid [_ [_ E]]]].
  eexists. split; [exact E|]. cbn [completeness consistency overall_integrity].
  assert (D := all_null_duplicates df W NE A).
  assert (Cm : completeness_raw df = F64.zero).
  { unfold completeness_raw. rewrite nanmean_zeros.
    - reflexivity.
    - unfold notnull_means. apply Forall_map, Forall_forall. intros c Hin.
      symmetry. apply bool_mean_all_false.
      + unfold all_null in A. rewrite forallb_forall in A. apply A, Hin.
      + assert (L := well_formed_columns df W). rewrite Forall_forall in L.
        rewrite notnull_length, (L c Hin). lia.
    - unfold notnull_means. rewrite length_map. lia. }
  split; [rewrite Cm; reflexivity|]. split; [exact D|].
  split; [unfold consistency_raw; rewrite D; reflexivity|].
  intros N. unfold overall_raw, consistency_raw. rewrite Cm, D, N.
  split; vm_compute; reflexivity.
Qed.

Lemma all_missing_table_witness :
  exists m,
    calculate_metrics sample_all_null = Ok m /\
    completeness m = Float64 F64.zero /\
    duplicate_count sample_all_null = Z.of_nat (index_len sample_all_null) - 1 /\
    consistency m =
      Float64 (F64.round2
                 (F64.sub F64.hundred
                    (F64.mul (F64.div (F64.of_Z (Z.of_nat (index_len sample_all_null) - 1))
                                      (F64.of_Z (Z.of_nat (index_len sample_all_null))))
                             F64.hundred))) /\
    (index_len sample_all_null = 1%nat ->
     consistency m = Float64 (F64.of_Z 100) /\
     overall_integrity m = Float64 (F64.of_Z 40)).
Proof.
  apply (all_missing_table sample_all_null); reflexivity.
Defined.

(** ** What the rounding to two decimals hides *)

Lemma rne_quot_bounds (m p A B : Z) :
  0 <= m -> 0 < p -> (2 * A - 1) * p < 2 * m -> 2 * m < (2 * B + 1) * p ->
  A <= F64.rne_quot m p <= B.
Proof.
  intros Hm Hp HA HB. unfold F64.rne_quot.
  assert (D := Z.div_mod m p ltac:(lia)). assert (R := Z.mod_pos_bound m p Hp).
  set (q := m / p) in *. set (r := m mod p) in *.
  assert (Q1 : A - 1 <= q) by nia.
  assert (Q2 : q <= B) by nia.
  destruct (Z.compare_spec (2 * r) p) as [E|E|E]; [destruct (Z.even q)| |]; nia.
Qed.

Lemma rne_int_bounds (m : positive) (e A B : Z) :
  (inject_Z (2 * A - 1) < 2 * posval m e)%Q ->
  (2 * posval m e < inject_Z (2 * B + 1))%Q ->
  A <= F64.rne_int m e <= B.
Proof.
  intros HA HB. unfold F64.rne_int.
  destruct (Z.leb_spec 0 e) as [He|He].
  - assert (E : (posval m e == inject_Z (Zpos m * 2 ^ e))%Q).
    { unfold posval. rewrite inject_Z_mult, pow2_Z by assumption. reflexivity. }
    rewrite E in HA, HB.
    change 2%Q with (inject_Z 2) in HA, HB.
    rewrite <- inject_Z_mult, <- Zlt_Qlt in HA, HB. lia.
  - assert (Pp : 0 < 2 ^ (- e)) by (apply Z.pow_pos_nonneg; lia).
    assert (E : (posval m e * inject_Z (2 ^ (- e)) == inject_Z (Zpos m))%Q).
    { unfold posval. rewrite <- pow2_Z by lia. rewrite <- Qmult_assoc, <- pow2_add.
      replace (e + - e) with 0 by lia. unfold pow2. simpl (2 ^ 0)%Q. ring. }
    assert (Q2 := Q_of_Z_pos _ Pp).
    apply rne_quot_bounds; [lia | assumption | |].
    + rewrite Zlt_Qlt, !inject_Z_mult, <- E.
      change (inject_Z 2) with 2%Q.
      setoid_replace (2 * (posval m e * inject_Z (2 ^ (- e))))%Q
        with (2 * posval m e * inject_Z (2 ^ (- e)))%Q by ring.
      apply Qmult_lt_compat_r; assumption.
    + rewrite Zlt_Qlt, !inject_Z_mult, <- E.
      change (inject_Z 2) with 2%Q.
      setoid_replace (2 * (posval m e * inject_Z (2 ^ (- e))))%Q
        with (2 * posval m e * inject_Z (2 ^ (- e)))%Q by ring.
      apply Qmult_lt_compat_r; assumption.
Qed.

(** [round(x, 2)] of a double from 99.996 to 100 is 100.0. *)
Lemma round2_high (x : F64.float) :
  between x (13106675 # 131072) 100 -> F64.round2 x = F64.of_Z 100.
Proof.
  intros Bx. unfold F64.round2. rewrite hundred_eq.
  assert (Bw : between (F64.mul x (S754_finite false 7036874417766400 (-46)))
                       (posval 5497337937920000 (-39))
                       (posval 5497558138880000 (-39))).
  { apply (mul_between_r _ _ _ _ _ _ _ _ _ Bx); try reflexivity.
    - lra.
    - rewrite val_hundred.
      setoid_replace (posval 5497337937920000 (-39)) with (327666875 # 32768)%Q
        by reflexivity. lra.
    - rewrite val_hundred.
      setoid_replace (posval 5497558138880000 (-39)) with 10000%Q by reflexivity. lra. }
  destruct Bw as [mw [ew [Ew [Bw [Vw1 Vw2]]]]]. rewrite Ew.
  setoid_replace (posval 5497337937920000 (-39)) with (327666875 # 32768)%Q in Vw1
    by reflexivity.
  setoid_replace (posval 5497558138880000 (-39)) with 10000%Q in Vw2 by reflexivity.
  assert (K : 10000 <= F64.rne_int mw ew <= 10000).
  { apply rne_int_bounds.
    - change (inject_Z (2 * 10000 - 1)) with 19999%Q. lra.
    - change (inject_Z (2 * 10000 + 1)) with 20001%Q. lra. }
  unfold F64.rint. cbn [cond_Zopp].
  replace (F64.rne_int mw ew) with 10000 by lia. vm_compute. reflexivity.
Qed.

(** [round(x, 2)] of a double from 0 to 99.99008 is at most 99.99. *)
Lemma round2_low (x : F64.float) (lo : Q) :
  upto x lo (3276475 # 32768) -> (0 <= lo)%Q ->
  exists k, 0 <= k <= 9999 /\ F64.round2 x = F64.lit k 100.
Proof.
  intros Hx L0. unfold F64.round2, F64.lit. fold F64.hundred.
  assert (Hy : upto (F64.mul x F64.hundred) 0 (posval 5497012879360000 (-39))).
  { rewrite hundred_eq.
    destruct Hx as [->|Bx]; [left; reflexivity|].
    destruct Bx as [m [e [-> [B [V1 V2]]]]].
    destruct (bounded_inv _ _ B) as [C _].
    assert (R := mul_rounds_to m e 7036874417766400 (-46) C eq_refl).
    assert (Hle : (posval m e * posval 7036874417766400 (-46) <=
                   posval 5497012879360000 (-39))%Q).
    { rewrite val_hundred.
      setoid_replace (posval 5497012879360000 (-39)) with (81911875 # 8192)%Q
        by reflexivity. lra. }
    destruct (rounds_to_below _ _ 5497012879360000 (-39) R eq_refl Hle)
      as [Z|[m' [e' [E' [B' V']]]]]; [left; exact Z|right].
    exists m', e'. repeat split; auto. apply Qlt_le_weak, posval_pos. }
  destruct Hy as [->|[m [e [-> [B [_ V]]]]]].
  - exists 0. split; [lia|reflexivity].
  - exists (F64.rne_int m e). split; [|reflexivity].
    setoid_replace (posval 5497012879360000 (-39)) with (81911875 # 8192)%Q in V
      by reflexivity.
    assert (P := posval_pos m e).
    apply rne_int_bounds.
    + change (inject_Z (2 * 0 - 1)) with (-1)%Q. lra.
    + change (inject_Z (2 * 9999 + 1)) with 19999%Q. lra.
Qed.

(** [round(100 - d / n * 100, 2)] when at most one row in 25000 is a
    duplicate, and when at least one in 10000 is. *)
Lemma consistency_rounded (d n : Z) :
  0 <= d < n -> n < 2 ^ 48 ->
  let c := F64.sub F64.hundred
             (F64.mul (F64.div (F64.of_Z d) (F64.of_Z n)) F64.hundred) in
  (25000 * d <= n -> F64.round2 c = F64.of_Z 100) /\
  (n <= 10000 * d -> exists k, 0 <= k <= 9999 /\ F64.round2 c = F64.lit k 100).
Proof.
  intros [Hd Hdn] Hn c.
  destruct (of_Z_between n) as [mn [en [En [Bn [Vn Mn]]]]]; [lia|].
  destruct (Z.eq_dec d 0) as [->|Hd0].
  { split; [|intros H; lia]. intros _. unfold c. rewrite En. vm_compute. reflexivity. }
  destruct (of_Z_between d) as [md [ed [Ed [Bd [Vd Md]]]]]; [lia|].
  destruct (bounded_inv _ _ Bd) as [Cd _]. destruct (bounded_inv _ _ Bn) as [Cn _].
  assert (Rq := div_rounds_to md ed mn en Cd ltac:(lia)).
  assert (Nq : (0 < inject_Z n)%Q) by (apply Q_of_Z_pos; lia).
  assert (Dq : (1 <= inject_Z d)%Q)
    by (change 1%Q with (inject_Z 1); rewrite <- Zle_Qle; lia).
  assert (Dn : (inject_Z d + 1 <= inject_Z n)%Q)
    by (change 1%Q with (inject_Z 1); rewrite <- inject_Z_plus, <- Zle_Qle; lia).
  assert (Nn : (inject_Z n <= 281474976710656)%Q)
    by (change 281474976710656%Q with (inject_Z (2 ^ 48)); rewrite <- Zle_Qle; lia).
  rewrite Vd, Vn in Rq.
  unfold c. rewrite Ed, En, hundred_eq.
  split.
  - intros H.
    assert (Hq : (25000 * inject_Z d <= inject_Z n)%Q).
    { change 25000%Q with (inject_Z 25000). rewrite <- inject_Z_mult, <- Zle_Qle. exact H. }
    (* the quotient is at most 42 * 2^-20 *)
    assert (Bq : between (F64.div (S754_finite false md ed) (S754_finite false mn en))
                         (posval 4503599627370496 (-100))
                         (posval 5910974510923776 (-67))).
    { apply between_intro with (x := (inject_Z d / inject_Z n)%Q);
        [assumption|reflexivity|reflexivity| |].
      - apply Qle_shift_div_l; [assumption|].
        setoid_replace (posval 4503599627370496 (-100)) with (1 # 281474976710656)%Q
          by reflexivity. nra.
      - apply Qle_shift_div_r; [assumption|].
        setoid_replace (posval 5910974510923776 (-67)) with (21 # 524288)%Q by reflexivity.
        nra. }
    (* times 100: at most 4200 * 2^-20 *)
    assert (Bm : between (F64.mul (F64.div (S754_finite false md ed) (S754_finite false mn en))
                                  (S754_finite false 7036874417766400 (-46)))
                         (posval 4503599627370496 (-94))
                         (posval 4617948836659200 (-60))).
    { apply (mul_between_r _ _ _ _ _ _ _ _ _ Bq); try reflexivity.
      - apply Qlt_le_weak, posval_pos.
      - rewrite val_hundred.
        setoid_replace (posval 4503599627370496 (-100)) with (1 # 281474976710656)%Q
          by reflexivity.
        setoid_replace (posval 4503599627370496 (-94)) with (1 # 4398046511104)%Q
          by reflexivity. lra.
      - rewrite val_hundred.
        setoid_replace (posval 5910974510923776 (-67)) with (21 # 524288)%Q by reflexivity.
        setoid_replace (posval 4617948836659200 (-60)) with (525 # 131072)%Q by reflexivity.
        lra. }
    destruct Bm as [mm [em [Em [Bm [Vm1 Vm2]]]]]. rewrite Em.
    setoid_replace (posval 4503599627370496 (-94)) with (1 # 4398046511104)%Q in Vm1
      by reflexivity.
    setoid_replace (posval 4617948836659200 (-60)) with (525 # 131072)%Q in Vm2
      by reflexivity.
    (* 100 minus: at least 104853400 * 2^-20 *)
    assert (Lt : (posval mm em < posval 7036874417766400 (-46))%Q)
      by (rewrite val_hundred; lra).
    assert (Rs := sub_rounds_to 7036874417766400 (-46) mm em Lt).
    apply round2_high.
    apply between_weaken with (lo := posval 7036592560537600 (-46))
                              (hi := posval 7036874417766400 (-46)).
    + apply between_intro with (x := (posval 7036874417766400 (-46) - posval mm em)%Q);
        [assumption|reflexivity|reflexivity| |]; rewrite val_hundred.
      * setoid_replace (posval 7036592560537600 (-46)) with (13106675 # 131072)%Q
          by reflexivity. lra.
      * lra.
    + setoid_replace (posval 7036592560537600 (-46)) with (13106675 # 131072)%Q
        by reflexivity. lra.
    + rewrite val_hundred. lra.
  - intros H.
    assert (Hq : (inject_Z n <= 10000 * inject_Z d)%Q).
    { change 10000%Q with (inject_Z 10000). rewrite <- inject_Z_mult, <- Zle_Qle. exact H. }
    (* the quotient is at least 104 * 2^-20 *)
    assert (Bq : between (F64.div (S754_finite false md ed) (S754_finite false mn en))
                         (posval 7318349394477056 (-66))
                         (posval 9007199254740960 (-53))).
    { apply between_intro with (x := (inject_Z d / inject_Z n)%Q);
        [assumption|reflexivity|reflexivity| |].
      - apply Qle_shift_div_l; [assumption|].
        setoid_replace (posval 7318349394477056 (-66)) with (13 # 131072)%Q by reflexivity.
        nra.
      - apply Qle_shift_div_r; [assumption|].
        setoid_replace (posval 9007199254740960 (-53))
          with (9007199254740960 # 9007199254740992)%Q by reflexivity. nra. }
    (* times 100: at least 10400 * 2^-20 *)
    assert (Bm : between (F64.mul (F64.div (S754_finite false md ed) (S754_finite false mn en))
                                  (S754_finite false 7036874417766400 (-46)))
                         (posval 5717460464435200 (-59))
                         (posval 7036874417766399 (-46))).
    { apply (mul_between_r _ _ _ _ _ _ _ _ _ Bq); try reflexivity.
      - apply Qlt_le_weak, posval_pos.
      - rewrite val_hundred.
        setoid_replace (posval 7318349394477056 (-66)) with (13 # 131072)%Q by reflexivity.
        setoid_replace (posval 5717460464435200 (-59)) with (325 # 32768)%Q by reflexivity.
        lra.
      - rewrite val_hundred.
        setoid_replace (posval 9007199254740960 (-53))
          with (9007199254740960 # 9007199254740992)%Q by reflexivity.
        setoid_replace (posval 7036874417766399 (-46))
          with (7036874417766399 # 70368744177664)%Q by reflexivity. lra. }
    destruct Bm as [mm [em [Em [Bm [Vm1 Vm2]]]]]. rewrite Em.
    setoid_replace (posval 5717460464435200 (-59)) with (325 # 32768)%Q in Vm1
      by reflexivity.
    setoid_replace (posval 7036874417766399 (-46))
      with (7036874417766399 # 70368744177664)%Q in Vm2 by reflexivity.
    (* 100 minus: at most 104847200 * 2^-20 *)
    assert (Lt : (posval mm em < posval 7036874417766400 (-46))%Q)
      by (rewrite val_hundred; lra).
    assert (Rs := sub_rounds_to 7036874417766400 (-46) mm em Lt).
    apply round2_low with (lo := posval 4503599627370496 (-98)).
    + right.
      apply between_weaken with (lo := posval 4503599627370496 (-98))
                                (hi := posval 7036176485580800 (-46)).
      * apply between_intro with (x := (posval 7036874417766400 (-46) - posval mm em)%Q);
          [assumption|reflexivity|reflexivity| |]; rewrite val_hundred.
        -- setoid_replace (posval 4503599627370496 (-98)) with (1 # 70368744177664)%Q
             by reflexivity. lra.
        -- setoid_replace (posval 7036176485580800 (-46)) with (3276475 # 32768)%Q
             by reflexivity. lra.
      * lra.
      * setoid_replace (posval 7036176485580800 (-46)) with (3276475 # 32768)%Q
          by reflexivity. lra.
    + apply Qlt_le_weak, posval_pos.
Qed.

(** X12. The consistency returned is rounded to two decimals, which hides
    rare duplicates and shows frequent ones: on a table with at least one
    row and one column, when at most one row in 25000 is marked as a
    duplicate the consistency returned is 100.0, also when duplicates
    exist; when at least one row in 10000 is marked, it is at most
    99.99. *)
Theorem rounding_hides_rare_duplicates (df : DataFrame) :
  non_empty df = true -> in_memory df = true -> valid_summable df = true ->
  exists m,
    calculate_metrics df = Ok m /\
    (25000 * duplicate_count df <= Z.of_nat (index_len df) ->
     consistency m = Float64 (F64.of_Z 100)) /\
    (Z.of_nat (index_len df) <= 10000 * duplicate_count df ->
     exists k, 0 <= k <= 9999 /\ consistency m = Float64 (F64.lit k 100)).
Proof.
  intros NE M V. destruct (non_empty_inv df NE) as [Hn _].
  destruct (in_memory_inv df M) as [Hn' _].
  destruct (calculate_metrics_returns df Hn M V) as [valid [invalid [_ [_ E]]]].
  eexists. split; [exact E|]. cbn [consistency].
  assert (D := duplicate_count_lt df Hn).
  destruct (consistency_rounded (duplicate_count df) (Z.of_nat (index_len df)) D Hn')
    as [A B].
  fold (consistency_raw df) in A, B. split.
  - intros H. rewrite (A H). reflexivity.
  - intros H. destruct (B H) as [k [Hk Ek]]. exists k. rewrite Ek. split; [exact Hk|reflexivity].
Qed.

Lemma rounding_hides_rare_duplicates_witness :
  exists m,
    calculate_metrics sample_flags = Ok m /\
    (25000 * duplicate_count sample_flags <= Z.of_nat (index_len sample_flags) ->
     consistency m = Float64 (F64.of_Z 100)) /\
    (Z.of_nat (index_len sample_flags) <= 10000 * duplicate_count sample_flags ->
     exists k, 0 <= k <= 9999 /\ consistency m = Float64 (F64.lit k 100)).
Proof.
  apply (rounding_hides_rare_duplicates sample_flags); reflexivity.
Defined.

(** X13. The completeness returned is rounded likewise: on a well-formed
    table with at least one row and at most a million columns, when at most
    one cell in 40000 is missing the completeness returned is 100.0, also
    when cells are missing; when at least one cell in 10000 is missing, it
    is at most 99.99. *)
Theorem rounding_hides_rare_missing_values (df : DataFrame) :
  well_formed df = true -> non_empty df = true -> in_memory df = true ->
  valid_summable df = true ->
  Z.of_nat (List.length (columns df)) <= 1000000 ->
  exists m,
    calculate_metrics df = Ok m /\
    (40000 * (Spec.all_cells df - Spec.non_null_cells df) <= Spec.all_cells df ->
     completeness m = Float64 (F64.of_Z 100)) /\
    (Spec.all_cells df <= 10000 * (Spec.all_cells df - Spec.non_null_cells df) ->
     exists k, 0 <= k <= 9999 /\ completeness m = Float64 (F64.lit k 100)).
Proof.
  intros W NE M V C. destruct (non_empty_inv df NE) as [Hn Hc].
  destruct (calculate_metrics_returns df Hn M V) as [valid [invalid [_ [_ E]]]].
  eexists. split; [exact E|]. cbn [completeness].
  assert (N := completeness_near df W NE M).
  assert (R := completeness_raw_range df W NE M).
  unfold near in N.
  assert (A : 0 < Spec.all_cells df) by (unfold Spec.all_cells; nia).
  assert (Aq := Q_of_Z_pos _ A).
  assert (Cq : (inject_Z (Z.of_nat (List.length (columns df))) <= 1000000)%Q).
  { change 1000000%Q with (inject_Z 1000000). rewrite <- Zle_Qle. exact C. }
  assert (C0 : (0 <= inject_Z (Z.of_nat (List.length (columns df))))%Q).
  { change 0%Q with (inject_Z 0). rewrite <- Zle_Qle. lia. }
  assert (U : (ulp52 == 1 # 4503599627370496)%Q) by reflexivity.
  set (a := inject_Z (Spec.all_cells df)) in *.
  set (b := inject_Z (Spec.non_null_cells df)) in *.
  set (c := inject_Z (Z.of_nat (List.length (columns df)))) in *.
  set (x := (100 * b / a)%Q) in *.
  assert (Er : (100 * (c + 2) * ulp52 <= 1 # 10000000)%Q) by (rewrite U; nra).
  assert (E0 : (0 <= 100 * (c + 2) * ulp52)%Q) by (rewrite U; nra).
  set (err := (100 * (c + 2) * ulp52)%Q) in *.
  destruct N as [N1 N2]. split.
  - intros H.
    assert (Hq : (40000 * (a - b) <= a)%Q).
    { unfold a, b. change 40000%Q with (inject_Z 40000).
      rewrite <- inject_Z_minus, <- inject_Z_mult, <- Zle_Qle. exact H. }
    assert (X : (399990 # 4000 <= x)%Q).
    { unfold x. apply Qle_shift_div_l; [exact Aq|]. lra. }
    f_equal. apply round2_high.
    destruct R as [Z|B].
    + rewrite Z in N1. rewrite to_Q_zero in N1. lra.
    + destruct B as [m' [e' [E' [B' [V1 V2]]]]]. rewrite E' in *.
      rewrite to_Q_finite in N1. exists m', e'. repeat split; auto; lra.
  - intros H.
    assert (Hq : (a <= 10000 * (a - b))%Q).
    { unfold a, b. change 10000%Q with (inject_Z 10000).
      rewrite <- inject_Z_minus, <- inject_Z_mult, <- Zle_Qle. exact H. }
    assert (X : (x <= 9999 # 100)%Q).
    { unfold x. apply Qle_shift_div_r; [exact Aq|]. lra. }
    destruct (round2_low (completeness_raw df) tiny2) as [k [Hk Ek]].
    + destruct R as [Z|B]; [left; exact Z|right].
      destruct B as [m' [e' [E' [B' [V1 V2]]]]]. rewrite E' in *.
      rewrite to_Q_finite in N2. exists m', e'. repeat split; auto; lra.
    + unfold tiny2. apply Qlt_le_weak, posval_pos.
    + exists k. rewrite Ek. split; [exact Hk | reflexivity].
Qed.

Lemma rounding_hides_rare_missing_values_witness :
  exists m,
    calculate_metrics sample_all_null = Ok m /\
    (40000 * (Spec.all_cells sample_all_null - Spec.non_null_cells sample_all_null)
     <= Spec.all_cells sample_all_null ->
     completeness m = Float64 (F64.of_Z 100)) /\
    (Spec.all_cells sample_all_null
     <= 10000 * (Spec.all_cells sample_all_null - Spec.non_null_cells sample_all_null) ->
     exists k, 0 <= k <= 9999 /\ completeness m = Float64 (F64.lit k 100)).
Proof.
  apply (rounding_hides_rare_missing_values sample_all_null); try reflexivity.
  vm_compute. discriminate.
Defined.

(** ** The weights of overall integrity *)

(** [round(x, 2)] of a double between two integers. *)
Lemma round2_bounds (x : F64.float) (A B : Z) :
  0 < A -> A <= B -> B <= 100 -> between x (inject_Z A) (inject_Z B) ->
  exists k, 100 * A <= k <= 100 * B /\ F64.round2 x = F64.lit k 100.
Proof.
  intros HA HAB HB Hx. unfold F64.round2, F64.lit. fold F64.hundred. rewrite hundred_eq.
  destruct (of_Z_between (100 * A)) as [m1 [e1 [_ [B1 [V1 _]]]]]; [lia|].
  destruct (of_Z_between (100 * B)) as [m2 [e2 [_ [B2 [V2 _]]]]]; [lia|].
  rewrite inject_Z_mult in V1, V2. change (inject_Z 100) with 100%Q in V1, V2.
  assert (A0 := Q_of_Z_pos A HA).
  assert (Bw : between (F64.mul x (S754_finite false 7036874417766400 (-46)))
                       (posval m1 e1) (posval m2 e2)).
  { apply (mul_between_r _ _ _ _ _ _ _ _ _ Hx); try assumption; try reflexivity.
    - lra.
    - rewrite V1, val_hundred. lra.
    - rewrite V2, val_hundred. lra. }
  destruct Bw as [mw [ew [Ew [Bw [Vw1 Vw2]]]]]. rewrite Ew.
  exists (F64.rne_int mw ew). split; [|reflexivity].
  rewrite V1 in Vw1. rewrite V2 in Vw2.
  apply rne_int_bounds.
  - rewrite inject_Z_minus, !inject_Z_mult.
    change (inject_Z 2) with 2%Q. change (inject_Z 100) with 100%Q.
    change (inject_Z 1) with 1%Q. lra.
  - rewrite inject_Z_plus, !inject_Z_mult.
    change (inject_Z 2) with 2%Q. change (inject_Z 100) with 100%Q.
    change (inject_Z 1) with 1%Q. lra.
Qed.

Lemma forty_eq :
  F64.mul (S754_finite false 7205759403792794 (-54)) F64.hundred
  = S754_finite false 5629499534213120 (-47).
Proof. vm_compute. reflexivity. Qed.

Lemma sixty_eq :
  F64.mul (S754_finite false 5404319552844595 (-53)) F64.hundred
  = S754_finite false 8444249301319680 (-47).
Proof. vm_compute. reflexivity. Qed.

(** X14. Overall integrity weighs completeness by 0.6 and consistency by
    0.4: on a well-formed table with at least one row and one column, it is
    at least 40.0 when no row is a duplicate, however many cells are
    missing, and at least 60.0 when no cell is missing, however many rows
    are duplicates; it is never above 100.0. *)
Theorem overall_integrity_floors (df : DataFrame) :
  well_formed df = true -> non_empty df = true -> in_memory df = true ->
  valid_summable df = true ->
  exists m,
    calculate_metrics df = Ok m /\
    (Spec.no_duplicate_rows df = true ->
     exists k, 4000 <= k <= 10000 /\ overall_integrity m = Float64 (F64.lit k 100)) /\
    (Spec.no_null_cells df = true ->
     exists k, 6000 <= k <= 10000 /\ overall_integrity m = Float64 (F64.lit k 100)).
Proof.
  intros W NE M V. destruct (non_empty_inv df NE) as [Hn _].
  destruct (calculate_metrics_returns df Hn M V) as [valid [invalid [_ [_ E]]]].
  eexists. split; [exact E|]. cbn [overall_integrity].
  unfold overall_raw. rewrite lit_0_6_eq, lit_0_4_eq. split.
  - intros D.
    assert (Cs : consistency_raw df = F64.hundred).
    { destruct (consistency_raw_range df Hn M) as [[_ C]|[D' _]]; [exact C|].
      rewrite (duplicate_count_spec df NE), (no_duplicate_rows_count df D) in D'. lia. }
    rewrite Cs, forty_eq.
    assert (A : upto (F64.mul (S754_finite false 5404319552844595 (-53))
                              (completeness_raw df))
                     (posval 4503599627370496 (-149)) (posval 8444249301319680 (-47))).
    { apply (mul_range_l _ 5404319552844595 (-53) tiny2 100);
        try reflexivity; [apply completeness_raw_range; assumption| | |].
      - unfold tiny2. apply Qlt_le_weak, posval_pos.
      - unfold tiny2.
        setoid_replace (posval 4503599627370496 (-149))
          with ((1 # 2) * posval 4503599627370496 (-148))%Q by reflexivity.
        setoid_replace (posval 5404319552844595 (-53))
          with (5404319552844595 # 9007199254740992)%Q by reflexivity.
        assert (P := posval_pos 4503599627370496 (-148)). lra.
      - setoid_replace (posval 5404319552844595 (-53))
          with (5404319552844595 # 9007199254740992)%Q by reflexivity.
        setoid_replace (posval 8444249301319680 (-47)) with 60%Q by reflexivity. lra. }
    assert (O : between (F64.add (F64.mul (S754_finite false 5404319552844595 (-53))
                                          (completeness_raw df))
                                 (S754_finite false 5629499534213120 (-47)))
                        (inject_Z 40) (inject_Z 100)).
    { destruct A as [->|[ma [ea [-> [Ba [Va1 Va2]]]]]].
      - exists 5629499534213120%positive, (-47). split; [reflexivity|].
        split; [reflexivity|].
        setoid_replace (posval 5629499534213120 (-47)) with 40%Q by reflexivity.
        change (inject_Z 40) with 40%Q. change (inject_Z 100) with 100%Q. lra.
      - assert (R := add_rounds_to ma ea 5629499534213120 (-47)).
        setoid_replace (posval 8444249301319680 (-47)) with 60%Q in Va2 by reflexivity.
        assert (P := posval_pos ma ea).
        apply between_weaken with (lo := posval 5629499534213120 (-47))
                                  (hi := posval 7036874417766400 (-46)).
        + apply between_intro with (x := (posval ma ea + posval 5629499534213120 (-47))%Q);
            [assumption|reflexivity|reflexivity| |].
          * lra.
          * rewrite val_hundred.
            setoid_replace (posval 5629499534213120 (-47)) with 40%Q by reflexivity. lra.
        + setoid_replace (posval 5629499534213120 (-47)) with 40%Q by reflexivity.
          change (inject_Z 40) with 40%Q. lra.
        + rewrite val_hundred. change (inject_Z 100) with 100%Q. lra. }
    destruct (round2_bounds _ 40 100 ltac:(lia) ltac:(lia) ltac:(lia) O) as [k [Hk Ek]].
    exists k. rewrite Ek. split; [lia | reflexivity].
  - intros N.
    rewrite (completeness_raw_full df W NE M N), sixty_eq.
    assert (B : between (F64.mul (S754_finite false 7205759403792794 (-54))
                                 (consistency_raw df))
                        (posval 4503599627370496 (-100)) (posval 5629499534213120 (-47))).
    { destruct (consistency_raw_range df Hn M) as [[_ ->]|[_ K]].
      - exists 5629499534213120%positive, (-47). split; [vm_compute; reflexivity|].
        split; [reflexivity|]. split; [|apply Qle_refl].
        setoid_replace (posval 4503599627370496 (-100)) with (1 # 281474976710656)%Q
          by reflexivity.
        setoid_replace (posval 5629499534213120 (-47)) with 40%Q by reflexivity. lra.
      - apply (mul_between_l _ 7205759403792794 (-54) _ _
                    4503599627370496 (-100) 5629499534213120 (-47) K); try reflexivity.
        + apply Qlt_le_weak, posval_pos.
        + setoid_replace (posval 4503599627370496 (-100)) with (1 # 281474976710656)%Q
            by reflexivity.
          setoid_replace (posval 7205759403792794 (-54))
            with (7205759403792794 # 18014398509481984)%Q by reflexivity.
          setoid_replace (posval 4503599627370496 (-98)) with (1 # 70368744177664)%Q
            by reflexivity. lra.
        + setoid_replace (posval 7205759403792794 (-54))
            with (7205759403792794 # 18014398509481984)%Q by reflexivity.
          setoid_replace (posval 7036874417766384 (-46))
            with (7036874417766384 # 70368744177664)%Q by reflexivity.
          setoid_replace (posval 5629499534213120 (-47)) with 40%Q by reflexivity. lra. }
    destruct B as [mb [eb [-> [Bb [Vb1 Vb2]]]]].
    assert (R := add_rounds_to 8444249301319680 (-47) mb eb).
    setoid_replace (posval 5629499534213120 (-47)) with 40%Q in Vb2 by reflexivity.
    assert (P := posval_pos mb eb).
    assert (O : between (F64.add (S754_finite false 8444249301319680 (-47))
                                 (S754_finite false mb eb))
                        (inject_Z 60) (inject_Z 100)).
    { apply between_weaken with (lo := posval 8444249301319680 (-47))
                                (hi := posval 7036874417766400 (-46)).
      - apply between_intro with (x := (posval 8444249301319680 (-47) + posval mb eb)%Q);
          [assumption|reflexivity|reflexivity| |].
        + lra.
        + rewrite val_hundred.
          setoid_replace (posval 8444249301319680 (-47)) with 60%Q by reflexivity. lra.
      - setoid_replace (posval 8444249301319680 (-47)) with 60%Q by reflexivity.
        change (inject_Z 60) with 60%Q. lra.
      - rewrite val_hundred. change (inject_Z 100) with 100%Q. lra. }
    destruct (round2_bounds _ 60 100 ltac:(lia) ltac:(lia) ltac:(lia) O) as [k [Hk Ek]].
    exists k. rewrite Ek. split; [lia | reflexivity].
Qed.

Lemma overall_integrity_floors_witness :
  exists m,
    calculate_metrics sample_ten = Ok m /\
    (Spec.no_duplicate_rows sample_ten = true ->
     exists k, 4000 <= k <= 10000 /\ overall_integrity m = Float64 (F64.lit k 100)) /\
    (Spec.no_null_cells sample_ten = true ->
     exists k, 6000 <= k <= 10000 /\ overall_integrity m = Float64 (F64.lit k 100)).
Proof.
  apply (overall_integrity_floors sample_ten); reflexivity.
Defined.
